(** * VesperDB: dialect compilers, table extractor and query cache

    A shallow embedding of the JavaScript sources of vesperdb:
    - the SQLite and PostgreSQL query compilers ([Sqlite], [Pg]);
    - the MySQL schema compiler ([Mysql]);
    - the query cache with its fingerprint, its LRU store, its table index
      and its table extractor ([Md5], [Json], [Lru], [Cache]).

    JavaScript strings are modelled as [string] (sequences of bytes, read as
    UTF-8), arrays as lists, [Map] and [Set] as [gmap] and [gset], objects
    whose key order matters as association lists, thrown errors as [Throw]
    and the lines sent to [console.warn] as a list returned beside the
    result. A white-space character ([\s], [trim]) is one to three bytes of
    such a string; letter case and the class [\w] are those of the ASCII
    characters. A number is a double: [VNum z] is the Number nearest to the
    integer [z]. *)

From Stdlib Require Import ZArith Ascii String List Lia DecimalString DecimalNat.
From stdpp Require Import gmap strings list.

Set Warnings "-register-all,-clear-no-such-hyp".

(** ** JavaScript values and string primitives *)

Module Js.

(** The values a binding, a default or a cached result can be. [VNum z] is
    the Number nearest to the integer [z] (ties to the even mantissa; the
    integers up to [2^53] are Numbers themselves); [VArr] is an array (a
    result set); [VMember name] is what reading the property [name] of a
    plain object yields when the object has no such property of its own
    and [name] is a member of [Object.prototype]: one of its methods or,
    for [__proto__], [Object.prototype] itself. *)
Inductive jsval : Type :=
| VUndefined
| VNull
| VBool (b : bool)
| VNum (z : Z)
| VStr (s : string)
| VArr (l : list jsval)
| VMember (name : string).

(** The methods every plain object inherits from [Object.prototype]. *)
Definition objectPrototypeMethods : list string :=
  ["constructor"; "hasOwnProperty"; "isPrototypeOf"; "propertyIsEnumerable";
   "toLocaleString"; "toString"; "valueOf"; "__defineGetter__";
   "__defineSetter__"; "__lookupGetter__"; "__lookupSetter__"].

(** The outcome of a call that may throw: [Throw msg] is an error of
    message [msg]. *)
Inductive result (A : Type) : Type :=
| Ok (a : A)
| Throw (msg : string).
Arguments Ok {A} a.
Arguments Throw {A} msg.

(** The message under which a [TypeError] that the engine itself raises (on
    the keys or on a property of [null] or [undefined]) is recorded: the
    wording of such an error is the engine's, and no error that the
    sources throw has this message. *)
Definition typeError : string := "TypeError".

(** [!!v] *)
Definition truthy (v : jsval) : bool :=
  match v with
  | VUndefined | VNull => false
  | VBool b => b
  | VNum z => negb (z =? 0)%Z
  | VStr s => negb (String.eqb s "")
  | VArr _ => true
  | VMember _ => true
  end.

(** Decimal printing of a counter, as in a template literal. *)
Definition natToString (n : nat) : string :=
  NilEmpty.string_of_uint (Nat.to_uint n).

(** *** Numbers *)

(** The Number nearest to the quotient of two positive integers, ties to
    the even mantissa: the mantissa [m], with [2^52 <= m < 2^53], and the
    exponent [e] of its value [m * 2^e]. *)
Definition nearestDouble (num den : Z) : Z * Z :=
  (let e0 := Z.log2 num - Z.log2 den - 53 in
   let scaled e :=
     if 0 <=? e then (num, den * 2 ^ e) else (num * 2 ^ (- e), den) in
   let e := let '(n, d) := scaled e0 in
            if n / d <? 2 ^ 53 then (if n / d <? 2 ^ 52 then e0 - 1 else e0)
            else e0 + 1 in
   let '(n, d) := scaled e in
   let q := n / d in
   let r := n mod d in
   let m := if (d <? 2 * r) || ((d =? 2 * r) && Z.odd q) then q + 1 else q in
   if m =? 2 ^ 53 then (2 ^ 52, e + 1) else (m, e))%Z.

(** The product of a Number and a positive integer, as a Number. *)
Definition mulDouble (x : Z * Z) (k : Z) : Z * Z :=
  (let '(m, e) := x in
   if 0 <=? e then nearestDouble (m * k * 2 ^ e) 1
   else nearestDouble (m * k) (2 ^ (- e)))%Z.

(** [Math.round(x)] for a positive Number: the nearest integer, a half
    going up. *)
Definition roundDouble (x : Z * Z) : Z :=
  (let '(m, e) := x in
   if 0 <=? e then m * 2 ^ e
   else (2 * m + 2 ^ (- e)) / 2 ^ (- e + 1))%Z.

Definition decimal (z : Z) : string := NilEmpty.string_of_int (Z.to_int z).

(** The number of decimal digits of a positive integer. *)
Definition digits (v : Z) : Z := Z.of_nat (String.length (decimal v)).

(** The integer whose digits [Number::toString] prints for the Number of
    mantissa [m] and exponent [e >= 1]: among the integers with the fewest
    significant digits that read back as this Number, the closest one (the
    even one of two). [k] is the number of significant digits tried; 17
    always do. *)
Fixpoint shortest (fuel : nat) (k : Z) (m e : Z) : Z :=
  (let v := m * 2 ^ e in
   match fuel with
   | O => v
   | S fuel' =>
       let p := 10 ^ (digits v - k) in
       let a := (v / p) * p in
       let b := a + p in
       let down := if m =? 2 ^ 52 then 2 ^ (e - 1) else 2 ^ e in
       let up := 2 ^ e in
       let inside c :=
         if Z.even m then (2 * v - down <=? 2 * c) && (2 * c <=? 2 * v + up)
         else (2 * v - down <? 2 * c) && (2 * c <? 2 * v + up) in
       match inside a, inside b with
       | true, true =>
           if v - a <? b - v then a
           else if b - v <? v - a then b
           else if Z.even (a / p) then a else b
       | true, false => a
       | false, true => b
       | false, false => shortest fuel' (k + 1) m e
       end
   end)%Z.

(** [c] without its trailing zeros. *)
Fixpoint stripZeros (fuel : nat) (c : Z) : Z :=
  match fuel with
  | O => c
  | S fuel' =>
      if ((c mod 10 =? 0) && negb (c =? 0))%Z then stripZeros fuel' (c / 10)%Z
      else c
  end.

(** The digits of [c] as [Number::toString] lays them out: plain up to 21
    digits, in exponent form beyond. *)
Definition printDigits (c : Z) : string :=
  let n := digits c in
  if (n <=? 21)%Z then decimal c
  else
    match decimal (stripZeros 400 c) with
    | String d EmptyString => String d ("e+" +:+ decimal (n - 1))
    | String d rest => String d ("." +:+ rest +:+ "e+" +:+ decimal (n - 1))
    | EmptyString => EmptyString
    end.

(** [x] is finite, [x] being the Number nearest to [z]. *)
Definition isFinite (z : Z) : bool :=
  (if Z.log2 (Z.abs z) <? 53 then true
   else let '(_, e) := nearestDouble (Z.abs z) 1 in e <=? 971)%Z.

Definition positiveToString (z : Z) : string :=
  (if Z.log2 z <? 53 then decimal z
   else
     let '(m, e) := nearestDouble z 1 in
     if 971 <? e then "Infinity"
     else printDigits (shortest 17 1 m e))%Z.

(** [String(x)], [x] being the Number nearest to [z]. *)
Definition numToString (z : Z) : string :=
  (if z =? 0 then "0"
   else if z <? 0 then "-" +:+ positiveToString (- z)
   else positiveToString z)%Z.

(** [String(v)], which is what a template literal and [Array.prototype.join]
    apply to a value. Inside an array, [null] and [undefined] print empty. *)
Fixpoint toString (v : jsval) : string :=
  match v with
  | VUndefined => "undefined"
  | VNull => "null"
  | VBool true => "true"
  | VBool false => "false"
  | VNum z => numToString z
  | VStr s => s
  | VArr l =>
      String.concat ","
        (List.map (fun x => match x with
                            | VUndefined | VNull => ""
                            | _ => toString x
                            end) l)
  | VMember name =>
      if String.eqb name "__proto__" then "[object Object]"
      else "function " +:+
           (if String.eqb name "constructor" then "Object" else name) +:+
           "() { [native code] }"
  end.

Definition isLower (c : ascii) : bool :=
  let n := nat_of_ascii c in (97 <=? n) && (n <=? 122).

Definition isUpper (c : ascii) : bool :=
  let n := nat_of_ascii c in (65 <=? n) && (n <=? 90).

Definition upperChar (c : ascii) : ascii :=
  if isLower c then ascii_of_nat (nat_of_ascii c - 32) else c.

Definition lowerChar (c : ascii) : ascii :=
  if isUpper c then ascii_of_nat (nat_of_ascii c + 32) else c.

Fixpoint mapChars (f : ascii -> ascii) (s : string) : string :=
  match s with
  | EmptyString => EmptyString
  | String c s' => String (f c) (mapChars f s')
  end.

(** [s.toUpperCase()] and [s.toLowerCase()] on the ASCII letters; a
    character outside ASCII, which the engine maps by its Unicode tables,
    is left as it is. *)
Definition toUpperCase : string -> string := mapChars upperChar.
Definition toLowerCase : string -> string := mapChars lowerChar.

(** [arr.join(sep)] on an array of strings. *)
Definition join (sep : string) (l : list string) : string :=
  String.concat sep l.

End Js.

Import Js.

(** ** The statement representation handed to the query compilers *)

(** One entry of [statements.where] / [statements.having]. *)
Record Predicate : Type := mkPredicate {
  p_column : string;
  p_operator : string;
  p_value : jsval;
  p_boolean : string
}.

(** One entry of [statements.join]. *)
Record Join : Type := mkJoin {
  j_type : string;
  j_table : string;
  j_first : string;
  j_operator : string;
  j_second : string
}.

(** One entry of [statements.orderBy]. *)
Record Order : Type := mkOrder {
  o_column : string;
  o_direction : string
}.

(** [QueryBuilder.statements]. [None] stands for [null]/[undefined]. *)
Record Statements : Type := mkStatements {
  st_select : option (list string);
  st_where : list Predicate;
  st_join : list Join;
  st_orderBy : list Order;
  st_limit : option jsval;
  st_offset : option jsval;
  st_groupBy : list string;
  st_having : list Predicate
}.

(** What every compile function returns: [{ sql, bindings }]. *)
Record Compiled : Type := mkCompiled {
  sql : string;
  bindings : list jsval
}.

(** A plain object (a row of an INSERT, the data of an UPDATE, a
    connection configuration): its own enumerable properties, in the order
    in which [Object.keys] and [Object.entries] list them (the integer-like
    keys first, in ascending order, then the other keys in the order of
    their creation). Its prototype is [Object.prototype]. *)
Definition jsobj : Type := list (string * jsval).

(** [Object.keys(o)] *)
Definition keys (o : jsobj) : list string := List.map fst o.

(** The value of the own property [k] of [o], if there is one. *)
Fixpoint ownProp (o : jsobj) (k : string) : option jsval :=
  match o with
  | [] => None
  | (k', v) :: o' => if String.eqb k' k then Some v else ownProp o' k
  end.

(** [o[k]]: the own property; failing that, the member of
    [Object.prototype] of this name; failing that, [undefined]. *)
Definition getProp (o : jsobj) (k : string) : jsval :=
  match ownProp o k with
  | Some v => v
  | None =>
      if existsb (String.eqb k) objectPrototypeMethods || String.eqb k "__proto__"
      then VMember k
      else VUndefined
  end.

(** The argument of [compileInsert]: one row or an array of rows, a row
    being a plain object, or [None] for [null] or [undefined]. *)
Inductive InsertData : Type :=
| OneRow (row : option jsobj)
| ManyRows (rows : list (option jsobj)).

(** [Array.isArray(data) ? data : [data]] *)
Definition rowsOf (data : InsertData) : list (option jsobj) :=
  match data with
  | OneRow row => [row]
  | ManyRows rows => rows
  end.

(** [params.push(row[column])] for the columns of one row; [None] when the
    row is [null] or [undefined] and there is a column to read: the read
    raises a TypeError. *)
Definition rowValues (columns : list string) (row : option jsobj)
  : option (list jsval) :=
  match row with
  | Some o => Some (List.map (getProp o) columns)
  | None => match columns with [] => Some [] | _ :: _ => None end
  end.

(** The same for the rows in turn. *)
Fixpoint allValues (columns : list string) (rows : list (option jsobj))
  : option (list jsval) :=
  match rows with
  | [] => Some []
  | row :: rows' =>
      match rowValues columns row, allValues columns rows' with
      | Some values, Some more => Some (values ++ more)
      | _, _ => None
      end
  end.

(** ** src/dialects/sqlite/query-compiler.js *)

Module Sqlite.

Definition warnRight : string :=
  "SQLite ne supporte pas RIGHT JOIN, utilisation de LEFT JOIN à la place".
Definition warnFull : string :=
  "SQLite ne supporte pas FULL JOIN, utilisation de LEFT JOIN à la place".

(** The [switch (type)] of the join loop: the keyword and what it sends to
    [console.warn]. *)
Definition joinKeyword (type : string) : string * list string :=
  if String.eqb type "left" then ("LEFT JOIN", [])
  else if String.eqb type "right" then ("LEFT JOIN", [warnRight])
  else if String.eqb type "full" then ("LEFT JOIN", [warnFull])
  else ("JOIN", []).

Definition joinPart (j : Join) : string :=
  fst (joinKeyword (j_type j)) +:+ " " +:+ j_table j +:+ " ON " +:+
  j_first j +:+ " " +:+ j_operator j +:+ " " +:+ j_second j.

(** [for (const join of statements.join)]: the parts pushed and the
    warnings printed, in order. *)
Fixpoint compileJoins (js : list Join) : list string * list string :=
  match js with
  | [] => ([], [])
  | j :: js' =>
      let '(ps, ws) := compileJoins js' in
      (joinPart j :: ps, snd (joinKeyword (j_type j)) ++ ws)
  end.

(** The body of [for (let i = 0; i < preds.length; i++)], from index [i] on:
    the clauses pushed to [whereClauses] / [havingClauses]. *)
Fixpoint predicateClauses (i : nat) (preds : list Predicate) : list string :=
  match preds with
  | [] => []
  | p :: preds' =>
      (if Nat.eqb i 0
       then p_column p +:+ " " +:+ p_operator p +:+ " ?"
       else p_boolean p +:+ " " +:+ p_column p +:+ " " +:+ p_operator p +:+ " ?")
      :: predicateClauses (S i) preds'
  end.

Definition orderTerm (o : Order) : string :=
  o_column o +:+ " " +:+ toUpperCase (o_direction o).

(** The [parts] array and the [params] array of [compileSelect], and the
    warnings printed on the way. *)
Definition selectParts (tableName : string) (statements : Statements)
  : list string * list jsval * list string :=
  let parts := ["SELECT"] in
  let params := [] in
  let parts :=
    match st_select statements with
    | Some (c :: cs) => parts ++ [join ", " (c :: cs)]
    | _ => parts ++ ["*"]
    end in
  let parts := parts ++ ["FROM " +:+ tableName] in
  let '(joins, warnings) := compileJoins (st_join statements) in
  let parts := parts ++ joins in
  let '(parts, params) :=
    match st_where statements with
    | [] => (parts, params)
    | ws => (parts ++ ["WHERE " +:+ join " " (predicateClauses 0 ws)],
             params ++ List.map p_value ws)
    end in
  let parts :=
    match st_groupBy statements with
    | [] => parts
    | gs => parts ++ ["GROUP BY " +:+ join ", " gs]
    end in
  let '(parts, params) :=
    match st_having statements with
    | [] => (parts, params)
    | hs => (parts ++ ["HAVING " +:+ join " " (predicateClauses 0 hs)],
             params ++ List.map p_value hs)
    end in
  let parts :=
    match st_orderBy statements with
    | [] => parts
    | os => parts ++ ["ORDER BY " +:+ join ", " (List.map orderTerm os)]
    end in
  let '(parts, params) :=
    match st_limit statements with
    | Some l =>
        let parts := parts ++ ["LIMIT ?"] in
        let params := params ++ [l] in
        match st_offset statements with
        | Some o => (parts ++ ["OFFSET ?"], params ++ [o])
        | None => (parts, params)
        end
    | None => (parts, params)
    end in
  (parts, params, warnings).

(** [compileSelect(tableName, statements, bindings)]: the returned object
    and the lines sent to [console.warn]. The third argument is unused. *)
Definition compileSelect (tableName : string) (statements : Statements)
  : result Compiled * list string :=
  let '(parts, params, warnings) := selectParts tableName statements in
  (Ok {| sql := join " " parts; bindings := params |}, warnings).

(** [compileInsert(tableName, data)] *)
Definition compileInsert (tableName : string) (data : InsertData)
  : result Compiled :=
  match rowsOf data with
  | [] => Throw "Aucune donnée à insérer"
  | None :: _ => Throw typeError
  | Some row0 :: rest =>
      let rows := Some row0 :: rest in
      let columns := keys row0 in
      let rowParams := List.map (fun _ : string => "?") columns in
      let paramPlaceholders :=
        List.map (fun _ : option jsobj => "(" +:+ join ", " rowParams +:+ ")")
                 rows in
      match allValues columns rows with
      | None => Throw typeError
      | Some params =>
          Ok {| sql := "INSERT INTO " +:+ tableName +:+ " (" +:+
                       join ", " columns +:+
                       ") VALUES " +:+ join ", " paramPlaceholders;
                bindings := params |}
      end
  end.

(** [compileUpdate(tableName, data, whereStatements, whereBindings)];
    [data = None] is a null or undefined [data]. The last argument is
    unused. *)
Definition compileUpdate (tableName : string) (data : option jsobj)
    (whereStatements : list Predicate) : result Compiled :=
  match data with
  | None | Some [] => Throw "Aucune donnée à mettre à jour"
  | Some (kv :: kvs) =>
      let data := kv :: kvs in
      let columns := keys data in
      let params := List.map (getProp data) columns in
      let setClauses := List.map (fun column => column +:+ " = ?") columns in
      let sql := "UPDATE " +:+ tableName +:+ " SET " +:+ join ", " setClauses in
      match whereStatements with
      | [] => Ok {| sql := sql; bindings := params |}
      | ws =>
          Ok {| sql := sql +:+ " WHERE " +:+ join " " (predicateClauses 0 ws);
                bindings := params ++ List.map p_value ws |}
      end
  end.

(** [compileDelete(tableName, whereStatements, whereBindings)] *)
Definition compileDelete (tableName : string)
    (whereStatements : list Predicate) : result Compiled :=
  let sql := "DELETE FROM " +:+ tableName in
  match whereStatements with
  | [] => Ok {| sql := sql; bindings := [] |}
  | ws =>
      Ok {| sql := sql +:+ " WHERE " +:+ join " " (predicateClauses 0 ws);
            bindings := List.map p_value ws |}
  end.

End Sqlite.

(** ** The PostgreSQL query compiler *)

Module Pg.

(** [`$${paramIndex}`] *)
Definition ref (paramIndex : nat) : string := "$" +:+ natToString paramIndex.

Definition joinKeyword (type : string) : string :=
  if String.eqb type "left" then "LEFT JOIN"
  else if String.eqb type "right" then "RIGHT JOIN"
  else if String.eqb type "full" then "FULL JOIN"
  else "JOIN".

Definition joinPart (j : Join) : string :=
  joinKeyword (j_type j) +:+ " " +:+ j_table j +:+ " ON " +:+
  j_first j +:+ " " +:+ j_operator j +:+ " " +:+ j_second j.

(** The predicate loop from index [i] on, [paramIndex] being the counter's
    value when iteration [i] starts; every iteration runs [paramIndex++]
    once. *)
Fixpoint predicateClauses (i paramIndex : nat) (preds : list Predicate)
  : list string :=
  match preds with
  | [] => []
  | p :: preds' =>
      (if Nat.eqb i 0
       then p_column p +:+ " " +:+ p_operator p +:+ " " +:+ ref paramIndex
       else p_boolean p +:+ " " +:+ p_column p +:+ " " +:+ p_operator p +:+
            " " +:+ ref paramIndex)
      :: predicateClauses (S i) (S paramIndex) preds'
  end.

Definition orderTerm (o : Order) : string :=
  o_column o +:+ " " +:+ toUpperCase (o_direction o).

(** The [parts] and [params] arrays of [compileSelect]. *)
Definition selectParts (tableName : string) (statements : Statements)
  : list string * list jsval :=
  let parts := ["SELECT"] in
  let paramIndex := 1 in
  let params := [] in
  let parts :=
    match st_select statements with
    | Some (c :: cs) => parts ++ [join ", " (c :: cs)]
    | _ => parts ++ ["*"]
    end in
  let parts := parts ++ ["FROM " +:+ tableName] in
  let parts := parts ++ List.map joinPart (st_join statements) in
  let '(parts, params, paramIndex) :=
    match st_where statements with
    | [] => (parts, params, paramIndex)
    | ws => (parts ++ ["WHERE " +:+ join " " (predicateClauses 0 paramIndex ws)],
             params ++ List.map p_value ws,
             paramIndex + length ws)
    end in
  let parts :=
    match st_groupBy statements with
    | [] => parts
    | gs => parts ++ ["GROUP BY " +:+ join ", " gs]
    end in
  let '(parts, params, paramIndex) :=
    match st_having statements with
    | [] => (parts, params, paramIndex)
    | hs => (parts ++ ["HAVING " +:+ join " " (predicateClauses 0 paramIndex hs)],
             params ++ List.map p_value hs,
             paramIndex + length hs)
    end in
  let parts :=
    match st_orderBy statements with
    | [] => parts
    | os => parts ++ ["ORDER BY " +:+ join ", " (List.map orderTerm os)]
    end in
  let '(parts, params, paramIndex) :=
    match st_limit statements with
    | Some l => (parts ++ ["LIMIT " +:+ ref paramIndex], params ++ [l], S paramIndex)
    | None => (parts, params, paramIndex)
    end in
  let '(parts, params) :=
    match st_offset statements with
    | Some o => (parts ++ ["OFFSET " +:+ ref paramIndex], params ++ [o])
    | None => (parts, params)
    end in
  (parts, params).

(** [compileSelect(tableName, statements, bindings)] *)
Definition compileSelect (tableName : string) (statements : Statements)
  : result Compiled :=
  let '(parts, params) := selectParts tableName statements in
  Ok {| sql := join " " parts; bindings := params |}.

(** The references of the rows of an INSERT: one parenthesised list per row,
    the counter running on from row to row. *)
Fixpoint rowReferences (paramIndex ncols : nat) (rows : list (option jsobj))
  : list string :=
  match rows with
  | [] => []
  | _ :: rows' =>
      ("(" +:+ join ", " (List.map ref (seq paramIndex ncols)) +:+ ")")
      :: rowReferences (paramIndex + ncols) ncols rows'
  end.

(** [compileInsert(tableName, data)] *)
Definition compileInsert (tableName : string) (data : InsertData)
  : result Compiled :=
  match rowsOf data with
  | [] => Throw "Aucune donnée à insérer"
  | None :: _ => Throw typeError
  | Some row0 :: rest =>
      let rows := Some row0 :: rest in
      let columns := keys row0 in
      let paramReferences := rowReferences 1 (length columns) rows in
      match allValues columns rows with
      | None => Throw typeError
      | Some params =>
          Ok {| sql := "INSERT INTO " +:+ tableName +:+ " (" +:+
                       join ", " columns +:+
                       ") VALUES " +:+ join ", " paramReferences +:+
                       " RETURNING id";
                bindings := params |}
      end
  end.

(** [compileUpdate(tableName, data, whereStatements, whereBindings)] *)
Definition compileUpdate (tableName : string) (data : option jsobj)
    (whereStatements : list Predicate) : result Compiled :=
  match data with
  | None | Some [] => Throw "Aucune donnée à mettre à jour"
  | Some (kv :: kvs) =>
      let data := kv :: kvs in
      let columns := keys data in
      let params := List.map (getProp data) columns in
      let setClauses :=
        List.map (fun '(column, k) => column +:+ " = " +:+ ref k)
                 (combine columns (seq 1 (length columns))) in
      let paramIndex := 1 + length columns in
      let sql := "UPDATE " +:+ tableName +:+ " SET " +:+ join ", " setClauses in
      match whereStatements with
      | [] => Ok {| sql := sql; bindings := params |}
      | ws =>
          Ok {| sql := sql +:+ " WHERE " +:+
                       join " " (predicateClauses 0 paramIndex ws);
                bindings := params ++ List.map p_value ws |}
      end
  end.

(** [compileDelete(tableName, whereStatements, whereBindings)] *)
Definition compileDelete (tableName : string)
    (whereStatements : list Predicate) : result Compiled :=
  let paramIndex := 1 in
  let sql := "DELETE FROM " +:+ tableName in
  match whereStatements with
  | [] => Ok {| sql := sql; bindings := [] |}
  | ws =>
      Ok {| sql := sql +:+ " WHERE " +:+
                   join " " (predicateClauses 0 paramIndex ws);
            bindings := List.map p_value ws |}
  end.

End Pg.

(** ** The MySQL schema compiler *)

(** A [ColumnBuilder]. [VUndefined] in [c_defaultValue], [c_length],
    [c_precision] or [c_scale] is a property left undefined. *)
Record Column : Type := mkColumn {
  c_name : string;
  c_type : string;
  c_nullable : bool;
  c_defaultValue : jsval;
  c_autoIncrement : bool;
  c_length : jsval;
  c_precision : jsval;
  c_scale : jsval
}.

Record ForeignKey : Type := mkForeignKey {
  fk_column : string;
  fk_referenceTable : string;
  fk_referenceColumn : string
}.

(** [TableBuilder.constraints] without the indexes, which CREATE TABLE does
    not read; [primaryKey = None] is [null]. *)
Record Constraints : Type := mkConstraints {
  primaryKey : option (list string);
  unique : list (list string);
  foreignKeys : list ForeignKey
}.

Module Mysql.

(** What [DATA_TYPES[key]] can evaluate to. *)
Inductive typeEntry : Type :=
| TypeName (s : string)      (* an own property holding a type name *)
| StringFn                   (* (length = 255) => `VARCHAR(${length})` *)
| DecimalFn                  (* (precision = 8, scale = 2) => ... *)
| InheritedFn                (* a method inherited from Object.prototype *)
| InheritedObj.              (* __proto__ : Object.prototype itself *)

(** The names every object literal inherits as functions. *)
Definition objectPrototypeMethods : list string := Js.objectPrototypeMethods.

(** The own properties of [DATA_TYPES] that hold a plain type name. *)
Definition typeNames : list (string * string) :=
  [("integer", "INT"); ("bigInteger", "BIGINT"); ("text", "TEXT");
   ("float", "FLOAT"); ("boolean", "TINYINT(1)"); ("date", "DATE");
   ("datetime", "DATETIME"); ("timestamp", "TIMESTAMP"); ("binary", "BLOB");
   ("json", "JSON"); ("uuid", "CHAR(36)")].

Fixpoint assoc (k : string) (l : list (string * string)) : option string :=
  match l with
  | [] => None
  | (k', v) :: l' => if String.eqb k' k then Some v else assoc k l'
  end.

(** [key] is one of the own properties of [DATA_TYPES]: a logical type
    that the compiler knows. *)
Definition isOwnType (key : string) : bool :=
  String.eqb key "string" || String.eqb key "decimal" ||
  match assoc key typeNames with Some _ => true | None => false end.

(** [DATA_TYPES[key]]; [None] is [undefined]. *)
Definition DATA_TYPES (key : string) : option typeEntry :=
  if String.eqb key "string" then Some StringFn
  else if String.eqb key "decimal" then Some DecimalFn
  else match assoc key typeNames with
       | Some s => Some (TypeName s)
       | None =>
           if existsb (String.eqb key) objectPrototypeMethods then Some InheritedFn
           else if String.eqb key "__proto__" then Some InheritedObj
           else None
       end.

(** A default parameter: the default replaces [undefined] only. *)
Definition orDefault (v : jsval) (d : Z) : jsval :=
  match v with VUndefined => VNum d | _ => v end.

Definition stringType (length : jsval) : string :=
  "VARCHAR(" +:+ toString (orDefault length 255) +:+ ")".

Definition decimalType (precision scale : jsval) : string :=
  "DECIMAL(" +:+ toString (orDefault precision 8) +:+ ", " +:+
  toString (orDefault scale 2) +:+ ")".

(** [compileColumn(column)] *)
Definition compileColumn (column : Column) : string :=
  let parts := [c_name column] in
  let parts :=
    match DATA_TYPES (c_type column) with
    | Some (StringFn | DecimalFn | InheritedFn) =>
        if String.eqb (c_type column) "string"
        then parts ++ [stringType (c_length column)]
        else if String.eqb (c_type column) "decimal"
        then parts ++ [decimalType (c_precision column) (c_scale column)]
        else parts
    | Some (TypeName s) => parts ++ [s]
    | Some InheritedObj => parts ++ ["[object Object]"]
    | None => parts ++ ["VARCHAR(255)"]
    end in
  let parts := if c_autoIncrement column then parts ++ ["AUTO_INCREMENT"] else parts in
  let parts := if c_nullable column then parts else parts ++ ["NOT NULL"] in
  let parts :=
    match c_defaultValue column with
    | VUndefined => parts
    | VStr s => parts ++ ["DEFAULT '" +:+ s +:+ "'"]
    | VNull => parts ++ ["DEFAULT NULL"]
    | v => parts ++ ["DEFAULT " +:+ toString v]
    end in
  join " " parts.

(** The [unique] loop from index [i] on. *)
Fixpoint uniqueDefinitions (tableName : string) (i : nat)
    (groups : list (list string)) : list string :=
  match groups with
  | [] => []
  | uniqueColumns :: groups' =>
      ("UNIQUE KEY `" +:+ tableName +:+ "_unique_" +:+ natToString i +:+ "` (" +:+
       join ", " uniqueColumns +:+ ")")
      :: uniqueDefinitions tableName (S i) groups'
  end.

(** The [foreignKeys] loop from index [i] on. *)
Fixpoint foreignKeyDefinitions (tableName : string) (i : nat)
    (fks : list ForeignKey) : list string :=
  match fks with
  | [] => []
  | fk :: fks' =>
      ("CONSTRAINT `" +:+ tableName +:+ "_fk_" +:+ natToString i +:+
       "` FOREIGN KEY (" +:+ fk_column fk +:+ ") REFERENCES " +:+
       fk_referenceTable fk +:+ "(" +:+ fk_referenceColumn fk +:+
       ") ON DELETE CASCADE")
      :: foreignKeyDefinitions tableName (S i) fks'
  end.

(** [compileCreateTable(tableName, columns, constraints)] *)
Definition compileCreateTable (tableName : string) (columns : list Column)
    (constraints : Constraints) : result Compiled :=
  let columnDefinitions := List.map compileColumn columns in
  let constraintDefinitions :=
    match primaryKey constraints with
    | Some (c :: cs) => ["PRIMARY KEY (" +:+ join ", " (c :: cs) +:+ ")"]
    | _ => []
    end in
  let constraintDefinitions :=
    constraintDefinitions ++ uniqueDefinitions tableName 0 (unique constraints) in
  let constraintDefinitions :=
    constraintDefinitions ++
    foreignKeyDefinitions tableName 0 (foreignKeys constraints) in
  let allDefinitions := columnDefinitions ++ constraintDefinitions in
  Ok {| sql := "CREATE TABLE " +:+ tableName +:+ " (" +:+
               join ", " allDefinitions +:+
               ") ENGINE=InnoDB DEFAULT CHARSET=utf8mb4 COLLATE=utf8mb4_unicode_ci";
        bindings := [] |}.

End Mysql.

(** ** The query cache: fingerprint, store, index and extractor *)

(** *** MD5 (RFC 1321), as [crypto.createHash('md5')] computes it *)

Module Md5.

Local Open Scope Z_scope.

Definition mask32 (x : Z) : Z := Z.land x 0xffffffff.

Definition add32 (x y : Z) : Z := mask32 (x + y).

Definition not32 (x : Z) : Z := Z.lxor x 0xffffffff.

Definition rotl32 (x c : Z) : Z :=
  mask32 (Z.lor (Z.shiftl x c) (Z.shiftr x (32 - c))).

(** The per-round shift amounts. *)
Definition shifts : list Z :=
  [7; 12; 17; 22; 7; 12; 17; 22; 7; 12; 17; 22; 7; 12; 17; 22;
   5; 9; 14; 20; 5; 9; 14; 20; 5; 9; 14; 20; 5; 9; 14; 20;
   4; 11; 16; 23; 4; 11; 16; 23; 4; 11; 16; 23; 4; 11; 16; 23;
   6; 10; 15; 21; 6; 10; 15; 21; 6; 10; 15; 21; 6; 10; 15; 21].

(** [floor(2^32 * abs(sin(i + 1)))] for [i = 0 .. 63]. *)
Definition sines : list Z :=
  [0xd76aa478; 0xe8c7b756; 0x242070db; 0xc1bdceee; 0xf57c0faf; 0x4787c62a; 0xa8304613; 0xfd469501;
   0x698098d8; 0x8b44f7af; 0xffff5bb1; 0x895cd7be; 0x6b901122; 0xfd987193; 0xa679438e; 0x49b40821;
   0xf61e2562; 0xc040b340; 0x265e5a51; 0xe9b6c7aa; 0xd62f105d; 0x02441453; 0xd8a1e681; 0xe7d3fbc8;
   0x21e1cde6; 0xc33707d6; 0xf4d50d87; 0x455a14ed; 0xa9e3e905; 0xfcefa3f8; 0x676f02d9; 0x8d2a4c8a;
   0xfffa3942; 0x8771f681; 0x6d9d6122; 0xfde5380c; 0xa4beea44; 0x4bdecfa9; 0xf6bb4b60; 0xbebfbc70;
   0x289b7ec6; 0xeaa127fa; 0xd4ef3085; 0x04881d05; 0xd9d4d039; 0xe6db99e5; 0x1fa27cf8; 0xc4ac5665;
   0xf4292244; 0x432aff97; 0xab9423a7; 0xfc93a039; 0x655b59c3; 0x8f0ccc92; 0xffeff47d; 0x85845dd1;
   0x6fa87e4f; 0xfe2ce6e0; 0xa3014314; 0x4e0811a1; 0xf7537e82; 0xbd3af235; 0x2ad7d2bb; 0xeb86d391].

(** The four chaining words. *)
Record state : Type := mkState { sA : Z; sB : Z; sC : Z; sD : Z }.

Definition initial : state :=
  {| sA := 0x67452301; sB := 0xefcdab89; sC := 0x98badcfe; sD := 0x10325476 |}.

(** Round [i] on the 16 words [m] of a block. *)
Definition round (m : list Z) (st : state) (i : nat) : state :=
  let '(mkState a b c d) := st in
  let iz := Z.of_nat i in
  let '(f, g) :=
    if iz <? 16 then (Z.lor (Z.land b c) (Z.land (not32 b) d), iz)
    else if iz <? 32 then (Z.lor (Z.land d b) (Z.land (not32 d) c), (5 * iz + 1) mod 16)
    else if iz <? 48 then (Z.lxor b (Z.lxor c d), (3 * iz + 5) mod 16)
    else (Z.lxor c (Z.lor b (not32 d)), (7 * iz) mod 16) in
  let f := add32 (add32 (add32 f a) (nth i sines 0)) (nth (Z.to_nat g) m 0) in
  {| sA := d; sB := add32 b (rotl32 f (nth i shifts 0)); sC := b; sD := c |}.

(** Little-endian 32-bit words of a list of bytes. *)
Fixpoint words (bytes : list Z) : list Z :=
  match bytes with
  | b0 :: b1 :: b2 :: b3 :: rest =>
      (b0 + Z.shiftl b1 8 + Z.shiftl b2 16 + Z.shiftl b3 24) :: words rest
  | _ => []
  end.

(** One 64-byte block folded into the chaining state. *)
Definition block (st : state) (bytes : list Z) : state :=
  let st' := fold_left (round (words bytes)) (seq 0 64) st in
  {| sA := add32 (sA st) (sA st'); sB := add32 (sB st) (sB st');
     sC := add32 (sC st) (sC st'); sD := add32 (sD st) (sD st') |}.

(** The blocks of a padded message, consumed byte by byte: [cur] holds the
    bytes of the block being filled, most recent first. *)
Fixpoint blocks (st : state) (cur : list Z) (bytes : list Z) : state :=
  match bytes with
  | [] => st
  | b :: rest =>
      let cur := b :: cur in
      if (length cur =? 64)%nat then blocks (block st (rev cur)) [] rest
      else blocks st cur rest
  end.

Definition le_bytes (n : nat) (x : Z) : list Z :=
  List.map (fun k => Z.land (Z.shiftr x (8 * Z.of_nat k)) 0xff) (seq 0 n).

(** The message, a 1 bit, zeros up to 56 modulo 64, and the bit length. *)
Definition pad (msg : list Z) : list Z :=
  let len := Z.of_nat (length msg) in
  let zeros := Z.to_nat ((55 - len) mod 64) in
  msg ++ [0x80] ++ repeat 0 zeros ++ le_bytes 8 (8 * len).

Definition hexDigit (x : Z) : ascii :=
  if x <? 10 then ascii_of_nat (48 + Z.to_nat x) else ascii_of_nat (87 + Z.to_nat x).

Fixpoint hexBytes (bytes : list Z) : string :=
  match bytes with
  | [] => EmptyString
  | b :: rest => String (hexDigit (Z.shiftr b 4)) (String (hexDigit (Z.land b 15)) (hexBytes rest))
  end.

Fixpoint bytesOf (s : string) : list Z :=
  match s with
  | EmptyString => []
  | String c s' => Z.of_nat (nat_of_ascii c) :: bytesOf s'
  end.

(** [crypto.createHash('md5').update(data).digest('hex')] *)
Definition md5 (data : string) : string :=
  let st := blocks initial [] (pad (bytesOf data)) in
  hexBytes (le_bytes 4 (sA st) ++ le_bytes 4 (sB st) ++
            le_bytes 4 (sC st) ++ le_bytes 4 (sD st)).

End Md5.

(** *** JSON.stringify on the fingerprint's input *)

Module Json.

Definition dquote : ascii := ascii_of_nat 34.
Definition backslash : ascii := ascii_of_nat 92.

Definition hexDigit (n : nat) : ascii :=
  if n <? 10 then ascii_of_nat (48 + n) else ascii_of_nat (87 + n).

(** The escape of one character inside a JSON string. *)
Definition quoteChar (c : ascii) : string :=
  let n := nat_of_ascii c in
  if n =? 34 then String backslash (String dquote "")
  else if n =? 92 then String backslash (String backslash "")
  else if n =? 8 then String backslash "b"
  else if n =? 9 then String backslash "t"
  else if n =? 10 then String backslash "n"
  else if n =? 12 then String backslash "f"
  else if n =? 13 then String backslash "r"
  else if n <? 32
  then String backslash
         ("u00" +:+ String (hexDigit (n / 16)) (String (hexDigit (n mod 16)) ""))
  else String c "".

Fixpoint quoteChars (s : string) : string :=
  match s with
  | EmptyString => EmptyString
  | String c s' => quoteChar c +:+ quoteChars s'
  end.

(** [JSON.stringify(s)] for a string [s]. *)
Definition quote (s : string) : string :=
  String dquote (quoteChars s +:+ String dquote "").

(** [JSON.stringify] of an array element: [undefined], a function and a
    Number that is not finite print as [null], [Object.prototype], which
    has no enumerable property, as an empty object. *)
Fixpoint stringifyElement (v : jsval) : string :=
  match v with
  | VUndefined | VNull => "null"
  | VBool true => "true"
  | VBool false => "false"
  | VNum z => if isFinite z then numToString z else "null"
  | VStr s => quote s
  | VArr l => "[" +:+ join "," (List.map stringifyElement l) +:+ "]"
  | VMember name => if String.eqb name "__proto__" then "{}" else "null"
  end.

(** [JSON.stringify({ sql, bindings, dialect })] *)
Definition stringifyKey (sql : string) (bindings : list jsval) (dialect : string)
  : string :=
  "{" +:+ quote "sql" +:+ ":" +:+ quote sql +:+ "," +:+
  quote "bindings" +:+ ":" +:+ stringifyElement (VArr bindings) +:+ "," +:+
  quote "dialect" +:+ ":" +:+ quote dialect +:+ "}".

End Json.

(** *** The LRU store *)

(** The primary store is an [LRUCache] of the lru-cache package, which is
    not code of this repository. The model keeps what the query cache
    observes of it: the entries in recency order (most recent first), the
    capacity [max] (0: no bound on the number of entries), eviction of the
    least recently used entry when a new key arrives at capacity, and
    [delete] reporting whether the key was present. *)
Module Lru.

Definition t : Type := list (string * jsval).

Fixpoint find (key : string) (c : t) : option jsval :=
  match c with
  | [] => None
  | (k, v) :: c' => if String.eqb k key then Some v else find key c'
  end.

Fixpoint remove (key : string) (c : t) : t :=
  match c with
  | [] => []
  | (k, v) :: c' => if String.eqb k key then remove key c' else (k, v) :: remove key c'
  end.

Definition has (key : string) (c : t) : bool :=
  match find key c with Some _ => true | None => false end.

(** [cache.get(key)]: the value, or [undefined], and the entry made the most
    recent. *)
Definition get (key : string) (c : t) : jsval * t :=
  match find key c with
  | Some v => (v, (key, v) :: remove key c)
  | None => (VUndefined, c)
  end.

(** [cache.set(key, value)] *)
Definition set (max : nat) (key : string) (value : jsval) (c : t) : t :=
  if has key c then (key, value) :: remove key c
  else if (0 <? max) && (max <=? length c) then (key, value) :: removelast c
  else (key, value) :: c.

(** [cache.delete(key)] *)
Definition delete (key : string) (c : t) : bool * t :=
  (has key c, remove key c).

Definition size (c : t) : nat := length c.

(** The keys of the store are pairwise distinct. *)
Definition distinctKeys (c : t) : Prop := List.NoDup (List.map fst c).

End Lru.

(** *** The QueryCache class *)

Module Cache.

(** [generateCacheKey(sql, bindings, dialect)] *)
Definition generateCacheKey (sql : string) (bindings : list jsval)
    (dialect : string) : string :=
  Md5.md5 (Json.stringifyKey sql bindings dialect).

Record Stats : Type := mkStats {
  hits : nat;
  misses : nat;
  sets : nat;
  invalidations : nat
}.

Definition zeroStats : Stats :=
  {| hits := 0; misses := 0; sets := 0; invalidations := 0 |}.

(** The fields of a [QueryCache]: [options.max], the LRU store, the
    counters and the table index. *)
Record QueryCache : Type := mkQueryCache {
  optMax : nat;
  cache : Lru.t;
  stats : Stats;
  tableMap : gmap string (gset string)
}.

(** [new QueryCache({ max })] *)
Definition create (max : nat) : QueryCache :=
  {| optMax := max; cache := []; stats := zeroStats; tableMap := ∅ |}.

(** [get(sql, bindings, dialect)] *)
Definition get (sql : string) (bindings : list jsval) (dialect : string)
    (qc : QueryCache) : jsval * QueryCache :=
  let key := generateCacheKey sql bindings dialect in
  let '(value, c) := Lru.get key (cache qc) in
  match value with
  | VUndefined =>
      (VNull,
       {| optMax := optMax qc; cache := c;
          stats := {| hits := hits (stats qc); misses := S (misses (stats qc));
                      sets := sets (stats qc);
                      invalidations := invalidations (stats qc) |};
          tableMap := tableMap qc |})
  | _ =>
      (value,
       {| optMax := optMax qc; cache := c;
          stats := {| hits := S (hits (stats qc)); misses := misses (stats qc);
                      sets := sets (stats qc);
                      invalidations := invalidations (stats qc) |};
          tableMap := tableMap qc |})
  end.

(** The body of [for (const table of tables)] in [set]. *)
Definition register (key : string) (table : string)
    (tm : gmap string (gset string)) : gmap string (gset string) :=
  <[table := default ∅ (tm !! table) ∪ {[key]}]> tm.

(** [set(sql, bindings, value, dialect, tables)] *)
Definition set (sql : string) (bindings : list jsval) (value : jsval)
    (dialect : string) (tables : gset string) (qc : QueryCache)
  : bool * QueryCache :=
  if negb (truthy value) then (false, qc)
  else
    let key := generateCacheKey sql bindings dialect in
    let tm := set_fold (register key) (tableMap qc) tables in
    (true,
     {| optMax := optMax qc;
        cache := Lru.set (optMax qc) key value (cache qc);
        stats := {| hits := hits (stats qc); misses := misses (stats qc);
                    sets := S (sets (stats qc));
                    invalidations := invalidations (stats qc) |};
        tableMap := tm |}).

(** The argument of [invalidateByTables]: a falsy value, one table name or
    an array of names. *)
Inductive tablesArg : Type :=
| Falsy
| Single (table : string)
| Array (tables : list string).

(** [for (const key of cacheKeys) if (this.cache.delete(key)) count++] *)
Fixpoint deleteKeys (keys : list string) (c : Lru.t) : nat * Lru.t :=
  match keys with
  | [] => (0, c)
  | key :: keys' =>
      let '(deleted, c) := Lru.delete key c in
      let '(n, c) := deleteKeys keys' c in
      ((if deleted then 1 else 0) + n, c)
  end.

(** [for (const table of tableList)]: the count, the store and the index. *)
Fixpoint invalidateLoop (tableList : list string) (c : Lru.t)
    (tm : gmap string (gset string))
  : nat * Lru.t * gmap string (gset string) :=
  match tableList with
  | [] => (0, c, tm)
  | table :: rest =>
      match tm !! table with
      | Some cacheKeys =>
          let '(n, c) := deleteKeys (elements cacheKeys) c in
          let '(m, c, tm) := invalidateLoop rest c (delete table tm) in
          (n + m, c, tm)
      | None => invalidateLoop rest c tm
      end
  end.

(** [invalidateByTables(tables)] *)
Definition invalidateByTables (tables : tablesArg) (qc : QueryCache)
  : nat * QueryCache :=
  let run tableList :=
    let '(invalidatedCount, c, tm) :=
      invalidateLoop tableList (cache qc) (tableMap qc) in
    (invalidatedCount,
     {| optMax := optMax qc; cache := c;
        stats := {| hits := hits (stats qc); misses := misses (stats qc);
                    sets := sets (stats qc);
                    invalidations := invalidations (stats qc) + invalidatedCount |};
        tableMap := tm |}) in
  match tables with
  | Falsy => (0, qc)
  | Single table => if String.eqb table "" then (0, qc) else run [table]
  | Array tableList => run tableList
  end.

(** [clear()] *)
Definition clear (qc : QueryCache) : QueryCache :=
  {| optMax := optMax qc; cache := []; stats := zeroStats; tableMap := ∅ |}.

(** The object [getStats()] returns. [hitRate] is kept in hundredths of a
    percent: the source holds [Math.round(hitRate * 100) / 100]. *)
Record StatsReport : Type := mkStatsReport {
  r_hits : nat;
  r_misses : nat;
  r_sets : nat;
  r_invalidations : nat;
  r_total : nat;
  r_hitRate : nat;
  r_size : nat;
  r_maxSize : nat
}.

(** [Math.round((hits / total) * 100 * 100)] in the arithmetic of the
    Numbers: the quotient and each product are rounded to the nearest
    Number before the result is rounded to an integer. *)
Definition hitRateHundredths (hits total : nat) : nat :=
  if 0 <? total then
    if hits =? 0 then 0
    else Z.to_nat
           (roundDouble
              (mulDouble
                 (mulDouble (nearestDouble (Z.of_nat hits) (Z.of_nat total))
                            100)
                 100))
  else 0.

(** [getStats()] *)
Definition getStats (qc : QueryCache) : StatsReport :=
  let total := hits (stats qc) + misses (stats qc) in
  {| r_hits := hits (stats qc); r_misses := misses (stats qc);
     r_sets := sets (stats qc); r_invalidations := invalidations (stats qc);
     r_total := total;
     r_hitRate := hitRateHundredths (hits (stats qc)) total;
     r_size := Lru.size (cache qc);
     r_maxSize := optMax qc |}.

(** The store dropping the entry of [key] on its own: its time to live ran
    out. (Eviction under capacity pressure happens inside [Lru.set].) *)
Definition expire (key : string) (qc : QueryCache) : QueryCache :=
  {| optMax := optMax qc; cache := Lru.remove key (cache qc);
     stats := stats qc; tableMap := tableMap qc |}.

(** The table index lists [key] under [table]. *)
Definition key_in_index (table key : string) (qc : QueryCache) : Prop :=
  exists cacheKeys, tableMap qc !! table = Some cacheKeys /\ key ∈ cacheKeys.

(** [key] is registered, in the index [tm], under one of the tables of
    [tableList]. *)
Definition registeredUnder (tm : gmap string (gset string))
    (tableList : list string) (key : string) : Prop :=
  exists table cacheKeys,
    table ∈ tableList /\ tm !! table = Some cacheKeys /\ key ∈ cacheKeys.

(** The store holds an entry for [key]. *)
Definition key_in_store (key : string) (qc : QueryCache) : Prop :=
  Lru.find key (cache qc) <> None.

(** *** The table extractor *)

(** The white space of one byte: U+0009 to U+000D and the space. *)
Definition isSpace (c : ascii) : bool :=
  let n := nat_of_ascii c in ((9 <=? n) && (n <=? 13)) || (n =? 32).

(** The white space of two bytes: U+00A0. *)
Definition isSpace2 (c1 c2 : ascii) : bool :=
  (nat_of_ascii c1 =? 194) && (nat_of_ascii c2 =? 160).

(** The white space of three bytes: U+1680, U+2000 to U+200A, U+2028,
    U+2029, U+202F, U+205F, U+3000 and U+FEFF. *)
Definition isSpace3 (c1 c2 c3 : ascii) : bool :=
  let n1 := nat_of_ascii c1 in
  let n2 := nat_of_ascii c2 in
  let n3 := nat_of_ascii c3 in
  ((n1 =? 225) && (n2 =? 154) && (n3 =? 128)) ||
  ((n1 =? 226) && (n2 =? 128) &&
   (((128 <=? n3) && (n3 <=? 138)) || (n3 =? 168) || (n3 =? 169) || (n3 =? 175))) ||
  ((n1 =? 226) && (n2 =? 129) && (n3 =? 159)) ||
  ((n1 =? 227) && (n2 =? 128) && (n3 =? 128)) ||
  ((n1 =? 239) && (n2 =? 187) && (n3 =? 191)).

(** The number of bytes of the white-space character that [s] starts with,
    0 when it starts with none: the class [\s] of a regular expression,
    which is also what [trim] removes. *)
Definition spaceWidth (s : string) : nat :=
  match s with
  | String c1 s1 =>
      if isSpace c1 then 1
      else
        match s1 with
        | String c2 s2 =>
            if isSpace2 c1 c2 then 2
            else
              match s2 with
              | String c3 _ => if isSpace3 c1 c2 c3 then 3 else 0
              | EmptyString => 0
              end
        | EmptyString => 0
        end
  | EmptyString => 0
  end.

(** The number of bytes of the white space that [s] starts with: what a
    greedy [\s*] consumes. [skip] counts the bytes of [s] that belong to
    the white-space character being read. *)
Fixpoint spaceRun (skip : nat) (s : string) : nat :=
  match s with
  | EmptyString => 0
  | String _ s' =>
      match skip with
      | S k => S (spaceRun k s')
      | O =>
          match spaceWidth s with
          | S k => S (spaceRun k s')
          | O => 0
          end
      end
  end.

(** [s] without its first [n] bytes. *)
Fixpoint dropBytes (n : nat) (s : string) : string :=
  match n, s with
  | S k, String _ s' => dropBytes k s'
  | _, _ => s
  end.

(** [\w] *)
Definition isWord (c : ascii) : bool :=
  let n := nat_of_ascii c in
  isUpper c || isLower c || ((48 <=? n) && (n <=? 57)) || (n =? 95).

(** [[\w\.]] *)
Definition isIdent (c : ascii) : bool :=
  isWord c || (nat_of_ascii c =? 46).

(** The longest prefix of [s] whose characters satisfy [p], and the rest:
    what a greedy [p+] consumes. *)
Fixpoint span (p : ascii -> bool) (s : string) : string * string :=
  match s with
  | EmptyString => (EmptyString, EmptyString)
  | String c s' =>
      if p c then let '(a, b) := span p s' in (String c a, b)
      else (EmptyString, s)
  end.

(** [s] starts with the upper-case word [kw], letter case ignored (the [i]
    flag): the rest of [s]. *)
Fixpoint afterKeyword (kw s : string) : option string :=
  match kw with
  | EmptyString => Some s
  | String k kw' =>
      match s with
      | String c s' =>
          if Ascii.eqb (upperChar c) k then afterKeyword kw' s' else None
      | EmptyString => None
      end
  end.

(** A match of [kw\s+([\w\.]+)] at the start of [s]: the captured group and
    the length of the whole match. The two classes are disjoint, so the
    greedy reading is the only one. *)
Definition matchAt (kw s : string) : option (string * nat) :=
  match afterKeyword kw s with
  | None => None
  | Some r =>
      let ws := spaceRun 0 r in
      let '(name, _) := span isIdent (dropBytes ws r) in
      if (ws =? 0) || String.eqb name "" then None
      else Some (name, String.length kw + ws + String.length name)
  end.

(** [while ((match = regex.exec(sql)) !== null)] with the [g] flag: the
    captured groups of the successive matches. [skip] counts the bytes
    of [s] that the previous match still covers. *)
Fixpoint execAll (kw : string) (skip : nat) (s : string) : list string :=
  match s with
  | EmptyString => []
  | String _ s' =>
      match skip with
      | S k => execAll kw k s'
      | O =>
          match matchAt kw s with
          | Some (name, len) => name :: execAll kw (len - 1) s'
          | None => execAll kw 0 s'
          end
      end
  end.

(** The class of the first [replace]: backtick, double quote, single quote
    and the two square brackets. *)
Definition isQuoting (c : ascii) : bool :=
  let n := nat_of_ascii c in
  (n =? 96) || (n =? 34) || (n =? 39) || (n =? 91) || (n =? 93).

(** [s.replace(re, '')], [re] being that class with the [g] flag. *)
Fixpoint stripQuoting (s : string) : string :=
  match s with
  | EmptyString => EmptyString
  | String c s' => if isQuoting c then stripQuoting s' else String c (stripQuoting s')
  end.

(** [/\s+AS\s+/i] matches at the start of [s]. *)
Definition asAt (s : string) : bool :=
  let ws := spaceRun 0 s in
  negb (ws =? 0) &&
  match afterKeyword "AS" (dropBytes ws s) with
  | Some r => negb (spaceWidth r =? 0)
  | None => false
  end.

(** [s.split(/\s+AS\s+/i)[0]] *)
Fixpoint beforeAs (s : string) : string :=
  match s with
  | EmptyString => EmptyString
  | String c s' => if asAt s then EmptyString else String c (beforeAs s')
  end.

(** [s.trimStart()] *)
Definition trimStart (s : string) : string := dropBytes (spaceRun 0 s) s.

(** [s.trimEnd()]: the text stops where what is left is white space
    only. *)
Fixpoint trimEnd (s : string) : string :=
  match s with
  | EmptyString => EmptyString
  | String c s' =>
      if spaceRun 0 s =? String.length s then EmptyString
      else String c (trimEnd s')
  end.

(** [s.trim()] *)
Definition trim (s : string) : string := trimEnd (trimStart s).

(** [s.includes('.')] *)
Fixpoint includesDot (s : string) : bool :=
  match s with
  | EmptyString => false
  | String c s' => (nat_of_ascii c =? 46) || includesDot s'
  end.

(** [s.split('.')]: [cur] is the segment being read, reversed. *)
Fixpoint splitDot (cur : string) (s : string) : list string :=
  match s with
  | EmptyString => [String.rev cur]
  | String c s' =>
      if nat_of_ascii c =? 46 then String.rev cur :: splitDot EmptyString s'
      else splitDot (String c cur) s'
  end.

(** The body of the [while] loop: what one match adds to [tables]. *)
Definition tableOfMatch (captured : string) (tables : gset string) : gset string :=
  let tableName := stripQuoting captured in
  let tableName := trim (beforeAs tableName) in
  let tableName :=
    if includesDot tableName
    then nth 1 (splitDot EmptyString tableName) EmptyString
    else tableName in
  if String.eqb tableName "" then tables
  else tables ∪ {[toLowerCase tableName]}.

Definition tableKeywords : list string :=
  ["FROM"; "JOIN"; "INTO"; "UPDATE"; "TABLE"].

(** [QueryCache.extractTablesFromQuery(sql)] *)
Definition extractTablesFromQuery (sql : string) : gset string :=
  fold_left
    (fun tables kw => fold_left (fun tables m => tableOfMatch m tables)
                                (execAll kw 0 sql) tables)
    tableKeywords ∅.

(** *** Sequences of operations on one cache *)

Inductive op : Type :=
| OpGet (sql : string) (bindings : list jsval) (dialect : string)
| OpSet (sql : string) (bindings : list jsval) (value : jsval)
        (dialect : string) (tables : gset string)
| OpInvalidate (tables : tablesArg)
| OpExpire (key : string)
| OpClear.

Definition step (qc : QueryCache) (o : op) : QueryCache :=
  match o with
  | OpGet sql bindings dialect => snd (get sql bindings dialect qc)
  | OpSet sql bindings value dialect tables =>
      snd (set sql bindings value dialect tables qc)
  | OpInvalidate tables => snd (invalidateByTables tables qc)
  | OpExpire key => expire key qc
  | OpClear => clear qc
  end.

Definition run (ops : list op) (qc : QueryCache) : QueryCache :=
  fold_left step ops qc.

(** The table set a fingerprint was last put with: what an effective [set]
    records. *)
Definition recordPut (last : gmap string (gset string)) (o : op)
  : gmap string (gset string) :=
  match o with
  | OpSet sql bindings value dialect tables =>
      if truthy value
      then <[generateCacheKey sql bindings dialect := tables]> last
      else last
  | _ => last
  end.

Definition lastPut (ops : list op) : gmap string (gset string) :=
  fold_left recordPut ops ∅.

(** What holds between a cache and the record of the last puts: a stored
    fingerprint is listed under every table it was last put with. *)
Definition putsIndexed (qc : QueryCache) (last : gmap string (gset string))
  : Prop :=
  forall key tables table,
    key_in_store key qc -> last !! key = Some tables -> table ∈ tables ->
    key_in_index table key qc.

End Cache.

(** ** Reading the placeholders off a compiled text *)

Module Text.

(** The number of occurrences of the character [c] in [s]. *)
Fixpoint countChar (c : ascii) (s : string) : nat :=
  match s with
  | EmptyString => 0
  | String x s' => (if Ascii.eqb x c then 1 else 0) + countChar c s'
  end.

(** The occurrences of [c] in the strings of [l], added up. *)
Definition total (c : ascii) (l : list string) : nat :=
  list_sum (List.map (countChar c) l).

(** The two characters a placeholder starts with. *)
Definition placeholderChar (c : ascii) : Prop := c = "?"%char \/ c = "$"%char.

(** [s] does not contain the character [c]. *)
Definition freeOf (c : ascii) (s : string) : Prop := countChar c s = 0.

(** The strings of a predicate, of a join and of an ORDER BY term are free
    of [c]. *)
Definition predicateFree (c : ascii) (p : Predicate) : Prop :=
  freeOf c (p_column p) /\ freeOf c (p_operator p) /\ freeOf c (p_boolean p).

Definition joinFree (c : ascii) (j : Join) : Prop :=
  freeOf c (j_table j) /\ freeOf c (j_first j) /\ freeOf c (j_operator j) /\
  freeOf c (j_second j).

Definition orderFree (c : ascii) (o : Order) : Prop :=
  freeOf c (o_column o) /\ freeOf c (o_direction o).

(** The [?] placeholders of a text, counted. *)
Definition questionMarks (s : string) : nat := countChar "?" s.

Definition isDigit (c : ascii) : bool :=
  let n := nat_of_ascii c in (48 <=? n) && (n <=? 57).

(** The number a run of decimal digits denotes. *)
Definition digitsValue (ds : string) : nat :=
  match NilEmpty.uint_of_string ds with
  | Some u => Nat.of_uint u
  | None => 0
  end.

(** The [$n] parameter references of a text, in the order they occur: each
    [$] followed by a (longest) run of digits. *)
Fixpoint references (s : string) : list nat :=
  match s with
  | EmptyString => []
  | String c s' =>
      if Ascii.eqb c "$"
      then match fst (Cache.span isDigit s') with
           | EmptyString => references s'
           | ds => digitsValue ds :: references s'
           end
      else references s'
  end.

(** The references of the strings of [l], in order. *)
Definition referencesAll (l : list string) : list nat :=
  List.concat (List.map references l).

(** [s] is empty or starts with a character that is no digit: appended to a
    text, it ends whatever run of digits the text ends with. *)
Definition endsDigits (s : string) : Prop :=
  match s with
  | EmptyString => True
  | String x _ => isDigit x = false
  end.

Fixpoint allDigits (s : string) : Prop :=
  match s with
  | EmptyString => True
  | String x s' => isDigit x = true /\ allDigits s'
  end.

(** Every character of [s] satisfies [p]. *)
Fixpoint allChars (p : ascii -> bool) (s : string) : Prop :=
  match s with
  | EmptyString => True
  | String x s' => p x = true /\ allChars p s'
  end.

(** A word character that is no upper-case letter. *)
Definition isLowerWord (c : ascii) : bool := Cache.isWord c && negb (isUpper c).

(** The strings of a SELECT that reach the compiled text. *)
Definition identifiers (tableName : string) (st : Statements) : list string :=
  tableName
  :: match st_select st with Some cs => cs | None => [] end
  ++ List.concat (List.map (fun j => [j_table j; j_first j; j_operator j; j_second j])
                           (st_join st))
  ++ List.concat (List.map (fun p => [p_column p; p_operator p; p_boolean p])
                           (st_where st))
  ++ st_groupBy st
  ++ List.concat (List.map (fun p => [p_column p; p_operator p; p_boolean p])
                           (st_having st))
  ++ List.concat (List.map (fun o => [o_column o; o_direction o]) (st_orderBy st)).

(** The parts a SELECT is joined from, clause by clause; the compilers'
    [parts] arrays are concatenations of these. *)
Definition selectSeg (st : Statements) : list string :=
  match st_select st with
  | Some (c :: cs) => [join ", " (c :: cs)]
  | _ => ["*"]
  end.

Definition predicateSeg (kw : string) (clauses : list string) : list string :=
  match clauses with
  | [] => []
  | _ => [kw +:+ join " " clauses]
  end.

Definition groupSeg (st : Statements) : list string :=
  match st_groupBy st with
  | [] => []
  | gs => ["GROUP BY " +:+ join ", " gs]
  end.

Definition orderSeg (st : Statements) : list string :=
  match st_orderBy st with
  | [] => []
  | os => ["ORDER BY " +:+ join ", " (List.map Sqlite.orderTerm os)]
  end.

(** LIMIT and OFFSET as the SQLite compiler renders them. *)
Definition sqliteLimitSeg (st : Statements) : list string :=
  match st_limit st, st_offset st with
  | Some _, Some _ => ["LIMIT ?"; "OFFSET ?"]
  | Some _, None => ["LIMIT ?"]
  | None, _ => []
  end.

Definition sqliteLimitValues (st : Statements) : list jsval :=
  match st_limit st, st_offset st with
  | Some l, Some o => [l; o]
  | Some l, None => [l]
  | None, _ => []
  end.

(** LIMIT and OFFSET as the PostgreSQL compiler renders them, [paramIndex]
    being the next free reference. *)
Definition pgLimitSeg (st : Statements) (paramIndex : nat) : list string :=
  match st_limit st, st_offset st with
  | Some _, Some _ =>
      ["LIMIT " +:+ Pg.ref paramIndex; "OFFSET " +:+ Pg.ref (S paramIndex)]
  | Some _, None => ["LIMIT " +:+ Pg.ref paramIndex]
  | None, Some _ => ["OFFSET " +:+ Pg.ref paramIndex]
  | None, None => []
  end.

Definition pgLimitValues (st : Statements) : list jsval :=
  match st_limit st with Some l => [l] | None => [] end ++
  match st_offset st with Some o => [o] | None => [] end.

(** [st] with its offset left unset. *)
Definition withoutOffset (st : Statements) : Statements :=
  {| st_select := st_select st; st_where := st_where st; st_join := st_join st;
     st_orderBy := st_orderBy st; st_limit := st_limit st; st_offset := None;
     st_groupBy := st_groupBy st; st_having := st_having st |}.

(** The values of the predicates of a clause, in list order. *)
Definition values (preds : list Predicate) : list jsval := List.map p_value preds.

(** [needle] occurs in [s]. *)
Definition occursIn (needle s : string) : Prop :=
  exists pre post, s = pre +:+ needle +:+ post.

End Text.

Import Text.

(** ** The cache middleware *)

Module Middleware.

(** The query object the two handlers of [configureCacheMiddleware]
    receive: [method], [sql], [bindings] and the [__cachedResult] property
    that the first handler sets on a hit ([VUndefined] until then). *)
Record Query : Type := mkQuery {
  q_method : string;
  q_sql : string;
  q_bindings : list jsval;
  q_cachedResult : jsval
}.

(** The handler of the [query] event: what it returns, the query object and
    the cache after it. [client] is [vesperdb.config.client]. *)
Definition onQuery (client : string) (query : Query) (qc : Cache.QueryCache)
  : jsval * Query * Cache.QueryCache :=
  if String.eqb (q_method query) "select" then
    let '(cachedResult, qc) :=
      Cache.get (q_sql query) (q_bindings query) client qc in
    if truthy cachedResult
    then (cachedResult,
          {| q_method := q_method query; q_sql := q_sql query;
             q_bindings := q_bindings query; q_cachedResult := cachedResult |},
          qc)
    else (VUndefined, query, qc)
  else (VUndefined, query, qc).

(** [['insert', 'update', 'delete'].includes(method)] *)
Definition isWrite (method : string) : bool :=
  existsb (String.eqb method) ["insert"; "update"; "delete"].

(** The handler of the [query:response] event: what it returns and the
    cache after it. [Array.from(tables)] lists the set; the invalidation
    loop visits its elements one by one. *)
Definition onResponse (client : string) (response : jsval) (query : Query)
    (qc : Cache.QueryCache) : jsval * Cache.QueryCache :=
  if truthy (q_cachedResult query) then (q_cachedResult query, qc)
  else if String.eqb (q_method query) "select" then
    let tables := Cache.extractTablesFromQuery (q_sql query) in
    (response,
     snd (Cache.set (q_sql query) (q_bindings query) response client tables qc))
  else if isWrite (q_method query) then
    let tables := Cache.extractTablesFromQuery (q_sql query) in
    (response,
     snd (Cache.invalidateByTables (Cache.Array (elements tables)) qc))
  else (response, qc).

End Middleware.

(** ** Counting the operations of a sequence *)

(** The [get] calls of [ops] made after its last [clear]. *)
Definition getsSinceClear (ops : list Cache.op) : nat :=
  fold_left (fun n o => match o with
                        | Cache.OpGet _ _ _ => S n
                        | Cache.OpClear => 0
                        | _ => n
                        end) ops 0.

(** The [set] calls of [ops] with a truthy value made after its last
    [clear]. *)
Definition setsSinceClear (ops : list Cache.op) : nat :=
  fold_left (fun n o => match o with
                        | Cache.OpSet _ _ value _ _ => if truthy value then S n else n
                        | Cache.OpClear => 0
                        | _ => n
                        end) ops 0.

(** ** The drivers: how a statement is executed *)

(** [s.split(' ')[0]] *)
Fixpoint firstSegment (s : string) : string :=
  match s with
  | EmptyString => EmptyString
  | String c s' =>
      if Ascii.eqb c " " then EmptyString else String c (firstSegment s')
  end.

(** [sql.trim().split(' ')[0].toUpperCase()], as both [executeQuery]
    functions compute it. *)
Definition firstWord (sql : string) : string :=
  toUpperCase (firstSegment (Cache.trim sql)).

Module SqliteDriver.

(** The call made on the database handle. *)
Inductive dbCall : Type :=
| DbAll (sql : string) (bindings : list jsval)
| DbRun (sql : string) (bindings : list jsval).

(** What the promise resolves with, on success: the rows, [[this.lastID]]
    or [{ rowCount: this.changes }]. *)
Inductive resolution : Type :=
| Rows
| LastIdArray
| RowCountObject.

(** [executeQuery(db, sql, bindings)] *)
Definition executeQuery (sql : string) (bindings : list jsval)
  : dbCall * resolution :=
  if String.eqb (firstWord sql) "SELECT" then (DbAll sql bindings, Rows)
  else if String.eqb (firstWord sql) "INSERT" then (DbRun sql bindings, LastIdArray)
  else (DbRun sql bindings, RowCountObject).

End SqliteDriver.

Module MssqlDriver.

(** [bindings.forEach((value, index) => request.input(`p${index}`, value))]:
    the inputs registered on the request, in order. *)
Definition inputs (bindings : list jsval) : list (string * jsval) :=
  imap (fun index value => ("p" +:+ natToString index, value)) bindings.

(** [sqlQuery.replace(/\?/g, () => `@p${paramIndex++}`)], from the counter
    value [paramIndex] on. *)
Fixpoint formatFrom (paramIndex : nat) (s : string) : string :=
  match s with
  | EmptyString => EmptyString
  | String c s' =>
      if Ascii.eqb c "?"
      then "@p" +:+ natToString paramIndex +:+ formatFrom (S paramIndex) s'
      else String c (formatFrom paramIndex s')
  end.

Definition formattedSql (sqlQuery : string) : string := formatFrom 0 sqlQuery.

(** What [executeQuery] returns: the record set, the id of its first record
    in an array (or the empty array), or [{ rowCount }]. *)
Inductive resolution : Type :=
| Recordset
| FirstIdArray
| RowCountObject.

(** [executeQuery(pool, sqlQuery, bindings)]: the inputs, the text sent and
    the kind of value returned. *)
Definition executeQuery (sqlQuery : string) (bindings : list jsval)
  : list (string * jsval) * string * resolution :=
  (inputs bindings, formattedSql sqlQuery,
   if String.eqb (firstWord sqlQuery) "SELECT" then Recordset
   else if String.eqb (firstWord sqlQuery) "INSERT" then FirstIdArray
   else RowCountObject).

End MssqlDriver.

(** ** The query builder *)

Module QueryBuilder.

(** The fields of a [QueryBuilder] that its methods read or write:
    [tableName], [statements] and [bindings.where] (the other lists of
    [bindings] are never written). *)
Record t : Type := mkBuilder {
  qb_tableName : string;
  qb_statements : Statements;
  qb_whereBindings : list jsval
}.

(** [new QueryBuilder(client, tableName)] *)
Definition create (tableName : string) : t :=
  {| qb_tableName := tableName;
     qb_statements :=
       {| st_select := None; st_where := []; st_join := []; st_orderBy := [];
          st_limit := None; st_offset := None; st_groupBy := [];
          st_having := [] |};
     qb_whereBindings := [] |}.

(** [value !== undefined] *)
Definition isDefined (value : jsval) : bool :=
  match value with VUndefined => false | _ => true end.

(** A [limit] or [offset] argument as [Statements] keeps it. *)
Definition nullable (value : jsval) : option jsval :=
  match value with VUndefined | VNull => None | _ => Some value end.

(** [select(...columns)] *)
Definition select (columns : list string) (qb : t) : t :=
  let st := qb_statements qb in
  {| qb_tableName := qb_tableName qb;
     qb_statements :=
       {| st_select := Some (match columns with [] => ["*"] | _ => columns end);
          st_where := st_where st; st_join := st_join st;
          st_orderBy := st_orderBy st; st_limit := st_limit st;
          st_offset := st_offset st; st_groupBy := st_groupBy st;
          st_having := st_having st |};
     qb_whereBindings := qb_whereBindings qb |}.

(** The two pushes that [where] and [orWhere] end with. *)
Definition pushWhere (boolean column operator : string) (value : jsval)
    (qb : t) : t :=
  let st := qb_statements qb in
  {| qb_tableName := qb_tableName qb;
     qb_statements :=
       {| st_select := st_select st;
          st_where := st_where st ++ [mkPredicate column operator value boolean];
          st_join := st_join st; st_orderBy := st_orderBy st;
          st_limit := st_limit st; st_offset := st_offset st;
          st_groupBy := st_groupBy st; st_having := st_having st |};
     qb_whereBindings :=
       if isDefined value then qb_whereBindings qb ++ [value]
       else qb_whereBindings qb |}.

(** [limit(limit)] *)
Definition limit (value : jsval) (qb : t) : t :=
  let st := qb_statements qb in
  {| qb_tableName := qb_tableName qb;
     qb_statements :=
       {| st_select := st_select st; st_where := st_where st;
          st_join := st_join st; st_orderBy := st_orderBy st;
          st_limit := nullable value; st_offset := st_offset st;
          st_groupBy := st_groupBy st; st_having := st_having st |};
     qb_whereBindings := qb_whereBindings qb |}.

(** [offset(offset)] *)
Definition offset (value : jsval) (qb : t) : t :=
  let st := qb_statements qb in
  {| qb_tableName := qb_tableName qb;
     qb_statements :=
       {| st_select := st_select st; st_where := st_where st;
          st_join := st_join st; st_orderBy := st_orderBy st;
          st_limit := st_limit st; st_offset := nullable value;
          st_groupBy := st_groupBy st; st_having := st_having st |};
     qb_whereBindings := qb_whereBindings qb |}.

(** [orderBy(column, direction = 'asc')]; [None] is an omitted or undefined
    direction. *)
Definition orderBy (column : string) (direction : option string) (qb : t) : t :=
  let st := qb_statements qb in
  {| qb_tableName := qb_tableName qb;
     qb_statements :=
       {| st_select := st_select st; st_where := st_where st;
          st_join := st_join st;
          st_orderBy :=
            st_orderBy st ++
            [mkOrder column (toLowerCase (default "asc" direction))];
          st_limit := st_limit st; st_offset := st_offset st;
          st_groupBy := st_groupBy st; st_having := st_having st |};
     qb_whereBindings := qb_whereBindings qb |}.

(** The push that [join] and [leftJoin] make. *)
Definition pushJoin (type table first operator second : string) (qb : t) : t :=
  let st := qb_statements qb in
  {| qb_tableName := qb_tableName qb;
     qb_statements :=
       {| st_select := st_select st; st_where := st_where st;
          st_join := st_join st ++ [mkJoin type table first operator second];
          st_orderBy := st_orderBy st; st_limit := st_limit st;
          st_offset := st_offset st; st_groupBy := st_groupBy st;
          st_having := st_having st |};
     qb_whereBindings := qb_whereBindings qb |}.

(** The chainable calls. [Where] is [where] with three arguments, [Where2]
    with two ([arguments.length === 2]), [WhereObject] with an object of
    conditions; likewise [OrWhere] and [OrWhere2]. *)
Inductive call : Type :=
| Select (columns : list string)
| Where (column operator : string) (value : jsval)
| Where2 (column : string) (value : jsval)
| WhereObject (conditions : jsobj)
| OrWhere (column operator : string) (value : jsval)
| OrWhere2 (column : string) (value : jsval)
| Limit (value : jsval)
| Offset (value : jsval)
| OrderBy (column : string) (direction : option string)
| Join (table first operator second : string)
| LeftJoin (table first operator second : string).

Definition apply (qb : t) (c : call) : t :=
  match c with
  | Select columns => select columns qb
  | Where column operator value => pushWhere "AND" column operator value qb
  | Where2 column value => pushWhere "AND" column "=" value qb
  | WhereObject conditions =>
      fold_left (fun qb '(key, val) => pushWhere "AND" key "=" val qb)
                conditions qb
  | OrWhere column operator value => pushWhere "OR" column operator value qb
  | OrWhere2 column value => pushWhere "OR" column "=" value qb
  | Limit value => limit value qb
  | Offset value => offset value qb
  | OrderBy column direction => orderBy column direction qb
  | Join table first operator second =>
      pushJoin "inner" table first operator second qb
  | LeftJoin table first operator second =>
      pushJoin "left" table first operator second qb
  end.

(** A chain of calls on a builder. *)
Definition chain (calls : list call) (qb : t) : t := fold_left apply calls qb.

(** [_toSQL()], with the SQLite and with the PostgreSQL dialect module. *)
Definition toSQL_sqlite (qb : t) : result Compiled * list string :=
  Sqlite.compileSelect (qb_tableName qb) (qb_statements qb).

Definition toSQL_pg (qb : t) : result Compiled :=
  Pg.compileSelect (qb_tableName qb) (qb_statements qb).



End QueryBuilder.

(** ** The PostgreSQL schema compiler: columns *)

Module PgSchema.

(** The own properties of [DATA_TYPES] that hold a plain type name. *)
Definition typeNames : list (string * string) :=
  [("integer", "INTEGER"); ("bigInteger", "BIGINT"); ("text", "TEXT");
   ("float", "FLOAT"); ("boolean", "BOOLEAN"); ("date", "DATE");
   ("datetime", "TIMESTAMP"); ("timestamp", "TIMESTAMP"); ("binary", "BYTEA");
   ("json", "JSONB"); ("uuid", "UUID")].

(** [DATA_TYPES[key]]; [None] is [undefined]. The two functions are those of
    the MySQL table, letter for letter. *)
Definition DATA_TYPES (key : string) : option Mysql.typeEntry :=
  if String.eqb key "string" then Some Mysql.StringFn
  else if String.eqb key "decimal" then Some Mysql.DecimalFn
  else match Mysql.assoc key typeNames with
       | Some s => Some (Mysql.TypeName s)
       | None =>
           if existsb (String.eqb key) Mysql.objectPrototypeMethods
           then Some Mysql.InheritedFn
           else if String.eqb key "__proto__" then Some Mysql.InheritedObj
           else None
       end.

(** [parts[1] = v]: the second element is replaced, or added when the array
    has one element (an empty array would get a hole, which [join] prints
    as the empty string). *)
Definition setSecond (v : string) (parts : list string) : list string :=
  match parts with
  | [] => [""; v]
  | [x] => [x; v]
  | x :: _ :: rest => x :: v :: rest
  end.

(** [compileColumn(column)] *)
Definition compileColumn (column : Column) : string :=
  let parts := [c_name column] in
  let parts :=
    match DATA_TYPES (c_type column) with
    | Some (Mysql.StringFn | Mysql.DecimalFn | Mysql.InheritedFn) =>
        if String.eqb (c_type column) "string"
        then parts ++ [Mysql.stringType (c_length column)]
        else if String.eqb (c_type column) "decimal"
        then parts ++ [Mysql.decimalType (c_precision column) (c_scale column)]
        else parts
    | Some (Mysql.TypeName s) => parts ++ [s]
    | Some Mysql.InheritedObj => parts ++ ["[object Object]"]
    | None => parts ++ ["TEXT"]
    end in
  let parts := if c_autoIncrement column then setSecond "SERIAL" parts else parts in
  let parts := if c_nullable column then parts else parts ++ ["NOT NULL"] in
  let parts :=
    match c_defaultValue column with
    | VUndefined => parts
    | VStr s => parts ++ ["DEFAULT '" +:+ s +:+ "'"]
    | VNull => parts ++ ["DEFAULT NULL"]
    | v => parts ++ ["DEFAULT " +:+ toString v]
    end in
  join " " parts.

End PgSchema.

(** ** The MySQL schema compiler: ALTER TABLE and the lookups *)

(** One entry of [constraints.index]; [idx_name = None] is an index name
    left undefined. *)
Record Index : Type := mkIndex {
  idx_name : option string;
  idx_columns : list string
}.

Module MysqlAlter.

(** The [unique] loop from index [i] on. *)
Fixpoint uniqueStatements (tableName : string) (i : nat)
    (groups : list (list string)) : list string :=
  match groups with
  | [] => []
  | uniqueColumns :: groups' =>
      ("ALTER TABLE " +:+ tableName +:+ " ADD UNIQUE KEY `" +:+ tableName +:+
       "_unique_" +:+ natToString i +:+ "` (" +:+ join ", " uniqueColumns +:+ ")")
      :: uniqueStatements tableName (S i) groups'
  end.

(** The [foreignKeys] loop from index [i] on. *)
Fixpoint foreignKeyStatements (tableName : string) (i : nat)
    (fks : list ForeignKey) : list string :=
  match fks with
  | [] => []
  | fk :: fks' =>
      ("ALTER TABLE " +:+ tableName +:+ " ADD CONSTRAINT `" +:+ tableName +:+
       "_fk_" +:+ natToString i +:+ "` " +:+
       "FOREIGN KEY (" +:+ fk_column fk +:+ ") REFERENCES " +:+
       fk_referenceTable fk +:+ "(" +:+ fk_referenceColumn fk +:+
       ") ON DELETE CASCADE")
      :: foreignKeyStatements tableName (S i) fks'
  end.

(** [idx.name || `${tableName}_idx_${i}`] *)
Definition indexName (tableName : string) (i : nat) (idx : Index) : string :=
  match idx_name idx with
  | Some name =>
      if String.eqb name "" then tableName +:+ "_idx_" +:+ natToString i else name
  | None => tableName +:+ "_idx_" +:+ natToString i
  end.

(** The [index] loop from index [i] on. *)
Fixpoint indexStatements (tableName : string) (i : nat) (indexes : list Index)
  : list string :=
  match indexes with
  | [] => []
  | idx :: indexes' =>
      ("CREATE INDEX `" +:+ indexName tableName i idx +:+ "` ON " +:+ tableName +:+
       "(" +:+ join ", " (idx_columns idx) +:+ ")")
      :: indexStatements tableName (S i) indexes'
  end.

(** The [alterStatements] array of [compileAlterTable]; [index] is
    [constraints.index]. *)
Definition alterStatements (tableName : string) (columns : list Column)
    (constraints : Constraints) (index : list Index) : list string :=
  List.map (fun column => "ALTER TABLE " +:+ tableName +:+ " ADD COLUMN " +:+
                          Mysql.compileColumn column) columns
  ++ match primaryKey constraints with
     | Some (c :: cs) =>
         ["ALTER TABLE " +:+ tableName +:+ " ADD PRIMARY KEY (" +:+
          join ", " (c :: cs) +:+ ")"]
     | _ => []
     end
  ++ uniqueStatements tableName 0 (unique constraints)
  ++ foreignKeyStatements tableName 0 (foreignKeys constraints)
  ++ indexStatements tableName 0 index.

(** [compileAlterTable(tableName, columns, constraints)] *)
Definition compileAlterTable (tableName : string) (columns : list Column)
    (constraints : Constraints) (index : list Index) : result Compiled :=
  Ok {| sql := join "; " (alterStatements tableName columns constraints index);
        bindings := [] |}.

End MysqlAlter.

(** ** The configuration validator *)

Module Config.

(** The configuration object: [client] as given, and [connection], an
    object, or [None] for a falsy value. *)
Record t : Type := mkConfig {
  client : jsval;
  connection : option jsobj
}.

Definition SUPPORTED_DIALECTS : list string := ["pg"; "mysql"; "sqlite"; "mssql"].

(** [list.includes(v)] on an array of strings. *)
Definition includes (l : list string) (v : jsval) : bool :=
  match v with
  | VStr s => existsb (String.eqb s) l
  | _ => false
  end.

(** [!v && v !== 0] *)
Definition missing (v : jsval) : bool :=
  negb (truthy v) && match v with VNum _ => false | _ => true end.

(** [validateConnectionConfig(connection, requiredFields)]: the error of the
    first field that is missing. *)
Fixpoint validateConnectionConfig (connection : jsobj)
    (requiredFields : list string) : result unit :=
  match requiredFields with
  | [] => Ok tt
  | field :: rest =>
      if missing (getProp connection field)
      then Throw ("Le champ '" +:+ field +:+
                  "' est requis dans la configuration de connexion")
      else validateConnectionConfig connection rest
  end.

(** [validateSqliteConfig(connection)] *)
Definition validateSqliteConfig (connection : jsobj) : result unit :=
  if truthy (getProp connection "filename") then Ok tt
  else Throw "Le champ 'filename' est requis pour la connexion SQLite".

(** [config.client === name] *)
Definition isClient (v : jsval) (name : string) : bool :=
  match v with VStr s => String.eqb s name | _ => false end.

(** [configValidator(config)]; [None] is a falsy [config]. *)
Definition configValidator (config : option t) : result bool :=
  match config with
  | None => Throw "La configuration est requise"
  | Some config =>
      if negb (truthy (client config))
      then Throw "Le client/dialecte est requis dans la configuration"
      else if negb (includes SUPPORTED_DIALECTS (client config))
      then Throw ("Le dialecte '" +:+ toString (client config) +:+
                  "' n'est pas supporté. Dialectes supportés: " +:+
                  join ", " SUPPORTED_DIALECTS)
      else
        match connection config with
        | None => Throw "La configuration de connexion est requise"
        | Some conn =>
            let checked :=
              if isClient (client config) "pg" || isClient (client config) "mysql"
                 || isClient (client config) "mssql"
                 || isClient (client config) "oracle"
              then validateConnectionConfig conn
                     ["host"; "user"; "password"; "database"]
              else if isClient (client config) "sqlite"
              then validateSqliteConfig conn
              else Ok tt in
            match checked with
            | Ok _ => Ok true
            | Throw msg => Throw msg
            end
        end
  end.

End Config.

(** ** The table builder *)

Module TableBuilder.

(** The fields of a [TableBuilder] that the schema compilers read:
    [columns] and [constraints] (with [constraints.index] kept beside). *)
Record t : Type := mkTable {
  columns : list Column;
  constraints : Constraints;
  index : list Index
}.

(** [new TableBuilder(tableName)] *)
Definition create : t :=
  {| columns := [];
     constraints := {| primaryKey := None; unique := []; foreignKeys := [] |};
     index := [] |}.

(** [new ColumnBuilder(name, type, options)] *)
Definition newColumn (name type : string) (autoIncrement : bool)
    (length precision scale : jsval) : Column :=
  {| c_name := name; c_type := type; c_nullable := true;
     c_defaultValue := VUndefined; c_autoIncrement := autoIncrement;
     c_length := length; c_precision := precision; c_scale := scale |}.

(** [_addColumn(name, type, options)] *)
Definition addColumn (column : Column) (tb : t) : t :=
  {| columns := columns tb ++ [column]; constraints := constraints tb;
     index := index tb |}.

(** [primary(columns)], on the array [cols]. *)
Definition primary (cols : list string) (tb : t) : t :=
  {| columns := columns tb;
     constraints := {| primaryKey := Some cols;
                       unique := unique (constraints tb);
                       foreignKeys := foreignKeys (constraints tb) |};
     index := index tb |}.

(** A string or an array of strings, as [primary], [unique] and [index]
    take it: [Array.isArray(columns) ? columns : [columns]]. *)
Inductive columnsArg : Type :=
| One (column : string)
| Many (names : list string).

Definition cols (arg : columnsArg) : list string :=
  match arg with One column => [column] | Many names => names end.

(** A default parameter: the default replaces [undefined] only. *)
Definition orDefault (v : jsval) (d : Z) : jsval :=
  match v with VUndefined => VNum d | _ => v end.

(** [const [refTable, refColumn] = reference.split('.')]; a part that is
    undefined is kept as the text a template literal prints for it. *)
Definition referenceParts (reference : string) : string * string :=
  let parts := Cache.splitDot EmptyString reference in
  (nth 0 parts "undefined", nth 1 parts "undefined").

(** The calls a callback can make on the table builder and on the column
    builders it got back; a column builder is named by the position of its
    column in [columns] (a position that holds no column names no builder:
    the call leaves the table as it is). *)
Inductive call : Type :=
| Integer (name : string)
| Text (name : string)
| String_ (name : string) (length : jsval)
| Decimal (name : string) (precision scale : jsval)
| Boolean (name : string)
| Date (name : string)
| Datetime (name : string)
| Timestamp (name : string)
| Increments (name : option string)
| Primary (arg : columnsArg)
| Foreign (column reference : string)
| Unique (arg : columnsArg)
| IndexOn (arg : columnsArg) (indexName : option string)
| NotNullable (position : nat)
| DefaultTo (position : nat) (value : jsval)
| ColumnIncrements (position : nat).

(** A method of the column builder at [position], applied in place. *)
Definition onColumn (position : nat) (f : Column -> Column) (tb : t) : t :=
  {| columns :=
       match columns tb !! position with
       | Some column => <[position := f column]> (columns tb)
       | None => columns tb
       end;
     constraints := constraints tb; index := index tb |}.

Definition apply (tb : t) (c : call) : t :=
  let plain name type :=
    addColumn (newColumn name type false VUndefined VUndefined VUndefined) tb in
  match c with
  | Integer name => plain name "integer"
  | Text name => plain name "text"
  | String_ name length =>
      addColumn (newColumn name "string" false (orDefault length 255)
                           VUndefined VUndefined) tb
  | Decimal name precision scale =>
      addColumn (newColumn name "decimal" false VUndefined
                           (orDefault precision 8) (orDefault scale 2)) tb
  | Boolean name => plain name "boolean"
  | Date name => plain name "date"
  | Datetime name => plain name "datetime"
  | Timestamp name => plain name "timestamp"
  | Increments name =>
      let name := default "id" name in
      primary [name]
        (addColumn (newColumn name "integer" true VUndefined VUndefined VUndefined)
                   tb)
  | Primary arg => primary (cols arg) tb
  | Foreign column reference =>
      let '(refTable, refColumn) := referenceParts reference in
      {| columns := columns tb;
         constraints :=
           {| primaryKey := primaryKey (constraints tb);
              unique := unique (constraints tb);
              foreignKeys := foreignKeys (constraints tb)
                             ++ [mkForeignKey column refTable refColumn] |};
         index := index tb |}
  | Unique arg =>
      {| columns := columns tb;
         constraints :=
           {| primaryKey := primaryKey (constraints tb);
              unique := unique (constraints tb) ++ [cols arg];
              foreignKeys := foreignKeys (constraints tb) |};
         index := index tb |}
  | IndexOn arg indexName =>
      {| columns := columns tb; constraints := constraints tb;
         index := index tb ++ [mkIndex indexName (cols arg)] |}
  | NotNullable position =>
      onColumn position
        (fun column =>
           {| c_name := c_name column; c_type := c_type column;
              c_nullable := false; c_defaultValue := c_defaultValue column;
              c_autoIncrement := c_autoIncrement column;
              c_length := c_length column; c_precision := c_precision column;
              c_scale := c_scale column |}) tb
  | DefaultTo position value =>
      onColumn position
        (fun column =>
           {| c_name := c_name column; c_type := c_type column;
              c_nullable := c_nullable column; c_defaultValue := value;
              c_autoIncrement := c_autoIncrement column;
              c_length := c_length column; c_precision := c_precision column;
              c_scale := c_scale column |}) tb
  | ColumnIncrements position =>
      onColumn position
        (fun column =>
           {| c_name := c_name column; c_type := c_type column;
              c_nullable := c_nullable column;
              c_defaultValue := c_defaultValue column;
              c_autoIncrement := true;
              c_length := c_length column; c_precision := c_precision column;
              c_scale := c_scale column |}) tb
  end.

(** What a callback does to the table builder it is given. *)
Definition callback (calls : list call) : t := fold_left apply calls create.

(** The types the table builder can give a column. *)
Definition offeredTypes : list string :=
  ["integer"; "text"; "string"; "decimal"; "boolean"; "date"; "datetime";
   "timestamp"].

(** [DATA_TYPES[type]] is an own entry of the table: a type name or one of
    its two functions. *)
Definition ownEntry (entry : option Mysql.typeEntry) : Prop :=
  match entry with
  | Some (Mysql.TypeName _ | Mysql.StringFn | Mysql.DecimalFn) => True
  | _ => False
  end.

End TableBuilder.

(** ** The client: queries and transactions *)

Module Client.

(** The calls the client makes on its dialect module. *)
Inductive event : Type :=
| Acquire
| Release
| Execute (sql : string) (bindings : list jsval)
| Begin
| Commit
| Rollback.


Section Dialect.

(** How the dialect module answers a call, the calls made so far being
    given: the value its promise resolves with, or the message of the error
    it rejects with. *)
Variable completes : list event -> event -> result jsval.

(** [await this.dialectModule.<call>(...)]: the outcome and the calls made. *)
Definition perform (ev : event) (trace : list event)
  : result jsval * list event :=
  (completes trace ev, trace ++ [ev]).

(** [acquireConnection()]; [pool] tells whether [connectionPool] is set. *)
Definition acquireConnection (pool : bool) (trace : list event)
  : result jsval * list event :=
  if pool then perform Acquire trace
  else (Throw "Le pool de connexions n'est pas initialisé", trace).

(** [releaseConnection(connection)] *)
Definition releaseConnection (pool : bool) (trace : list event)
  : result jsval * list event :=
  if pool then perform Release trace else (Ok VUndefined, trace).

(** [try { ... } finally { await this.releaseConnection(connection) }]: an
    error of the release replaces the outcome of the block. *)
Definition finallyRelease (pool : bool) (outcome : result jsval)
    (trace : list event) : result jsval * list event :=
  match releaseConnection pool trace with
  | (Throw e, trace) => (Throw e, trace)
  | (Ok _, trace) => (outcome, trace)
  end.

(** [query(sql, bindings)] *)
Definition query (pool : bool) (sql : string) (bindings : list jsval)
    (trace : list event) : result jsval * list event :=
  match acquireConnection pool trace with
  | (Throw e, trace) => (Throw e, trace)
  | (Ok _, trace) =>
      let '(result, trace) := perform (Execute sql bindings) trace in
      finallyRelease pool result trace
  end.





End Dialect.

End Client.

(** * Properties *)

(** ** MD5 test vectors (RFC 1321, appendix A.5) *)

Example md5_empty : Md5.md5 "" = "d41d8cd98f00b204e9800998ecf8427e".
Proof. vm_compute. reflexivity. Qed.

Example md5_abc : Md5.md5 "abc" = "900150983cd24fb0d6963f7d28e17f72".
Proof. vm_compute. reflexivity. Qed.

Example md5_two_blocks :
  Md5.md5 "12345678901234567890123456789012345678901234567890123456789012345678901234567890"
  = "57edf4a22be3c955ac49da2e2107b67a".
Proof. vm_compute. reflexivity. Qed.

Arguments Cache.generateCacheKey : simpl never.

(** ** Numbers, property reads and white space on concrete inputs *)

(** An integer prints in plain decimal up to 21 digits and in exponent form
    beyond, with the digits of the nearest Number. *)
Example numbers_print_as_numbers :
  numToString (2 ^ 53 + 1) = "9007199254740992" /\
  numToString (2 ^ 64) = "18446744073709552000" /\
  numToString (10 ^ 21 - 1) = "1e+21" /\
  numToString 123456789012345678901234567890 = "1.2345678901234568e+29" /\
  numToString (- 2 ^ 70) = "-1.1805916207174113e+21" /\
  numToString (2 ^ 1024) = "Infinity".
Proof. repeat split; vm_compute; reflexivity. Qed.

(** The hit rate is rounded from the product of Numbers, not from the
    exact quotient: 23 hits out of 160 give 14.37, where the exact
    14.375 would give 14.38. *)
Example hit_rate_of_numbers :
  Z.of_nat (Cache.hitRateHundredths 23 160) = 1437%Z /\
  Z.of_nat (Cache.hitRateHundredths 29 200) = 1450%Z /\
  Z.of_nat (Cache.hitRateHundredths 1 3) = 3333%Z /\
  Z.of_nat (Cache.hitRateHundredths 2 3) = 6667%Z /\
  Z.of_nat (Cache.hitRateHundredths 0 5) = 0%Z /\
  Z.of_nat (Cache.hitRateHundredths 7 7) = 10000%Z.
Proof. repeat split; vm_compute; reflexivity. Qed.

(** A property that an object lacks is read from [Object.prototype]. *)
Example absent_properties_are_inherited :
  getProp [("id", VNum 1)] "id" = VNum 1 /\
  getProp [("id", VNum 1)] "name" = VUndefined /\
  getProp [("id", VNum 1)] "toString" = VMember "toString" /\
  getProp [("toString", VNum 2)] "toString" = VNum 2 /\
  getProp [("id", VNum 1)] "__proto__" = VMember "__proto__" /\
  toString (VMember "constructor") = "function Object() { [native code] }" /\
  toString (VMember "__proto__") = "[object Object]".
Proof. repeat split. Qed.

(** The no-break space (U+00A0), the em space (U+2003), the ideographic
    space (U+3000) and the byte order mark (U+FEFF) are white space for
    [trim] and for the table extractor; a letter outside ASCII is not. *)
Example white_space_outside_ascii :
  let nbsp := String (ascii_of_nat 194) (String (ascii_of_nat 160) "") in
  let emsp := String (ascii_of_nat 226) (String (ascii_of_nat 128)
                (String (ascii_of_nat 131) "")) in
  let idsp := String (ascii_of_nat 227) (String (ascii_of_nat 128)
                (String (ascii_of_nat 128) "")) in
  let bom := String (ascii_of_nat 239) (String (ascii_of_nat 187)
               (String (ascii_of_nat 191) "")) in
  Cache.trim (emsp +:+ " " +:+ bom +:+ "ab c" +:+ nbsp +:+ idsp +:+ " ") = "ab c" /\
  Cache.trim (nbsp +:+ "é a à" +:+ nbsp) = "é a à" /\
  Cache.extractTablesFromQuery ("SELECT * FROM" +:+ nbsp +:+ "t_from x")
  = {["t_from"]} /\
  Cache.extractTablesFromQuery ("DELETE FROM" +:+ idsp +:+ emsp +:+ "Users")
  = {["users"]} /\
  firstWord (bom +:+ "select 1") = "SELECT".
Proof. repeat split; vm_compute; reflexivity. Qed.

(** ** Strings *)

Section Strings.

Implicit Types (s a b : string) (c : ascii) (l : list string).

Lemma append_cons c a b : String c a +:+ b = String c (a +:+ b).
Proof. reflexivity. Qed.

Lemma append_nil_l s : "" +:+ s = s.
Proof. reflexivity. Qed.

Lemma append_nil_r s : s +:+ "" = s.
Proof.
  induction s as [|x s IH]; [reflexivity|]. now rewrite append_cons, IH.
Qed.

Lemma append_assoc a b s : (a +:+ b) +:+ s = a +:+ (b +:+ s).
Proof.
  induction a as [|x a IH]; [reflexivity|]. now rewrite !append_cons, IH.
Qed.

Lemma join_cons sep a b l :
  join sep (a :: b :: l) = a +:+ sep +:+ join sep (b :: l).
Proof. reflexivity. Qed.

Lemma join_app sep l1 l2 :
  l1 <> [] -> l2 <> [] ->
  join sep (l1 ++ l2) = join sep l1 +:+ sep +:+ join sep l2.
Proof.
  intros H1 H2. induction l1 as [|a l1 IH]; [congruence|].
  destruct l1 as [|b l1].
  - destruct l2 as [|x l2]; [congruence | reflexivity].
  - change (join sep ((a :: b :: l1) ++ l2))
      with (a +:+ sep +:+ join sep ((b :: l1) ++ l2)).
    rewrite IH by discriminate. rewrite join_cons, !append_assoc. reflexivity.
Qed.

(** An element of a joined array occurs in the result. *)
Lemma occursIn_join sep x l : In x l -> occursIn x (join sep l).
Proof.
  induction l as [|a l IH]; [intros []|].
  intros [->|Hin].
  - destruct l as [|b l].
    + exists "", "". cbn [join String.concat]. now rewrite append_nil_l, append_nil_r.
    + exists "", (sep +:+ join sep (b :: l)). reflexivity.
  - destruct l as [|b l]; [destruct Hin|].
    destruct (IH Hin) as (pre & post & E).
    exists (a +:+ sep +:+ pre), post.
    rewrite join_cons, E, !append_assoc. reflexivity.
Qed.

Lemma occursIn_append_r a x s : occursIn x s -> occursIn x (a +:+ s).
Proof.
  intros (pre & post & ->). exists (a +:+ pre), post.
  now rewrite append_assoc.
Qed.

Lemma countChar_append c a b :
  countChar c (a +:+ b) = countChar c a + countChar c b.
Proof.
  induction a as [|x a IH]; [reflexivity|].
  rewrite append_cons. simpl. rewrite IH. lia.
Qed.

Lemma countChar_join c sep l :
  countChar c sep = 0 ->
  countChar c (join sep l) = list_sum (List.map (countChar c) l).
Proof.
  intros Hsep. induction l as [|a l IH]; [reflexivity|].
  destruct l as [|b l].
  - simpl. lia.
  - rewrite join_cons, !countChar_append, Hsep, IH. simpl. lia.
Qed.

Lemma list_sum_zero (f : string -> nat) l :
  Forall (fun x => f x = 0) l -> list_sum (List.map f l) = 0.
Proof. induction 1 as [|x l Hx _ IH]; simpl; [reflexivity | lia]. Qed.

Lemma isUpper_upperChar x : isLower x = true -> isUpper (upperChar x) = true.
Proof.
  unfold upperChar. intros Hx. rewrite Hx. unfold isLower, isUpper in *.
  apply andb_true_iff in Hx as [H1%Nat.leb_le H2%Nat.leb_le].
  rewrite nat_ascii_embedding by lia.
  apply andb_true_iff. split; apply Nat.leb_le; lia.
Qed.

(** Upper-casing neither creates nor removes a character that is no
    letter. *)
Lemma upperChar_preserves c x :
  isLower c = false -> isUpper c = false ->
  Ascii.eqb (upperChar x) c = Ascii.eqb x c.
Proof.
  intros Hl Hu. destruct (isLower x) eqn:Hx.
  - pose proof (isUpper_upperChar x Hx) as Hup.
    assert (Ascii.eqb (upperChar x) c = false) as ->
      by (apply Ascii.eqb_neq; congruence).
    symmetry. apply Ascii.eqb_neq. congruence.
  - unfold upperChar. now rewrite Hx.
Qed.

Lemma countChar_toUpperCase c s :
  isLower c = false -> isUpper c = false ->
  countChar c (toUpperCase s) = countChar c s.
Proof.
  intros Hl Hu. induction s as [|x s IH]; [reflexivity|].
  simpl. rewrite upperChar_preserves by assumption.
  unfold toUpperCase in IH. now rewrite IH.
Qed.

End Strings.

(** ** The shape of a compiled SELECT *)

Section SelectShape.

Variables (tableName : string) (st : Statements).

Lemma sqlite_selectParts_shape :
  Sqlite.selectParts tableName st =
  ("SELECT" :: selectSeg st ++ ["FROM " +:+ tableName]
     ++ fst (Sqlite.compileJoins (st_join st))
     ++ predicateSeg "WHERE " (Sqlite.predicateClauses 0 (st_where st))
     ++ groupSeg st
     ++ predicateSeg "HAVING " (Sqlite.predicateClauses 0 (st_having st))
     ++ orderSeg st ++ sqliteLimitSeg st,
   values (st_where st) ++ values (st_having st) ++ sqliteLimitValues st,
   snd (Sqlite.compileJoins (st_join st))).
Proof.
  unfold Sqlite.selectParts, selectSeg, groupSeg, orderSeg, sqliteLimitSeg,
    sqliteLimitValues, values.
  destruct (Sqlite.compileJoins (st_join st)) as [joins warnings].
  destruct (st_select st) as [[|c cs]|], (st_where st) as [|w ws],
    (st_groupBy st) as [|g gs], (st_having st) as [|h hs],
    (st_orderBy st) as [|o os], (st_limit st) as [l|], (st_offset st) as [off|];
    cbn [fst snd predicateSeg Sqlite.predicateClauses List.map app];
    rewrite <- ?app_assoc, ?app_nil_r; reflexivity.
Qed.

Lemma pg_selectParts_shape :
  Pg.selectParts tableName st =
  ("SELECT" :: selectSeg st ++ ["FROM " +:+ tableName]
     ++ List.map Pg.joinPart (st_join st)
     ++ predicateSeg "WHERE " (Pg.predicateClauses 0 1 (st_where st))
     ++ groupSeg st
     ++ predicateSeg "HAVING "
          (Pg.predicateClauses 0 (1 + length (st_where st)) (st_having st))
     ++ orderSeg st
     ++ pgLimitSeg st (1 + length (st_where st) + length (st_having st)),
   values (st_where st) ++ values (st_having st) ++ pgLimitValues st).
Proof.
  unfold Pg.selectParts, selectSeg, groupSeg, orderSeg, pgLimitSeg,
    pgLimitValues, values.
  destruct (st_select st) as [[|c cs]|], (st_where st) as [|w ws],
    (st_groupBy st) as [|g gs], (st_having st) as [|h hs],
    (st_orderBy st) as [|o os], (st_limit st) as [l|], (st_offset st) as [off|];
    cbn [fst snd predicateSeg Pg.predicateClauses List.map app length Nat.add];
    rewrite <- ?app_assoc, ?app_nil_r, ?Nat.add_0_r; reflexivity.
Qed.

End SelectShape.

(** ** Counting the [?] placeholders of a SQLite SELECT *)

Section Hygiene.

Variable c : ascii.

Lemma Forall_concat_map {A} (f : A -> list string) (P : string -> Prop) l :
  Forall P (List.concat (List.map f l)) -> Forall (fun x => Forall P (f x)) l.
Proof.
  induction l as [|x l IH]; simpl; intros H; [constructor|].
  apply Forall_app in H as [H1 H2]. constructor; auto.
Qed.

(** What a statement free of [c] gives for each of its clauses. *)
Lemma identifiers_free tableName st :
  Forall (freeOf c) (identifiers tableName st) ->
  freeOf c tableName /\
  Forall (freeOf c) (match st_select st with Some cs => cs | None => [] end) /\
  Forall (joinFree c) (st_join st) /\
  Forall (predicateFree c) (st_where st) /\
  Forall (freeOf c) (st_groupBy st) /\
  Forall (predicateFree c) (st_having st) /\
  Forall (orderFree c) (st_orderBy st).
Proof.
  unfold identifiers. intros H.
  apply Forall_cons in H as [Ht H].
  apply Forall_app in H as [Hs H]. apply Forall_app in H as [Hj H].
  apply Forall_app in H as [Hw H]. apply Forall_app in H as [Hg H].
  apply Forall_app in H as [Hh Ho].
  apply Forall_concat_map in Hj, Hw, Hh, Ho.
  repeat split; try assumption.
  - eapply Forall_impl; [exact Hj|]. intros j Hx.
    repeat (apply Forall_cons in Hx as [? Hx]). repeat split; assumption.
  - eapply Forall_impl; [exact Hw|]. intros p Hx.
    repeat (apply Forall_cons in Hx as [? Hx]). repeat split; assumption.
  - eapply Forall_impl; [exact Hh|]. intros p Hx.
    repeat (apply Forall_cons in Hx as [? Hx]). repeat split; assumption.
  - eapply Forall_impl; [exact Ho|]. intros o Hx.
    repeat (apply Forall_cons in Hx as [? Hx]). repeat split; assumption.
Qed.

End Hygiene.

Section SqliteMarks.

Lemma total_cons c x (l : list string) :
  total c (x :: l) = countChar c x + total c l.
Proof. reflexivity. Qed.

Lemma total_app c (l1 l2 : list string) :
  total c (l1 ++ l2) = total c l1 + total c l2.
Proof. unfold total. now rewrite List.map_app, list_sum_app. Qed.

Lemma total_free c (l : list string) : Forall (freeOf c) l -> total c l = 0.
Proof. apply list_sum_zero. Qed.

Lemma total_map_free {A} c (f : A -> string) (P : A -> Prop) (l : list A) :
  (forall x, P x -> countChar c (f x) = 0) ->
  Forall P l -> total c (List.map f l) = 0.
Proof.
  intros Hf. induction 1 as [|x l Hx _ IH]; [reflexivity|].
  cbn [List.map]. rewrite total_cons, IH, (Hf x Hx). reflexivity.
Qed.

Lemma countChar_join_total c sep l :
  countChar c sep = 0 -> countChar c (join sep l) = total c l.
Proof. apply countChar_join. Qed.

Lemma selectSeg_total c st :
  placeholderChar c ->
  Forall (freeOf c) (match st_select st with Some cs => cs | None => [] end) ->
  total c (selectSeg st) = 0.
Proof.
  unfold selectSeg. intros [-> | ->]; destruct (st_select st) as [[|x cs]|];
    intros H; try reflexivity;
    rewrite total_cons, countChar_join_total by reflexivity;
    rewrite (total_free _ _ H); reflexivity.
Qed.

Lemma groupSeg_total c st :
  placeholderChar c ->
  Forall (freeOf c) (st_groupBy st) -> total c (groupSeg st) = 0.
Proof.
  unfold groupSeg. intros [-> | ->]; destruct (st_groupBy st) as [|g gs];
    intros H; try reflexivity;
    rewrite total_cons, countChar_append, countChar_join_total by reflexivity;
    rewrite (total_free _ _ H); reflexivity.
Qed.

Lemma orderTerm_free c o :
  placeholderChar c -> orderFree c o -> countChar c (Sqlite.orderTerm o) = 0.
Proof.
  intros Hc [H1 H2]. unfold freeOf, Sqlite.orderTerm in *.
  rewrite !countChar_append, countChar_toUpperCase, H1, H2
    by (destruct Hc as [-> | ->]; reflexivity).
  destruct Hc as [-> | ->]; reflexivity.
Qed.

Lemma orderSeg_total c st :
  placeholderChar c ->
  Forall (orderFree c) (st_orderBy st) -> total c (orderSeg st) = 0.
Proof.
  unfold orderSeg. intros Hc. destruct (st_orderBy st) as [|o os]; intros H;
    [reflexivity|].
  rewrite total_cons, countChar_append, countChar_join_total
    by (destruct Hc as [-> | ->]; reflexivity).
  rewrite (total_map_free _ _ (orderFree c)); [|intros x; now apply orderTerm_free|exact H].
  destruct Hc as [-> | ->]; reflexivity.
Qed.

Lemma sqlite_clauses_marks i preds :
  Forall (predicateFree "?") preds ->
  total "?" (Sqlite.predicateClauses i preds) = length preds.
Proof.
  intros H. revert i. induction H as [|p preds (Hc & Ho & Hb) _ IH]; intros i;
    [reflexivity|].
  cbn [Sqlite.predicateClauses length]. rewrite total_cons, IH.
  unfold freeOf in *.
  destruct (Nat.eqb i 0); rewrite !countChar_append, ?Hc, ?Ho, ?Hb; reflexivity.
Qed.

(** Each clause of a predicate holds its own [?]. *)
Lemma sqlite_clauses_each i preds :
  Forall (predicateFree "?") preds ->
  List.map (countChar "?") (Sqlite.predicateClauses i preds)
  = List.map (fun _ => 1) preds.
Proof.
  intros H. revert i. induction H as [|p preds (Hc & Ho & Hb) _ IH]; intros i;
    [reflexivity|].
  cbn [Sqlite.predicateClauses List.map]. rewrite IH. f_equal.
  unfold freeOf in *.
  destruct (Nat.eqb i 0); rewrite !countChar_append, ?Hc, ?Ho, ?Hb; reflexivity.
Qed.

Lemma sqlite_joins_marks js :
  Forall (joinFree "?") js -> total "?" (fst (Sqlite.compileJoins js)) = 0.
Proof.
  induction 1 as [|j js (Ht & Hf & Ho & Hs) _ IH]; [reflexivity|].
  cbn [Sqlite.compileJoins]. destruct (Sqlite.compileJoins js) as [ps ws].
  cbn [fst] in *. rewrite total_cons, IH.
  unfold Sqlite.joinPart, freeOf in *.
  rewrite !countChar_append, Ht, Hf, Ho, Hs.
  unfold Sqlite.joinKeyword.
  destruct (String.eqb (j_type j) "left"), (String.eqb (j_type j) "right"),
    (String.eqb (j_type j) "full"); reflexivity.
Qed.

Lemma predicateSeg_marks kw clauses :
  countChar "?" kw = 0 ->
  total "?" (predicateSeg kw clauses) = total "?" clauses.
Proof.
  intros Hkw. destruct clauses as [|x l]; [reflexivity|].
  unfold predicateSeg. rewrite total_cons.
  rewrite countChar_append, Hkw, countChar_join_total by reflexivity.
  cbn. lia.
Qed.

Lemma sqliteLimitSeg_marks st :
  total "?" (sqliteLimitSeg st) = length (sqliteLimitValues st).
Proof.
  unfold sqliteLimitSeg, sqliteLimitValues.
  destruct (st_limit st), (st_offset st); reflexivity.
Qed.

(** The compiled SQLite text holds one [?] per binding. *)
Lemma sqlite_select_marks tableName st parts params warnings :
  Forall (freeOf "?") (identifiers tableName st) ->
  Sqlite.selectParts tableName st = (parts, params, warnings) ->
  questionMarks (join " " parts) = length params.
Proof.
  intros H E. rewrite sqlite_selectParts_shape in E. injection E as <- <- <-.
  apply identifiers_free in H as (Ht & Hs & Hj & Hw & Hg & Hh & Ho).
  unfold questionMarks. rewrite countChar_join_total by reflexivity.
  repeat (rewrite total_cons || rewrite total_app).
  rewrite !predicateSeg_marks by reflexivity.
  rewrite !sqlite_clauses_marks, selectSeg_total, sqlite_joins_marks,
    groupSeg_total, orderSeg_total, sqliteLimitSeg_marks
    by (assumption || (left; reflexivity)).
  rewrite countChar_append. unfold freeOf in Ht.
  rewrite Ht. unfold values. rewrite !length_app, !length_map.
  reflexivity.
Qed.

End SqliteMarks.

(** ** Reading the [$n] references of a PostgreSQL SELECT *)

Section PgReferences.

Lemma span_cons (p : ascii -> bool) x s :
  Cache.span p (String x s) =
  if p x then (String x (fst (Cache.span p s)), snd (Cache.span p s))
  else (EmptyString, String x s).
Proof. cbn [Cache.span]. destruct (p x), (Cache.span p s); reflexivity. Qed.

Lemma span_digits_append a b :
  endsDigits b ->
  fst (Cache.span isDigit (a +:+ b)) = fst (Cache.span isDigit a).
Proof.
  intros Hb. induction a as [|x a IH].
  - rewrite append_nil_l. destruct b as [|y b]; [reflexivity|].
    cbn [endsDigits] in Hb. rewrite span_cons, Hb. reflexivity.
  - rewrite append_cons, !span_cons. destruct (isDigit x); cbn [fst];
      [now rewrite IH | reflexivity].
Qed.

Lemma references_append a b :
  endsDigits b -> references (a +:+ b) = references a ++ references b.
Proof.
  intros Hb. induction a as [|x a IH]; [reflexivity|].
  rewrite append_cons. cbn [references].
  rewrite span_digits_append, IH by exact Hb.
  destruct (Ascii.eqb x "$"); [|reflexivity].
  destruct (fst (Cache.span isDigit a)); reflexivity.
Qed.

(** A stretch without [$] holds no reference, whatever follows it. *)
Lemma references_skip a b : freeOf "$" a -> references (a +:+ b) = references b.
Proof.
  unfold freeOf. induction a as [|x a IH]; [reflexivity|].
  rewrite append_cons. cbn [references countChar].
  destruct (Ascii.eqb x "$"); [discriminate|]. exact IH.
Qed.

Lemma references_free a : freeOf "$" a -> references a = [].
Proof.
  intros H. rewrite <- (append_nil_r a). now rewrite references_skip.
Qed.

Lemma string_of_uint_digits u : allDigits (NilEmpty.string_of_uint u).
Proof. induction u; cbn; auto. Qed.

Lemma allDigits_span s : allDigits s -> Cache.span isDigit s = (s, EmptyString).
Proof.
  induction s as [|x s IH]; [reflexivity|]. intros [Hx Hs].
  rewrite span_cons, Hx, (IH Hs). reflexivity.
Qed.

Lemma allDigits_free s : allDigits s -> freeOf "$" s.
Proof.
  unfold freeOf. induction s as [|x s IH]; [reflexivity|]. intros [Hx Hs].
  cbn [countChar]. rewrite (IH Hs).
  destruct (Ascii.eqb x "$") eqn:E; [|reflexivity].
  apply Ascii.eqb_eq in E. subst x. discriminate Hx.
Qed.

Lemma digitsValue_natToString n : digitsValue (natToString n) = n.
Proof.
  unfold digitsValue, natToString. now rewrite NilEmpty.usu, Unsigned.of_to.
Qed.

Lemma natToString_nonempty n : natToString n <> EmptyString.
Proof.
  intros E. pose proof (digitsValue_natToString n) as H. rewrite E in H.
  cbn in H. subst n. discriminate E.
Qed.

(** [$n] reads back as [n]. *)
Lemma references_ref n : references (Pg.ref n) = [n].
Proof.
  unfold Pg.ref. rewrite append_cons, append_nil_l. cbn [references].
  pose proof (string_of_uint_digits (Nat.to_uint n)) as Hd.
  fold (natToString n) in Hd.
  rewrite (Ascii.eqb_refl "$"), (allDigits_span _ Hd). cbn [fst].
  rewrite (references_free _ (allDigits_free _ Hd)).
  destruct (natToString n) eqn:E; [now apply natToString_nonempty in E|].
  rewrite <- E, digitsValue_natToString. reflexivity.
Qed.

Lemma references_join x sep l :
  isDigit x = false -> freeOf "$" (String x sep) ->
  references (join (String x sep) l) = referencesAll l.
Proof.
  intros Hx Hsep. induction l as [|a l IH]; [reflexivity|].
  destruct l as [|b l].
  - unfold referencesAll. cbn. now rewrite app_nil_r.
  - rewrite join_cons, references_append by exact Hx.
    rewrite references_skip, IH by exact Hsep. reflexivity.
Qed.

Lemma referencesAll_app l1 l2 :
  referencesAll (l1 ++ l2) = referencesAll l1 ++ referencesAll l2.
Proof. unfold referencesAll. now rewrite List.map_app, List.concat_app. Qed.

Lemma referencesAll_cons x l :
  referencesAll (x :: l) = references x ++ referencesAll l.
Proof. reflexivity. Qed.

Lemma referencesAll_free l : total "$" l = 0 -> referencesAll l = [].
Proof.
  induction l as [|x l IH]; [reflexivity|].
  rewrite total_cons, referencesAll_cons. intros H.
  rewrite references_free, IH; [reflexivity| |unfold freeOf]; lia.
Qed.

Lemma pg_clauses_references i n preds :
  Forall (predicateFree "$") preds ->
  referencesAll (Pg.predicateClauses i n preds) = seq n (length preds).
Proof.
  intros H. revert i n.
  induction H as [|p preds (Hc & Ho & Hb) _ IH]; intros i n; [reflexivity|].
  cbn [Pg.predicateClauses length seq]. rewrite referencesAll_cons, IH.
  destruct (Nat.eqb i 0);
    rewrite !references_skip, references_ref by (assumption || reflexivity);
    reflexivity.
Qed.

(** Each clause of a predicate holds its own reference. *)
Lemma pg_clauses_each i n preds :
  Forall (predicateFree "$") preds ->
  List.map references (Pg.predicateClauses i n preds)
  = List.map (fun j => [j]) (seq n (length preds)).
Proof.
  intros H. revert i n.
  induction H as [|p preds (Hc & Ho & Hb) _ IH]; intros i n; [reflexivity|].
  cbn [Pg.predicateClauses length seq List.map]. rewrite IH. f_equal.
  destruct (Nat.eqb i 0);
    rewrite !references_skip, references_ref by (assumption || reflexivity);
    reflexivity.
Qed.

Lemma pg_joins_total js :
  Forall (joinFree "$") js -> total "$" (List.map Pg.joinPart js) = 0.
Proof.
  apply total_map_free. intros j (Ht & Hf & Ho & Hs).
  unfold Pg.joinPart, freeOf in *.
  rewrite !countChar_append, Ht, Hf, Ho, Hs.
  unfold Pg.joinKeyword.
  destruct (String.eqb (j_type j) "left"), (String.eqb (j_type j) "right"),
    (String.eqb (j_type j) "full"); reflexivity.
Qed.

Lemma predicateSeg_references kw clauses :
  freeOf "$" kw ->
  referencesAll (predicateSeg kw clauses) = referencesAll clauses.
Proof.
  intros Hkw. destruct clauses as [|x l]; [reflexivity|].
  unfold predicateSeg. rewrite referencesAll_cons, references_skip by exact Hkw.
  rewrite (references_join " " "") by reflexivity. apply app_nil_r.
Qed.

Lemma pgLimitSeg_references st n :
  referencesAll (pgLimitSeg st n) = seq n (length (pgLimitValues st)).
Proof.
  unfold pgLimitSeg, pgLimitValues.
  destruct (st_limit st), (st_offset st);
    rewrite ?referencesAll_cons, ?references_skip, ?references_ref
      by reflexivity; reflexivity.
Qed.

(** The compiled PostgreSQL text holds the references [$1 .. $n], in this
    order, [n] being the number of bindings. *)
Lemma pg_select_references tableName st parts params :
  Forall (freeOf "$") (identifiers tableName st) ->
  Pg.selectParts tableName st = (parts, params) ->
  references (join " " parts) = seq 1 (length params).
Proof.
  intros H E. rewrite pg_selectParts_shape in E. injection E as <- <-.
  apply identifiers_free in H as (Ht & Hs & Hj & Hw & Hg & Hh & Ho).
  rewrite (references_join " " "") by reflexivity.
  repeat (rewrite referencesAll_cons || rewrite referencesAll_app).
  rewrite !predicateSeg_references, !pg_clauses_references,
    pgLimitSeg_references by (assumption || reflexivity).
  rewrite (referencesAll_free (selectSeg st)),
    (referencesAll_free (List.map _ _)), (referencesAll_free (groupSeg st)),
    (referencesAll_free (orderSeg st))
    by (first [apply selectSeg_total | apply pg_joins_total
              | apply groupSeg_total | apply orderSeg_total];
        (assumption || (right; reflexivity))).
  rewrite references_skip, !references_free by (assumption || reflexivity).
  cbn [app]. unfold values.
  rewrite !length_app, !length_map, !seq_app. reflexivity.
Qed.

End PgReferences.

(** ** The claims on the query compilers *)

(** C1, as the claim states it, fails: a SELECT with no WHERE predicate
    (k = 0), one HAVING predicate, a LIMIT and an OFFSET compiles to three
    placeholders and three parameters, not k + 2 = 2. (And a [?] inside an
    identifier is one more [?] in the text: with k = 1 the text below has
    four of them for three parameters.) *)
Lemma C1_having_adds_placeholders :
  Sqlite.compileSelect "orders"
    {| st_select := None; st_where := []; st_join := []; st_orderBy := [];
       st_limit := Some (VNum 10); st_offset := Some (VNum 20);
       st_groupBy := ["status"];
       st_having := [mkPredicate "total" ">" (VNum 5) "AND"] |}
  = (Ok {| sql := "SELECT * FROM orders GROUP BY status HAVING total > ? LIMIT ? OFFSET ?";
           bindings := [VNum 5; VNum 10; VNum 20] |}, [])
  /\ questionMarks
       "SELECT * FROM orders GROUP BY status HAVING total > ? LIMIT ? OFFSET ?" = 3
  /\ length [VNum 5; VNum 10; VNum 20] <> 0 + 2
  /\ Sqlite.compileSelect "users"
       {| st_select := None;
          st_where := [mkPredicate "admin?" "=" (VBool true) "AND"];
          st_join := []; st_orderBy := [];
          st_limit := Some (VNum 10); st_offset := Some (VNum 20);
          st_groupBy := []; st_having := [] |}
     = (Ok {| sql := "SELECT * FROM users WHERE admin? = ? LIMIT ? OFFSET ?";
              bindings := [VBool true; VNum 10; VNum 20] |}, [])
  /\ questionMarks "SELECT * FROM users WHERE admin? = ? LIMIT ? OFFSET ?"
     <> 1 + 2.
Proof. repeat split; vm_compute; congruence. Qed.

(** C1 (amended): for every SELECT, the parameters are the values of the
    WHERE predicates, then those of the HAVING predicates, then LIMIT, then
    OFFSET (SQLite renders and binds OFFSET only under a LIMIT), and the
    text is, in this order, the head (SELECT, FROM and the joins), the WHERE
    clause, the GROUP BY clause, the HAVING clause, the ORDER BY clause and
    the LIMIT and OFFSET clauses. When no identifier holds a placeholder
    character, each placeholder stands in the clause that owns its
    parameter: of the SQLite text the WHERE clause holds k [?], the HAVING
    clause h, one per predicate, the LIMIT and OFFSET clauses one per value
    they bind and the other clauses none; of the PostgreSQL text the WHERE
    clause holds the references [$1 .. $k], the HAVING clause
    [$k+1 .. $k+h], one per predicate, the LIMIT and OFFSET clauses the
    following ones and the other clauses none; so the
    SQLite text has one [?] per parameter and the PostgreSQL text the
    references [$1 .. $n] in order. With k WHERE predicates, h HAVING
    predicates, a LIMIT and an OFFSET there are k + h + 2 parameters. *)
Theorem C1_select_parameters_in_clause_order
    (tableName : string) (st : Statements) :
  exists lite warnings pg,
    Sqlite.compileSelect tableName st = (Ok lite, warnings) /\
    Pg.compileSelect tableName st = Ok pg /\
    bindings lite =
      values (st_where st) ++ values (st_having st) ++ sqliteLimitValues st /\
    bindings pg =
      values (st_where st) ++ values (st_having st) ++ pgLimitValues st /\
    let k := length (st_where st) in
    let h := length (st_having st) in
    let headLite :=
      "SELECT" :: selectSeg st ++ ["FROM " +:+ tableName]
        ++ fst (Sqlite.compileJoins (st_join st)) in
    let whereLite :=
      predicateSeg "WHERE " (Sqlite.predicateClauses 0 (st_where st)) in
    let havingLite :=
      predicateSeg "HAVING " (Sqlite.predicateClauses 0 (st_having st)) in
    let headPg :=
      "SELECT" :: selectSeg st ++ ["FROM " +:+ tableName]
        ++ List.map Pg.joinPart (st_join st) in
    let wherePg :=
      predicateSeg "WHERE " (Pg.predicateClauses 0 1 (st_where st)) in
    let havingPg :=
      predicateSeg "HAVING " (Pg.predicateClauses 0 (1 + k) (st_having st)) in
    let limitPg := pgLimitSeg st (1 + k + h) in
    sql lite =
      join " " (headLite ++ whereLite ++ groupSeg st ++ havingLite
                  ++ orderSeg st ++ sqliteLimitSeg st) /\
    sql pg =
      join " " (headPg ++ wherePg ++ groupSeg st ++ havingPg
                  ++ orderSeg st ++ limitPg) /\
    (Forall (freeOf "?") (identifiers tableName st) ->
       total "?" headLite = 0 /\
       total "?" whereLite = k /\
       List.map (countChar "?") (Sqlite.predicateClauses 0 (st_where st))
       = List.map (fun _ => 1) (st_where st) /\
       total "?" (groupSeg st) = 0 /\
       total "?" havingLite = h /\
       List.map (countChar "?") (Sqlite.predicateClauses 0 (st_having st))
       = List.map (fun _ => 1) (st_having st) /\
       total "?" (orderSeg st) = 0 /\
       total "?" (sqliteLimitSeg st) = length (sqliteLimitValues st) /\
       questionMarks (sql lite) = length (bindings lite)) /\
    (Forall (freeOf "$") (identifiers tableName st) ->
       referencesAll headPg = [] /\
       referencesAll wherePg = seq 1 k /\
       List.map references (Pg.predicateClauses 0 1 (st_where st))
       = List.map (fun i => [i]) (seq 1 k) /\
       referencesAll (groupSeg st) = [] /\
       referencesAll havingPg = seq (1 + k) h /\
       List.map references (Pg.predicateClauses 0 (1 + k) (st_having st))
       = List.map (fun i => [i]) (seq (1 + k) h) /\
       referencesAll (orderSeg st) = [] /\
       referencesAll limitPg = seq (1 + k + h) (length (pgLimitValues st)) /\
       references (sql pg) = seq 1 (length (bindings pg))) /\
    (forall l o, st_limit st = Some l -> st_offset st = Some o ->
       sqliteLimitValues st = [l; o] /\ pgLimitValues st = [l; o] /\
       sqliteLimitSeg st = ["LIMIT ?"; "OFFSET ?"] /\
       limitPg = ["LIMIT " +:+ Pg.ref (1 + k + h);
                  "OFFSET " +:+ Pg.ref (2 + k + h)] /\
       length (bindings lite) = k + h + 2 /\
       length (bindings pg) = k + h + 2).
Proof.
  unfold Sqlite.compileSelect, Pg.compileSelect.
  rewrite sqlite_selectParts_shape, pg_selectParts_shape.
  eexists _, _, _. split; [reflexivity|]. split; [reflexivity|].
  cbn [sql bindings]. split; [reflexivity|]. split; [reflexivity|].
  cbv zeta. split; [|split; [|split; [|split]]].
  - cbn [app]. now rewrite <- !app_assoc.
  - cbn [app]. now rewrite <- !app_assoc.
  - intros Hq.
    pose proof (sqlite_select_marks tableName st _ _ _ Hq
                  (sqlite_selectParts_shape tableName st)) as Hall.
    apply identifiers_free in Hq as (Ht & Hs & Hj & Hw & Hg & Hh & Ho).
    repeat split.
    + rewrite total_cons, !total_app, total_cons.
      rewrite selectSeg_total, sqlite_joins_marks
        by (assumption || (left; reflexivity)).
      rewrite countChar_append. unfold freeOf in Ht. rewrite Ht. reflexivity.
    + rewrite predicateSeg_marks by reflexivity.
      now apply sqlite_clauses_marks.
    + now apply sqlite_clauses_each.
    + apply groupSeg_total; [left; reflexivity | assumption].
    + rewrite predicateSeg_marks by reflexivity.
      now apply sqlite_clauses_marks.
    + now apply sqlite_clauses_each.
    + apply orderSeg_total; [left; reflexivity | assumption].
    + apply sqliteLimitSeg_marks.
    + exact Hall.
  - intros Hd.
    pose proof (pg_select_references tableName st _ _ Hd
                  (pg_selectParts_shape tableName st)) as Hall.
    apply identifiers_free in Hd as (Ht & Hs & Hj & Hw & Hg & Hh & Ho).
    repeat split.
    + rewrite referencesAll_cons, !referencesAll_app, referencesAll_cons.
      rewrite (referencesAll_free (selectSeg st)),
        (referencesAll_free (List.map _ _))
        by (first [apply selectSeg_total | apply pg_joins_total];
            (assumption || (right; reflexivity))).
      rewrite references_skip, !references_free by (assumption || reflexivity).
      reflexivity.
    + rewrite predicateSeg_references by reflexivity.
      now apply pg_clauses_references.
    + now apply pg_clauses_each.
    + apply referencesAll_free, groupSeg_total; [right; reflexivity | assumption].
    + rewrite predicateSeg_references by reflexivity.
      now apply pg_clauses_references.
    + now apply pg_clauses_each.
    + apply referencesAll_free, orderSeg_total; [right; reflexivity | assumption].
    + apply pgLimitSeg_references.
    + exact Hall.
  - intros l o Hl Ho.
    unfold sqliteLimitValues, pgLimitValues, sqliteLimitSeg, pgLimitSeg, values.
    rewrite Hl, Ho, !length_app, !length_map. cbn. repeat split; lia.
Qed.

(** C1, on a SELECT with one WHERE predicate, one HAVING predicate, a LIMIT
    and an OFFSET. *)
Lemma C1_select_parameters_witness :
  exists lite warnings pg,
    Sqlite.compileSelect "users"
      {| st_select := Some ["id"; "name"];
         st_where := [mkPredicate "id" "=" (VNum 1) "AND"];
         st_join := []; st_orderBy := [mkOrder "name" "asc"];
         st_limit := Some (VNum 10); st_offset := Some (VNum 20);
         st_groupBy := ["name"];
         st_having := [mkPredicate "age" ">" (VNum 5) "AND"] |}
    = (Ok lite, warnings) /\
    Pg.compileSelect "users"
      {| st_select := Some ["id"; "name"];
         st_where := [mkPredicate "id" "=" (VNum 1) "AND"];
         st_join := []; st_orderBy := [mkOrder "name" "asc"];
         st_limit := Some (VNum 10); st_offset := Some (VNum 20);
         st_groupBy := ["name"];
         st_having := [mkPredicate "age" ">" (VNum 5) "AND"] |}
    = Ok pg /\
    bindings lite = [VNum 1; VNum 5; VNum 10; VNum 20] /\
    bindings pg = [VNum 1; VNum 5; VNum 10; VNum 20] /\
    sql lite = "SELECT id, name FROM users WHERE id = ? GROUP BY name HAVING age > ? ORDER BY name ASC LIMIT ? OFFSET ?" /\
    sql pg = "SELECT id, name FROM users WHERE id = $1 GROUP BY name HAVING age > $2 ORDER BY name ASC LIMIT $3 OFFSET $4" /\
    questionMarks (sql lite) = 4 /\ references (sql pg) = [1; 2; 3; 4].
Proof.
  destruct (C1_select_parameters_in_clause_order "users"
      {| st_select := Some ["id"; "name"];
         st_where := [mkPredicate "id" "=" (VNum 1) "AND"];
         st_join := []; st_orderBy := [mkOrder "name" "asc"];
         st_limit := Some (VNum 10); st_offset := Some (VNum 20);
         st_groupBy := ["name"];
         st_having := [mkPredicate "age" ">" (VNum 5) "AND"] |})
    as (lite & warnings & pg & E1 & E2 & B1 & B2 & T1 & T2 & Q & R & _).
  exists lite, warnings, pg.
  destruct Q as (_ & _ & _ & _ & _ & _ & _ & _ & Q); [repeat constructor|].
  destruct R as (_ & _ & _ & _ & _ & _ & _ & _ & R); [repeat constructor|].
  rewrite Q, R, B1, B2.
  repeat split; assumption.
Defined.

Lemma sqlite_clauses_tail i preds :
  Sqlite.predicateClauses (S i) preds =
  List.map (fun p => p_boolean p +:+ " " +:+ p_column p +:+ " " +:+
                     p_operator p +:+ " ?") preds.
Proof.
  revert i. induction preds as [|p preds IH]; intros i; [reflexivity|].
  cbn [Sqlite.predicateClauses List.map Nat.eqb]. now rewrite IH.
Qed.

Lemma pg_clauses_tail i n preds :
  Pg.predicateClauses (S i) n preds =
  imap (fun k p => p_boolean p +:+ " " +:+ p_column p +:+ " " +:+
                   p_operator p +:+ " " +:+ Pg.ref (n + k)) preds.
Proof.
  revert i n. induction preds as [|p preds IH]; intros i n; [reflexivity|].
  cbn [Pg.predicateClauses Nat.eqb]. rewrite imap_cons, Nat.add_0_r, IH.
  f_equal. apply imap_ext. intros k x _. cbn.
  now rewrite Nat.add_succ_r.
Qed.

Lemma In_occursIn_sql x parts : In x parts -> occursIn x (join " " parts).
Proof. apply occursIn_join. Qed.

(** C5: in a non-empty WHERE or HAVING list, predicate 0 renders as
    [column operator placeholder] and every later predicate as
    [connective column operator placeholder]; the clause is the keyword and
    these joined by spaces, it occurs in the compiled text, and the values of
    the predicates are bound in list order (WHERE first, then HAVING). *)
Theorem C5_predicates_render_in_list_order (p0 : Predicate) (rest : list Predicate) :
  Sqlite.predicateClauses 0 (p0 :: rest) =
    (p_column p0 +:+ " " +:+ p_operator p0 +:+ " ?")
    :: List.map (fun p => p_boolean p +:+ " " +:+ p_column p +:+ " " +:+
                          p_operator p +:+ " ?") rest
  /\ (forall n,
      Pg.predicateClauses 0 n (p0 :: rest) =
        (p_column p0 +:+ " " +:+ p_operator p0 +:+ " " +:+ Pg.ref n)
        :: imap (fun k p => p_boolean p +:+ " " +:+ p_column p +:+ " " +:+
                            p_operator p +:+ " " +:+ Pg.ref (S n + k)) rest)
  /\ (forall tableName st, exists lite warnings pg,
      Sqlite.compileSelect tableName st = (Ok lite, warnings) /\
      Pg.compileSelect tableName st = Ok pg /\
      (exists others, bindings lite
         = values (st_where st) ++ values (st_having st) ++ others) /\
      (exists others, bindings pg
         = values (st_where st) ++ values (st_having st) ++ others) /\
      (st_where st = p0 :: rest ->
         occursIn ("WHERE " +:+ join " " (Sqlite.predicateClauses 0 (p0 :: rest)))
                  (sql lite) /\
         occursIn ("WHERE " +:+ join " " (Pg.predicateClauses 0 1 (p0 :: rest)))
                  (sql pg)) /\
      (st_having st = p0 :: rest ->
         occursIn ("HAVING " +:+ join " " (Sqlite.predicateClauses 0 (p0 :: rest)))
                  (sql lite) /\
         occursIn ("HAVING " +:+
                   join " " (Pg.predicateClauses 0 (1 + length (st_where st))
                                                 (p0 :: rest)))
                  (sql pg))).
Proof.
  split; [|split].
  - cbn [Sqlite.predicateClauses Nat.eqb]. now rewrite sqlite_clauses_tail.
  - intros n. cbn [Pg.predicateClauses Nat.eqb]. now rewrite pg_clauses_tail.
  - intros tableName st.
    unfold Sqlite.compileSelect, Pg.compileSelect.
    rewrite sqlite_selectParts_shape, pg_selectParts_shape.
    eexists _, _, _. split; [reflexivity|]. split; [reflexivity|].
    cbn [sql bindings].
    split; [eexists; reflexivity|]. split; [eexists; reflexivity|].
    split; intros E; rewrite E; split; apply In_occursIn_sql;
      cbn [predicateSeg Sqlite.predicateClauses Pg.predicateClauses];
      repeat (cbn [In]; rewrite ?List.in_app_iff); tauto.
Qed.

(** C5, on [WHERE id = ... OR name = ...]. *)
Lemma C5_predicates_render_witness :
  exists lite warnings pg,
    Sqlite.compileSelect "users"
      {| st_select := None;
         st_where := [mkPredicate "id" "=" (VNum 1) "AND";
                      mkPredicate "name" "=" (VStr "x") "OR"];
         st_join := []; st_orderBy := []; st_limit := None; st_offset := None;
         st_groupBy := []; st_having := [] |} = (Ok lite, warnings) /\
    Pg.compileSelect "users"
      {| st_select := None;
         st_where := [mkPredicate "id" "=" (VNum 1) "AND";
                      mkPredicate "name" "=" (VStr "x") "OR"];
         st_join := []; st_orderBy := []; st_limit := None; st_offset := None;
         st_groupBy := []; st_having := [] |} = Ok pg /\
    occursIn "WHERE id = ? OR name = ?" (sql lite) /\
    occursIn "WHERE id = $1 OR name = $2" (sql pg).
Proof.
  destruct (C5_predicates_render_in_list_order
              (mkPredicate "id" "=" (VNum 1) "AND")
              [mkPredicate "name" "=" (VStr "x") "OR"]) as (_ & _ & H).
  destruct (H "users"
      {| st_select := None;
         st_where := [mkPredicate "id" "=" (VNum 1) "AND";
                      mkPredicate "name" "=" (VStr "x") "OR"];
         st_join := []; st_orderBy := []; st_limit := None; st_offset := None;
         st_groupBy := []; st_having := [] |})
    as (lite & warnings & pg & E1 & E2 & _ & _ & Hw & _).
  destruct (Hw eq_refl) as [H1 H2].
  exists lite, warnings, pg. repeat split; assumption.
Defined.

Lemma sqlite_compileJoins_In j js :
  In j js ->
  In (Sqlite.joinPart j) (fst (Sqlite.compileJoins js)) /\
  forall w, In w (snd (Sqlite.joinKeyword (j_type j))) ->
            In w (snd (Sqlite.compileJoins js)).
Proof.
  induction js as [|j' js IH]; [intros []|].
  cbn [Sqlite.compileJoins]. destruct (Sqlite.compileJoins js) as [ps ws].
  cbn [fst snd] in *. intros [->|Hin].
  - split; [now left|]. intros w Hw. apply List.in_or_app. now left.
  - destruct (IH Hin) as [H1 H2]. split; [now right|].
    intros w Hw. apply List.in_or_app. right. now apply H2.
Qed.

(** What the join loop of the SQLite compiler pushes and prints, join by
    join. *)
Lemma sqlite_compileJoins_each (js : list Join) :
  Sqlite.compileJoins js =
    (List.map
       (fun j =>
          (if String.eqb (j_type j) "left" || String.eqb (j_type j) "right"
              || String.eqb (j_type j) "full"
           then "LEFT JOIN" else "JOIN") +:+ " " +:+ j_table j +:+ " ON " +:+
          j_first j +:+ " " +:+ j_operator j +:+ " " +:+ j_second j) js,
     List.concat
       (List.map
          (fun j =>
             if String.eqb (j_type j) "right"
             then ["SQLite ne supporte pas RIGHT JOIN, utilisation de LEFT JOIN à la place"]
             else if String.eqb (j_type j) "full"
             then ["SQLite ne supporte pas FULL JOIN, utilisation de LEFT JOIN à la place"]
             else []) js)).
Proof.
  induction js as [|j js IH]; [reflexivity|].
  cbn [Sqlite.compileJoins List.map List.concat]. rewrite IH.
  unfold Sqlite.joinPart, Sqlite.joinKeyword.
  destruct (String.eqb (j_type j) "left") eqn:El.
  - apply String.eqb_eq in El. rewrite El. reflexivity.
  - destruct (String.eqb (j_type j) "right"); [reflexivity|].
    destruct (String.eqb (j_type j) "full"); reflexivity.
Qed.

(** C6: a SELECT with a join of kind [right] or [full] compiles, for SQLite,
    without an error. Its text has one clause per join, in the order of the
    joins, between the FROM part and the WHERE part: a [LEFT JOIN] clause
    for a join of kind [left], [right] or [full] and a [JOIN] clause for
    any other, so that the [right] or [full] join is rendered by its LEFT
    JOIN clause and by nothing else. The console receives, in the order of
    the joins, one warning per join of kind [right] and one per join of
    kind [full], which names the substitution, and nothing more. *)
Theorem C6_sqlite_downgrades_right_and_full_join
    (tableName : string) (st : Statements) (j : Join) :
  In j (st_join st) ->
  j_type j = "right" \/ j_type j = "full" ->
  exists compiled warnings,
    Sqlite.compileSelect tableName st = (Ok compiled, warnings) /\
    sql compiled =
      join " "
        ("SELECT" :: selectSeg st ++ ["FROM " +:+ tableName]
           ++ List.map
                (fun j' =>
                   (if String.eqb (j_type j') "left"
                       || String.eqb (j_type j') "right"
                       || String.eqb (j_type j') "full"
                    then "LEFT JOIN" else "JOIN") +:+ " " +:+
                   j_table j' +:+ " ON " +:+ j_first j' +:+ " " +:+
                   j_operator j' +:+ " " +:+ j_second j')
                (st_join st)
           ++ predicateSeg "WHERE " (Sqlite.predicateClauses 0 (st_where st))
           ++ groupSeg st
           ++ predicateSeg "HAVING " (Sqlite.predicateClauses 0 (st_having st))
           ++ orderSeg st ++ sqliteLimitSeg st) /\
    warnings =
      List.concat
        (List.map
           (fun j' =>
              if String.eqb (j_type j') "right"
              then ["SQLite ne supporte pas RIGHT JOIN, utilisation de LEFT JOIN à la place"]
              else if String.eqb (j_type j') "full"
              then ["SQLite ne supporte pas FULL JOIN, utilisation de LEFT JOIN à la place"]
              else [])
           (st_join st)) /\
    occursIn ("LEFT JOIN " +:+ j_table j +:+ " ON " +:+ j_first j +:+ " " +:+
              j_operator j +:+ " " +:+ j_second j) (sql compiled) /\
    In (if String.eqb (j_type j) "right"
        then "SQLite ne supporte pas RIGHT JOIN, utilisation de LEFT JOIN à la place"
        else "SQLite ne supporte pas FULL JOIN, utilisation de LEFT JOIN à la place")
       warnings.
Proof.
  intros Hin Hty.
  unfold Sqlite.compileSelect. rewrite sqlite_selectParts_shape.
  eexists _, _. split; [reflexivity|]. cbn [sql].
  destruct (sqlite_compileJoins_In j (st_join st) Hin) as [Hpart Hwarn].
  assert (Sqlite.joinKeyword (j_type j) =
          ("LEFT JOIN",
           [if String.eqb (j_type j) "right"
            then "SQLite ne supporte pas RIGHT JOIN, utilisation de LEFT JOIN à la place"
            else "SQLite ne supporte pas FULL JOIN, utilisation de LEFT JOIN à la place"]))
    as Hkw
    by (destruct Hty as [-> | ->]; reflexivity).
  split; [|split; [|split]].
  - now rewrite sqlite_compileJoins_each.
  - now rewrite sqlite_compileJoins_each.
  - apply In_occursIn_sql. unfold Sqlite.joinPart in Hpart.
    rewrite Hkw in Hpart. cbn [fst] in Hpart.
    change ("LEFT JOIN" +:+ " " +:+ ?x) with ("LEFT JOIN " +:+ x) in Hpart.
    repeat (cbn [In]; rewrite ?List.in_app_iff). tauto.
  - apply Hwarn. rewrite Hkw. now left.
Qed.

(** C6, on [orders RIGHT JOIN users]. *)
Lemma C6_sqlite_downgrade_witness :
  Sqlite.compileSelect "orders"
    {| st_select := None; st_where := [];
       st_join := [mkJoin "right" "users" "orders.user_id" "=" "users.id"];
       st_orderBy := []; st_limit := None; st_offset := None;
       st_groupBy := []; st_having := [] |}
  = (Ok {| sql := "SELECT * FROM orders LEFT JOIN users ON orders.user_id = users.id";
           bindings := [] |},
     ["SQLite ne supporte pas RIGHT JOIN, utilisation de LEFT JOIN à la place"]).
Proof.
  destruct (C6_sqlite_downgrades_right_and_full_join "orders"
      {| st_select := None; st_where := [];
         st_join := [mkJoin "right" "users" "orders.user_id" "=" "users.id"];
         st_orderBy := []; st_limit := None; st_offset := None;
         st_groupBy := []; st_having := [] |}
      (mkJoin "right" "users" "orders.user_id" "=" "users.id"))
    as (compiled & warnings & E & Htext & Hwarn & _).
  - left. reflexivity.
  - left. reflexivity.
  - rewrite E. vm_compute in E. injection E as <- <-. reflexivity.
Defined.

(** C9, as the claim states it, fails for PostgreSQL: with an offset and no
    limit the compiled text has an OFFSET clause and the offset is bound. *)
Lemma C9_pg_offset_without_limit :
  Pg.compileSelect "users"
    {| st_select := None; st_where := []; st_join := []; st_orderBy := [];
       st_limit := None; st_offset := Some (VNum 20);
       st_groupBy := []; st_having := [] |}
  = Ok {| sql := "SELECT * FROM users OFFSET $1"; bindings := [VNum 20] |}.
Proof. vm_compute. reflexivity. Qed.

(** C9 (amended): with an offset set and no limit, the SQLite compiler
    renders no LIMIT and no OFFSET part, binds nothing for the offset and
    compiles as if the offset were unset; the PostgreSQL compiler renders
    [OFFSET $n], [n] being the next free reference, and binds the offset
    last. *)
Theorem C9_offset_without_limit
    (tableName : string) (st : Statements) (o : jsval) :
  st_limit st = None ->
  st_offset st = Some o ->
  Sqlite.compileSelect tableName st
    = Sqlite.compileSelect tableName (withoutOffset st) /\
  Sqlite.selectParts tableName st =
    ("SELECT" :: selectSeg st ++ ["FROM " +:+ tableName]
       ++ fst (Sqlite.compileJoins (st_join st))
       ++ predicateSeg "WHERE " (Sqlite.predicateClauses 0 (st_where st))
       ++ groupSeg st
       ++ predicateSeg "HAVING " (Sqlite.predicateClauses 0 (st_having st))
       ++ orderSeg st,
     values (st_where st) ++ values (st_having st),
     snd (Sqlite.compileJoins (st_join st))) /\
  exists pg,
    Pg.compileSelect tableName st = Ok pg /\
    occursIn ("OFFSET " +:+
              Pg.ref (1 + length (st_where st) + length (st_having st)))
             (sql pg) /\
    bindings pg = values (st_where st) ++ values (st_having st) ++ [o].
Proof.
  intros Hl Ho. split; [|split].
  - unfold Sqlite.compileSelect. rewrite !sqlite_selectParts_shape.
    unfold sqliteLimitSeg, sqliteLimitValues, withoutOffset, selectSeg,
      groupSeg, orderSeg. cbn. rewrite Hl. reflexivity.
  - rewrite sqlite_selectParts_shape.
    unfold sqliteLimitSeg, sqliteLimitValues. rewrite Hl, !app_nil_r.
    reflexivity.
  - unfold Pg.compileSelect. rewrite pg_selectParts_shape.
    eexists. split; [reflexivity|]. cbn [sql bindings].
    unfold pgLimitSeg, pgLimitValues. rewrite Hl, Ho. split; [|reflexivity].
    apply In_occursIn_sql.
    repeat (cbn [In]; rewrite ?List.in_app_iff). tauto.
Qed.

(** C9, on a SELECT with an offset and no limit. *)
Lemma C9_offset_without_limit_witness :
  Sqlite.compileSelect "users"
    {| st_select := None; st_where := []; st_join := []; st_orderBy := [];
       st_limit := None; st_offset := Some (VNum 20);
       st_groupBy := []; st_having := [] |}
  = (Ok {| sql := "SELECT * FROM users"; bindings := [] |}, []).
Proof.
  rewrite (proj1 (C9_offset_without_limit "users"
    {| st_select := None; st_where := []; st_join := []; st_orderBy := [];
       st_limit := None; st_offset := Some (VNum 20);
       st_groupBy := []; st_having := [] |} (VNum 20) eq_refl eq_refl)).
  reflexivity.
Defined.

(** ** Failure conditions of the compilers *)

Lemma mysql_compileCreateTable_returns tableName columns constraints :
  exists compiled,
    Mysql.compileCreateTable tableName columns constraints = Ok compiled /\
    bindings compiled = [].
Proof. unfold Mysql.compileCreateTable. eexists. split; reflexivity. Qed.

(** The rows of an INSERT yield their values unless one of them is [null]
    or [undefined] while there is a column to read. *)
Lemma allValues_None (columns : list string) (rows : list (option jsobj)) :
  In None rows -> columns <> [] -> allValues columns rows = None.
Proof.
  intros Hin Hc. induction rows as [|row rows IH]; [destruct Hin|].
  cbn [allValues]. destruct Hin as [-> | Hin].
  - destruct columns; [congruence | reflexivity].
  - rewrite (IH Hin). now destruct (rowValues columns row).
Qed.

Lemma allValues_returns (columns : list string) (rows : list (option jsobj)) :
  ~ In None rows \/ columns = [] ->
  exists params, allValues columns rows = Some params.
Proof.
  intros H. induction rows as [|row rows IH]; [now exists []|].
  cbn [allValues].
  destruct IH as [more ->].
  { destruct H as [H | H]; [left | now right].
    intros Hin. apply H. now right. }
  destruct row as [o|]; cbn [rowValues]; [eexists; reflexivity|].
  destruct H as [H | ->]; [|eexists; reflexivity].
  exfalso. apply H. now left.
Qed.

Lemma allValues_objects (columns : list string) (rows : list jsobj) :
  allValues columns (List.map Some rows)
  = Some (List.concat
            (List.map (fun row => List.map (getProp row) columns) rows)).
Proof.
  induction rows as [|row rows IH]; [reflexivity|].
  cbn [List.map allValues rowValues List.concat]. now rewrite IH.
Qed.

(** C4, as the claim states it, fails on an unknown logical type: the MySQL
    schema compiler raises nothing and renders the column as VARCHAR(255). *)
Lemma C4_unknown_type_falls_back :
  Mysql.DATA_TYPES "geometry" = None /\
  Mysql.compileCreateTable "places"
    [{| c_name := "shape"; c_type := "geometry"; c_nullable := true;
        c_defaultValue := VUndefined; c_autoIncrement := false;
        c_length := VUndefined; c_precision := VUndefined;
        c_scale := VUndefined |}]
    {| primaryKey := None; unique := []; foreignKeys := [] |}
  = Ok {| sql := "CREATE TABLE places (shape VARCHAR(255)) ENGINE=InnoDB DEFAULT CHARSET=utf8mb4 COLLATE=utf8mb4_unicode_ci";
          bindings := [] |}.
Proof. split; vm_compute; reflexivity. Qed.

(** C4 (amended): in both query compilers an INSERT throws the error
    [Aucune donnée à insérer] when its row set is empty, and a TypeError of
    the engine (recorded under the message [TypeError]) when the first row
    is [null] or [undefined], or when a later row is and the first row has
    a column; in every other case it returns.
    An UPDATE throws exactly when its data object is missing or has no key.
    The outcome is the error alone or the compiled statement alone. A
    logical column type that [DATA_TYPES] does not have raises nothing:
    CREATE TABLE returns, and the column is rendered with the fallback type
    VARCHAR(255), except that a type named like a method of
    [Object.prototype] is rendered with no type at all and the type
    [__proto__] as [[object Object]]. *)
Theorem C4_compile_failures (tableName : string) :
  (forall data,
     (rowsOf data = [] ->
        Sqlite.compileInsert tableName data = Throw "Aucune donnée à insérer" /\
        Pg.compileInsert tableName data = Throw "Aucune donnée à insérer") /\
     (forall rest, rowsOf data = None :: rest ->
        Sqlite.compileInsert tableName data = Throw "TypeError" /\
        Pg.compileInsert tableName data = Throw "TypeError") /\
     (forall row0 rest, rowsOf data = Some row0 :: rest ->
        (In None rest /\ keys row0 <> [] ->
           Sqlite.compileInsert tableName data = Throw "TypeError" /\
           Pg.compileInsert tableName data = Throw "TypeError") /\
        (~ In None rest \/ keys row0 = [] ->
           exists lite pg, Sqlite.compileInsert tableName data = Ok lite /\
                           Pg.compileInsert tableName data = Ok pg))) /\
  (forall data whereStatements,
     (data = None \/ data = Some [] ->
        Sqlite.compileUpdate tableName data whereStatements
          = Throw "Aucune donnée à mettre à jour" /\
        Pg.compileUpdate tableName data whereStatements
          = Throw "Aucune donnée à mettre à jour") /\
     (forall kv kvs, data = Some (kv :: kvs) ->
        exists lite pg,
          Sqlite.compileUpdate tableName data whereStatements = Ok lite /\
          Pg.compileUpdate tableName data whereStatements = Ok pg)) /\
  (forall columns constraints,
     exists compiled,
       Mysql.compileCreateTable tableName columns constraints = Ok compiled) /\
  (forall column,
     Mysql.isOwnType (c_type column) = false ->
     Mysql.compileColumn column =
       join " "
         ([c_name column] ++
          (if existsb (String.eqb (c_type column)) objectPrototypeMethods then []
           else if String.eqb (c_type column) "__proto__"
                then ["[object Object]"]
                else ["VARCHAR(255)"]) ++
          (if c_autoIncrement column then ["AUTO_INCREMENT"] else []) ++
          (if c_nullable column then [] else ["NOT NULL"]) ++
          match c_defaultValue column with
          | VUndefined => []
          | VStr s => ["DEFAULT '" +:+ s +:+ "'"]
          | VNull => ["DEFAULT NULL"]
          | v => ["DEFAULT " +:+ toString v]
          end)).
Proof.
  split; [|split; [|split]].
  - intros data. split; [|split].
    + intros Hrows. unfold Sqlite.compileInsert, Pg.compileInsert.
      rewrite Hrows. split; reflexivity.
    + intros rest Hrows. unfold Sqlite.compileInsert, Pg.compileInsert.
      rewrite Hrows. split; reflexivity.
    + intros row0 rest Hrows. unfold Sqlite.compileInsert, Pg.compileInsert.
      rewrite Hrows. split.
      * intros [Hin Hk].
        rewrite (allValues_None (keys row0) (Some row0 :: rest))
          by (trivial || now right).
        split; reflexivity.
      * intros H.
        destruct (allValues_returns (keys row0) (Some row0 :: rest))
          as [params ->].
        { destruct H as [H | H]; [left | now right].
          intros [E | Hin]; [discriminate | contradiction]. }
        eexists _, _. split; reflexivity.
  - intros data whereStatements. split.
    + intros [-> | ->]; split; reflexivity.
    + intros kv kvs ->. unfold Sqlite.compileUpdate, Pg.compileUpdate.
      destruct whereStatements; eexists _, _; split; reflexivity.
  - intros columns constraints.
    destruct (mysql_compileCreateTable_returns tableName columns constraints)
      as (compiled & E & _). now exists compiled.
  - intros column Hty. unfold Mysql.compileColumn, Mysql.DATA_TYPES.
    unfold Mysql.isOwnType in Hty.
    apply orb_false_iff in Hty as [Hty Hnames].
    apply orb_false_iff in Hty as [Hs Hd]. rewrite Hs, Hd.
    destruct (Mysql.assoc (c_type column) Mysql.typeNames); [discriminate|].
    unfold Mysql.objectPrototypeMethods.
    destruct (existsb (String.eqb (c_type column)) objectPrototypeMethods);
      [|destruct (String.eqb (c_type column) "__proto__")];
      destruct (c_autoIncrement column), (c_nullable column),
        (c_defaultValue column);
      reflexivity.
Qed.

(** C4, on an empty row array, a [null] row, a row object, an empty data
    object and three types that [DATA_TYPES] does not have. *)
Lemma C4_compile_failures_witness :
  Sqlite.compileInsert "users" (ManyRows []) = Throw "Aucune donnée à insérer" /\
  Pg.compileInsert "users" (OneRow None) = Throw "TypeError" /\
  Sqlite.compileInsert "users" (ManyRows [Some [("id", VNum 1)]; None])
    = Throw "TypeError" /\
  (exists lite pg,
     Sqlite.compileInsert "users" (ManyRows [Some []; None]) = Ok lite /\
     Pg.compileInsert "users" (ManyRows [Some []; None]) = Ok pg) /\
  Pg.compileUpdate "users" (Some []) [] = Throw "Aucune donnée à mettre à jour" /\
  (exists lite pg,
     Sqlite.compileUpdate "users" (Some [("name", VStr "Ann")]) [] = Ok lite /\
     Pg.compileUpdate "users" (Some [("name", VStr "Ann")]) [] = Ok pg) /\
  Mysql.compileColumn
    {| c_name := "shape"; c_type := "geometry"; c_nullable := false;
       c_defaultValue := VUndefined; c_autoIncrement := false;
       c_length := VUndefined; c_precision := VUndefined;
       c_scale := VUndefined |} = "shape VARCHAR(255) NOT NULL" /\
  Mysql.compileColumn
    {| c_name := "shape"; c_type := "toString"; c_nullable := false;
       c_defaultValue := VUndefined; c_autoIncrement := false;
       c_length := VUndefined; c_precision := VUndefined;
       c_scale := VUndefined |} = "shape NOT NULL" /\
  Mysql.compileColumn
    {| c_name := "shape"; c_type := "__proto__"; c_nullable := false;
       c_defaultValue := VUndefined; c_autoIncrement := false;
       c_length := VUndefined; c_precision := VUndefined;
       c_scale := VUndefined |} = "shape [object Object] NOT NULL".
Proof.
  destruct (C4_compile_failures "users") as (Hins & Hupd & _ & Hcol).
  repeat apply conj.
  - exact (proj1 (proj1 (Hins (ManyRows [])) eq_refl)).
  - exact (proj2 (proj1 (proj2 (Hins (OneRow None))) [] eq_refl)).
  - refine (proj1 (proj1 (proj2 (proj2 (Hins (ManyRows [Some [("id", VNum 1)]; None])))
                           [("id", VNum 1)] [None] eq_refl) _)).
    split; [now left | discriminate].
  - exact (proj2 (proj2 (proj2 (Hins (ManyRows [Some []; None])))
                    [] [None] eq_refl) (or_intror eq_refl)).
  - exact (proj2 (proj1 (Hupd (Some []) []) (or_intror eq_refl))).
  - exact (proj2 (Hupd (Some [("name", VStr "Ann")]) []) _ _ eq_refl).
  - exact (Hcol {| c_name := "shape"; c_type := "geometry"; c_nullable := false;
                   c_defaultValue := VUndefined; c_autoIncrement := false;
                   c_length := VUndefined; c_precision := VUndefined;
                   c_scale := VUndefined |} eq_refl).
  - exact (Hcol {| c_name := "shape"; c_type := "toString"; c_nullable := false;
                   c_defaultValue := VUndefined; c_autoIncrement := false;
                   c_length := VUndefined; c_precision := VUndefined;
                   c_scale := VUndefined |} eq_refl).
  - exact (Hcol {| c_name := "shape"; c_type := "__proto__"; c_nullable := false;
                   c_defaultValue := VUndefined; c_autoIncrement := false;
                   c_length := VUndefined; c_precision := VUndefined;
                   c_scale := VUndefined |} eq_refl).
Defined.

(** ** The fingerprint *)

Lemma hexBytes_length bytes :
  String.length (Md5.hexBytes bytes) = 2 * length bytes.
Proof.
  induction bytes as [|b bytes IH]; [reflexivity|].
  cbn [Md5.hexBytes String.length length]. rewrite IH. lia.
Qed.

(** A fingerprint is 32 hexadecimal characters, whatever it is taken of. *)
Lemma fingerprint_length sql bindings dialect :
  String.length (Cache.generateCacheKey sql bindings dialect) = 32.
Proof.
  unfold Cache.generateCacheKey, Md5.md5. rewrite hexBytes_length.
  rewrite !length_app. unfold Md5.le_bytes. rewrite !length_map, !length_seq.
  reflexivity.
Qed.

(** A fingerprint is written with the digits and the letters [a] to [f]. *)
Lemma hexDigit_hex x :
  (0 <= x < 16)%Z ->
  existsb (Ascii.eqb (Md5.hexDigit x)) (list_ascii_of_string "0123456789abcdef")
  = true.
Proof.
  intros H.
  assert (In x [0; 1; 2; 3; 4; 5; 6; 7; 8; 9; 10; 11; 12; 13; 14; 15]%Z) as Hin
    by (cbn [In]; lia).
  cbn [In] in Hin.
  repeat (destruct Hin as [<- | Hin]; [reflexivity|]). destruct Hin.
Qed.

Lemma hexBytes_hex bytes :
  Forall (fun b => 0 <= b < 256)%Z bytes ->
  allChars (fun c => existsb (Ascii.eqb c)
                             (list_ascii_of_string "0123456789abcdef"))
           (Md5.hexBytes bytes).
Proof.
  induction 1 as [|b bytes Hb _ IH]; [exact I|].
  cbn [Md5.hexBytes allChars]. split; [|split; [|exact IH]].
  - apply hexDigit_hex. rewrite Z.shiftr_div_pow2 by lia.
    change (2 ^ 4)%Z with 16%Z. split.
    + apply Z.div_pos; lia.
    + apply Z.div_lt_upper_bound; lia.
  - apply hexDigit_hex. change 15%Z with (Z.ones 4).
    rewrite Z.land_ones by lia. change (2 ^ 4)%Z with 16%Z.
    apply Z.mod_pos_bound. lia.
Qed.

Lemma le_bytes_range n x : Forall (fun b => 0 <= b < 256)%Z (Md5.le_bytes n x).
Proof.
  unfold Md5.le_bytes. apply List.Forall_forall. intros b Hin.
  apply List.in_map_iff in Hin as (k & <- & _).
  change 255%Z with (Z.ones 8). rewrite Z.land_ones by lia.
  change (2 ^ 8)%Z with 256%Z. apply Z.mod_pos_bound. lia.
Qed.

Lemma fingerprint_hex sql bindings dialect :
  allChars (fun c => existsb (Ascii.eqb c)
                             (list_ascii_of_string "0123456789abcdef"))
           (Cache.generateCacheKey sql bindings dialect).
Proof.
  unfold Cache.generateCacheKey, Md5.md5. apply hexBytes_hex.
  repeat (apply Forall_app; split); apply le_bytes_range.
Qed.

(** C7, as the claim states it, fails: a [null] and an [undefined] binding
    are different inputs with the same JSON text, hence the same digest. *)
Lemma C7_null_and_undefined_collide :
  [VNull] <> [VUndefined] /\
  Cache.generateCacheKey "SELECT * FROM users WHERE id = ?" [VNull] "sqlite"
  = Cache.generateCacheKey "SELECT * FROM users WHERE id = ?" [VUndefined] "sqlite".
Proof. split; [discriminate | reflexivity]. Qed.

(** C7 (amended): the fingerprint is a function of its three inputs, so equal
    inputs give equal digests. It is the MD5 digest (of RFC 1321, whose
    test vectors the model meets) of the JSON text of the object that holds
    the statement under [sql], the array of the bindings under [bindings]
    and the dialect under [dialect], in this order, written as 32 lower-case
    hexadecimal characters; so inputs with the same JSON text share a
    digest. The last four equations are fingerprints of statements whose
    JSON text holds every kind of binding and of escape. *)
Theorem C7_fingerprint_is_deterministic
    (sql1 sql2 : string) (bindings1 bindings2 : list jsval)
    (dialect1 dialect2 : string) :
  (sql1 = sql2 -> bindings1 = bindings2 -> dialect1 = dialect2 ->
   Cache.generateCacheKey sql1 bindings1 dialect1
   = Cache.generateCacheKey sql2 bindings2 dialect2) /\
  (Json.stringifyKey sql1 bindings1 dialect1
   = Json.stringifyKey sql2 bindings2 dialect2 ->
   Cache.generateCacheKey sql1 bindings1 dialect1
   = Cache.generateCacheKey sql2 bindings2 dialect2) /\
  String.length (Cache.generateCacheKey sql1 bindings1 dialect1) = 32 /\
  Cache.generateCacheKey sql1 bindings1 dialect1
  = Md5.md5 ("{" +:+ Json.quote "sql" +:+ ":" +:+ Json.quote sql1 +:+ "," +:+
             Json.quote "bindings" +:+ ":" +:+
             "[" +:+ join "," (List.map Json.stringifyElement bindings1) +:+ "]" +:+
             "," +:+ Json.quote "dialect" +:+ ":" +:+ Json.quote dialect1 +:+
             "}") /\
  allChars (fun c => existsb (Ascii.eqb c)
                             (list_ascii_of_string "0123456789abcdef"))
           (Cache.generateCacheKey sql1 bindings1 dialect1) /\
  Md5.md5 "" = "d41d8cd98f00b204e9800998ecf8427e" /\
  Md5.md5 "abc" = "900150983cd24fb0d6963f7d28e17f72" /\
  Md5.md5 "message digest" = "f96b697d7cb7938d525a2f31aaf161d0" /\
  Md5.md5 "12345678901234567890123456789012345678901234567890123456789012345678901234567890"
  = "57edf4a22be3c955ac49da2e2107b67a" /\
  Cache.generateCacheKey "" [] "" = "040acdc01a3d0e226e8b921c8e52d82f" /\
  Cache.generateCacheKey "SELECT * FROM users WHERE id = ?" [VNum 1] "sqlite"
  = "d37ac21dfcad06db04f515061fdf29bf" /\
  Cache.generateCacheKey
    ("SELECT " +:+ String Json.dquote "name" +:+ String Json.dquote "" +:+
     String (ascii_of_nat 10) "FROM café WHERE a = ? AND b = ?")
    [VStr ("l'" +:+ String Json.backslash (String Json.dquote "") +:+
           String (ascii_of_nat 9) "x");
     VBool true; VArr [VNull; VNum (-5)]]
    "pg"
  = "95a24c0434f704a6ecee3cdc6b53b347" /\
  Cache.generateCacheKey "x"
    [VUndefined; VBool false; VNum (10 ^ 21); VNum (2 ^ 1024);
     VMember "valueOf"; VMember "__proto__";
     VStr (String (ascii_of_nat 8)
             (String (ascii_of_nat 12)
                (String (ascii_of_nat 13)
                   (String (ascii_of_nat 1)
                      (String (ascii_of_nat 31)
                         (String (ascii_of_nat 127) ""))))));
     VArr []]
    "mssql"
  = "84388e6658b8078443977c0d18246373".
Proof.
  split; [|split; [|split; [|split; [|split]]]].
  - intros -> -> ->. reflexivity.
  - unfold Cache.generateCacheKey. intros ->. reflexivity.
  - apply fingerprint_length.
  - unfold Cache.generateCacheKey, Json.stringifyKey.
    change (Json.stringifyElement (VArr bindings1))
      with ("[" +:+ join "," (List.map Json.stringifyElement bindings1) +:+ "]").
    now rewrite !append_assoc.
  - apply fingerprint_hex.
  - repeat split; vm_compute; reflexivity.
Qed.

(** C7, on the fingerprint of a SELECT with one binding. *)
Lemma C7_fingerprint_witness :
  Cache.generateCacheKey "SELECT * FROM users WHERE id = ?" [VNum 1] "sqlite"
  = Cache.generateCacheKey "SELECT * FROM users WHERE id = ?" [VNum 1] "sqlite" /\
  String.length
    (Cache.generateCacheKey "SELECT * FROM users WHERE id = ?" [VNum 1] "sqlite")
  = 32.
Proof.
  pose proof (C7_fingerprint_is_deterministic
                "SELECT * FROM users WHERE id = ?"
                "SELECT * FROM users WHERE id = ?"
                [VNum 1] [VNum 1] "sqlite" "sqlite") as (H1 & _ & H3 & _).
  exact (conj (H1 eq_refl eq_refl eq_refl) H3).
Defined.

Example fingerprint_of_select :
  Cache.generateCacheKey "SELECT * FROM users WHERE id = ?" [VNum 1] "sqlite"
  = "d37ac21dfcad06db04f515061fdf29bf".
Proof. vm_compute. reflexivity. Qed.

(** ** Clearing the cache *)

(** C10: after [clear()], whatever the cache held, the store and the table
    index are empty and the four counters are zero, so [getStats()] reports
    zero hits, misses, sets, invalidations, total, hit rate and size (the
    capacity is kept). *)
Theorem C10_clear_resets_everything (qc : Cache.QueryCache) :
  Cache.cache (Cache.clear qc) = [] /\
  Cache.tableMap (Cache.clear qc) = ∅ /\
  Cache.stats (Cache.clear qc) = Cache.zeroStats /\
  Cache.getStats (Cache.clear qc) =
    {| Cache.r_hits := 0; Cache.r_misses := 0; Cache.r_sets := 0;
       Cache.r_invalidations := 0; Cache.r_total := 0; Cache.r_hitRate := 0;
       Cache.r_size := 0; Cache.r_maxSize := Cache.optMax qc |}.
Proof. repeat split. Qed.

(** ** The store and the table index *)

Section LruFacts.

Implicit Types (c : Lru.t) (k key : string) (v : jsval).

Lemma find_remove_eq key c : Lru.find key (Lru.remove key c) = None.
Proof.
  induction c as [|[k v] c IH]; [reflexivity|].
  cbn [Lru.remove]. destruct (String.eqb k key) eqn:E; [exact IH|].
  cbn [Lru.find]. now rewrite E.
Qed.

Lemma find_remove_ne key k c :
  key <> k -> Lru.find k (Lru.remove key c) = Lru.find k c.
Proof.
  intros Hne. induction c as [|[k' v] c IH]; [reflexivity|].
  cbn [Lru.remove Lru.find].
  destruct (String.eqb k' key) eqn:E.
  - apply String.eqb_eq in E. subst k'.
    destruct (String.eqb key k) eqn:E'; [|exact IH].
    apply String.eqb_eq in E'. contradiction.
  - cbn [Lru.find]. now rewrite IH.
Qed.

Lemma find_None_notin key c :
  Lru.find key c = None -> ~ In key (List.map fst c).
Proof.
  induction c as [|[k v] c IH]; [intros _ []|].
  cbn [Lru.find List.map fst In]. destruct (String.eqb k key) eqn:E;
    [discriminate|].
  apply String.eqb_neq in E. intros H [->|Hin]; [congruence | now apply IH].
Qed.

Lemma remove_notin key c :
  ~ In key (List.map fst c) -> Lru.remove key c = c.
Proof.
  induction c as [|[k v] c IH]; [reflexivity|].
  cbn [List.map fst In Lru.remove]. intros H.
  destruct (String.eqb k key) eqn:E.
  - apply String.eqb_eq in E. tauto.
  - rewrite IH; [reflexivity | tauto].
Qed.

Lemma remove_keys_subset key k c :
  In k (List.map fst (Lru.remove key c)) -> In k (List.map fst c).
Proof.
  induction c as [|[k' v] c IH]; [intros []|].
  cbn [Lru.remove]. destruct (String.eqb k' key); cbn [List.map fst In];
    tauto.
Qed.

Lemma remove_distinct key c : Lru.distinctKeys c -> Lru.distinctKeys (Lru.remove key c).
Proof.
  unfold Lru.distinctKeys. induction c as [|[k v] c IH]; [trivial|].
  cbn [Lru.remove List.map fst]. intros H.
  apply List.NoDup_cons_iff in H as [Hk Hc].
  destruct (String.eqb k key); [auto|].
  cbn [List.map fst]. apply List.NoDup_cons; [|auto].
  intros Hin. apply Hk. eapply remove_keys_subset. exact Hin.
Qed.

(** Deleting a key shortens a store of distinct keys by one exactly when the
    key is present. *)
Lemma remove_length key c :
  Lru.distinctKeys c ->
  length c = (if Lru.has key c then 1 else 0) + length (Lru.remove key c).
Proof.
  unfold Lru.distinctKeys, Lru.has. induction c as [|[k v] c IH]; [reflexivity|].
  cbn [Lru.remove Lru.find List.map fst length]. intros H.
  apply List.NoDup_cons_iff in H as [Hk Hc].
  destruct (String.eqb k key) eqn:E.
  - apply String.eqb_eq in E. subst k.
    rewrite (remove_notin key c Hk). reflexivity.
  - cbn [length]. rewrite (IH Hc). destruct (Lru.find key c); lia.
Qed.

Lemma find_removelast k v c :
  Lru.find k (removelast c) = Some v -> Lru.find k c = Some v.
Proof.
  induction c as [|[k' v'] c IH]; [discriminate|].
  destruct c as [|e c]; [discriminate|].
  change (removelast ((k', v') :: e :: c)) with ((k', v') :: removelast (e :: c)).
  cbn [Lru.find] in *. destruct (String.eqb k' k); [trivial | exact IH].
Qed.

Lemma removelast_keys_subset k c :
  In k (List.map fst (removelast c)) -> In k (List.map fst c).
Proof.
  induction c as [|e c IH]; [intros []|].
  destruct c as [|e' c]; [intros []|].
  change (removelast (e :: e' :: c)) with (e :: removelast (e' :: c)).
  cbn [List.map In] in *. tauto.
Qed.

Lemma removelast_distinct c : Lru.distinctKeys c -> Lru.distinctKeys (removelast c).
Proof.
  unfold Lru.distinctKeys. induction c as [|e c IH]; [trivial|].
  destruct c as [|e' c]; [intros _; constructor|].
  change (removelast (e :: e' :: c)) with (e :: removelast (e' :: c)).
  cbn [List.map]. intros H. apply List.NoDup_cons_iff in H as [Hk Hc].
  apply List.NoDup_cons; [|auto].
  intros Hin. apply Hk. exact (removelast_keys_subset _ (e' :: c) Hin).
Qed.

Lemma find_set_eq max key v c : Lru.find key (Lru.set max key v c) = Some v.
Proof.
  unfold Lru.set.
  destruct (Lru.has key c), ((0 <? max) && (max <=? length c));
    cbn [Lru.find]; now rewrite String.eqb_refl.
Qed.

(** Setting a key may evict another entry but adds none besides its own. *)
Lemma find_set_ne max key v k v' c :
  key <> k ->
  Lru.find k (Lru.set max key v c) = Some v' -> Lru.find k c = Some v'.
Proof.
  intros Hne. unfold Lru.set.
  assert (String.eqb key k = false) as E by now apply String.eqb_neq.
  destruct (Lru.has key c), ((0 <? max) && (max <=? length c));
    cbn [Lru.find]; rewrite E.
  - now rewrite find_remove_ne.
  - now rewrite find_remove_ne.
  - apply find_removelast.
  - trivial.
Qed.

Lemma set_distinct max key v c :
  Lru.distinctKeys c -> Lru.distinctKeys (Lru.set max key v c).
Proof.
  intros H. unfold Lru.set, Lru.has.
  destruct (Lru.find key c) eqn:F.
  - unfold Lru.distinctKeys. cbn [List.map fst]. apply List.NoDup_cons.
    + apply find_None_notin, find_remove_eq.
    + now apply remove_distinct.
  - apply find_None_notin in F.
    destruct ((0 <? max) && (max <=? length c)); unfold Lru.distinctKeys;
      cbn [List.map fst]; apply List.NoDup_cons; auto.
    + intros Hin. apply F. now apply removelast_keys_subset.
    + now apply removelast_distinct.
Qed.

Lemma find_get key k c : Lru.find k (snd (Lru.get key c)) = Lru.find k c.
Proof.
  unfold Lru.get. destruct (Lru.find key c) eqn:F; [|reflexivity].
  cbn [snd Lru.find]. destruct (String.eqb key k) eqn:E.
  - apply String.eqb_eq in E. now subst k.
  - apply String.eqb_neq in E. now apply find_remove_ne.
Qed.

Lemma get_distinct key c : Lru.distinctKeys c -> Lru.distinctKeys (snd (Lru.get key c)).
Proof.
  intros H. unfold Lru.get. destruct (Lru.find key c) eqn:F; [|exact H].
  cbn [snd]. unfold Lru.distinctKeys. cbn [List.map fst]. apply List.NoDup_cons.
  - apply find_None_notin, find_remove_eq.
  - now apply remove_distinct.
Qed.

End LruFacts.

Section InvalidationFacts.

Implicit Types (c : Lru.t) (k key table : string) (ks : list string)
  (tm : gmap string (gset string)).

Lemma deleteKeys_cons key ks c :
  Cache.deleteKeys (key :: ks) c =
  ((if Lru.has key c then 1 else 0) + fst (Cache.deleteKeys ks (Lru.remove key c)),
   snd (Cache.deleteKeys ks (Lru.remove key c))).
Proof.
  cbn [Cache.deleteKeys]. unfold Lru.delete.
  destruct (Cache.deleteKeys ks (Lru.remove key c)). reflexivity.
Qed.

Lemma deleteKeys_gone k ks c :
  Lru.find k c = None \/ k ∈ ks ->
  Lru.find k (snd (Cache.deleteKeys ks c)) = None.
Proof.
  revert c. induction ks as [|key ks IH]; intros c H.
  - destruct H as [H|H]; [exact H | now apply elem_of_nil in H].
  - rewrite deleteKeys_cons. cbn [snd]. apply IH.
    destruct (decide (key = k)) as [->|Hne].
    + left. apply find_remove_eq.
    + rewrite find_remove_ne by exact Hne.
      destruct H as [H|H]; [now left|].
      apply elem_of_cons in H as [->|H]; [contradiction | now right].
Qed.

Lemma deleteKeys_kept k ks c :
  k ∉ ks -> Lru.find k (snd (Cache.deleteKeys ks c)) = Lru.find k c.
Proof.
  revert c. induction ks as [|key ks IH]; intros c H; [reflexivity|].
  apply not_elem_of_cons in H as [Hne Hnin].
  rewrite deleteKeys_cons. cbn [snd]. rewrite IH by exact Hnin.
  apply find_remove_ne. congruence.
Qed.

(** The count [deleteKeys] returns is the number of entries it removed. *)
Lemma deleteKeys_count ks c :
  Lru.distinctKeys c ->
  Lru.distinctKeys (snd (Cache.deleteKeys ks c)) /\
  length c = fst (Cache.deleteKeys ks c) + length (snd (Cache.deleteKeys ks c)).
Proof.
  revert c. induction ks as [|key ks IH]; intros c H; [split; trivial|].
  rewrite deleteKeys_cons. cbn [fst snd].
  destruct (IH (Lru.remove key c) (remove_distinct key c H)) as [Hd Hl].
  split; [exact Hd|]. rewrite (remove_length key c H). lia.
Qed.

Lemma invalidateLoop_cons table rest c tm :
  Cache.invalidateLoop (table :: rest) c tm =
  match tm !! table with
  | Some cacheKeys =>
      let d := Cache.deleteKeys (elements cacheKeys) c in
      let r := Cache.invalidateLoop rest (snd d) (delete table tm) in
      (fst d + fst (fst r), snd (fst r), snd r)
  | None => Cache.invalidateLoop rest c tm
  end.
Proof.
  cbn [Cache.invalidateLoop]. destruct (tm !! table) as [cacheKeys|];
    [|reflexivity].
  destruct (Cache.deleteKeys (elements cacheKeys) c) as [n c1].
  cbn [fst snd].
  destruct (Cache.invalidateLoop rest c1 (delete table tm)) as [[m c2] tm2].
  reflexivity.
Qed.

(** The index after the loop: the entries of the listed tables are gone, the
    others are as they were. *)
Lemma invalidateLoop_index tableList c tm table :
  snd (Cache.invalidateLoop tableList c tm) !! table =
  if decide (table ∈ tableList) then None else tm !! table.
Proof.
  revert c tm. induction tableList as [|t rest IH]; intros c tm.
  - cbn. now rewrite decide_False by apply not_elem_of_nil.
  - rewrite invalidateLoop_cons. destruct (tm !! t) as [cacheKeys|] eqn:E.
    + cbn [snd]. rewrite IH.
      destruct (decide (table ∈ rest)) as [Hin|Hnin].
      * rewrite decide_True by (apply elem_of_cons; now right). reflexivity.
      * destruct (decide (table = t)) as [->|Hne].
        -- rewrite decide_True by (apply elem_of_cons; now left).
           apply lookup_delete_eq.
        -- rewrite decide_False by (rewrite elem_of_cons; tauto).
           now apply lookup_delete_ne.
    + rewrite IH.
      destruct (decide (table ∈ rest)) as [Hin|Hnin].
      * rewrite decide_True by (apply elem_of_cons; now right). reflexivity.
      * destruct (decide (table = t)) as [->|Hne].
        -- rewrite decide_True by (apply elem_of_cons; now left). exact E.
        -- rewrite decide_False by (rewrite elem_of_cons; tauto). reflexivity.
Qed.

Lemma invalidateLoop_gone tableList c tm k :
  Lru.find k c = None \/ Cache.registeredUnder tm tableList k ->
  Lru.find k (snd (fst (Cache.invalidateLoop tableList c tm))) = None.
Proof.
  revert c tm. induction tableList as [|t rest IH]; intros c tm H.
  - destruct H as [H|(table & ? & Hin & _)]; [exact H|].
    now apply elem_of_nil in Hin.
  - rewrite invalidateLoop_cons. destruct (tm !! t) as [cacheKeys|] eqn:E.
    + cbn [fst snd]. apply IH.
      destruct H as [H|(table & ks & Hin & Hks & Hk)].
      * left. apply deleteKeys_gone. now left.
      * destruct (decide (table = t)) as [->|Hne].
        -- left. apply deleteKeys_gone. right.
           apply elem_of_elements. congruence.
        -- right. exists table, ks. split; [|split; [|exact Hk]].
           ++ apply elem_of_cons in Hin as [?|?]; [contradiction | trivial].
           ++ rewrite lookup_delete_ne by congruence. exact Hks.
    + apply IH. destruct H as [H|(table & ks & Hin & Hks & Hk)]; [now left|].
      right. exists table, ks. split; [|split; trivial].
      apply elem_of_cons in Hin as [->|?]; [congruence | trivial].
Qed.

Lemma invalidateLoop_kept tableList c tm k :
  ~ Cache.registeredUnder tm tableList k ->
  Lru.find k (snd (fst (Cache.invalidateLoop tableList c tm))) = Lru.find k c.
Proof.
  revert c tm. induction tableList as [|t rest IH]; intros c tm H;
    [reflexivity|].
  rewrite invalidateLoop_cons. destruct (tm !! t) as [cacheKeys|] eqn:E.
  - cbn [fst snd]. rewrite IH.
    + apply deleteKeys_kept. intros Hin. apply H.
      exists t, cacheKeys. split; [apply elem_of_cons; now left|].
      split; [exact E | now apply elem_of_elements].
    + intros (table & ks & Hin & Hks & Hk). apply H.
      destruct (decide (table = t)) as [->|Hne];
        [now rewrite lookup_delete_eq in Hks|].
      rewrite lookup_delete_ne in Hks by congruence.
      exists table, ks. split; [apply elem_of_cons; now right | tauto].
  - apply IH. intros (table & ks & Hin & Hks & Hk). apply H.
    exists table, ks. split; [apply elem_of_cons; now right | tauto].
Qed.

(** The count of the loop is the number of entries that left the store. *)
Lemma invalidateLoop_count tableList c tm :
  Lru.distinctKeys c ->
  Lru.distinctKeys (snd (fst (Cache.invalidateLoop tableList c tm))) /\
  length c = fst (fst (Cache.invalidateLoop tableList c tm))
             + length (snd (fst (Cache.invalidateLoop tableList c tm))).
Proof.
  revert c tm. induction tableList as [|t rest IH]; intros c tm H;
    [split; trivial|].
  rewrite invalidateLoop_cons. destruct (tm !! t) as [cacheKeys|]; [|auto].
  cbn [fst snd].
  destruct (deleteKeys_count (elements cacheKeys) c H) as [Hd Hl].
  destruct (IH _ (delete t tm) Hd) as [Hd' Hl'].
  split; [exact Hd'|]. lia.
Qed.

(** The table index after the [for] loop of [set]. *)
Lemma register_fold key tm (tables : gset string) table :
  (table ∈ tables ->
   set_fold (Cache.register key) tm tables !! table
   = Some (default ∅ (tm !! table) ∪ {[key]})) /\
  (table ∉ tables ->
   set_fold (Cache.register key) tm tables !! table = tm !! table).
Proof.
  apply (set_fold_ind_L
           (fun r (X : gset string) =>
              (table ∈ X -> r !! table = Some (default ∅ (tm !! table) ∪ {[key]}))
              /\ (table ∉ X -> r !! table = tm !! table))).
  - split; [set_solver | reflexivity].
  - intros x X r Hx [Hin Hout]. cbv beta. unfold Cache.register.
    destruct (decide (table = x)) as [->|Hne].
    + split; [|set_solver]. intros _.
      rewrite lookup_insert_eq, (Hout Hx). reflexivity.
    + rewrite lookup_insert_ne by congruence.
      split; intros ?; [apply Hin | apply Hout]; set_solver.
Qed.

End InvalidationFacts.

Section CacheOperations.

Implicit Types (qc : Cache.QueryCache) (tableList : list string).

Lemma invalidateByTables_Array tableList qc :
  Cache.invalidateByTables (Cache.Array tableList) qc =
  (fst (fst (Cache.invalidateLoop tableList (Cache.cache qc) (Cache.tableMap qc))),
   {| Cache.optMax := Cache.optMax qc;
      Cache.cache :=
        snd (fst (Cache.invalidateLoop tableList (Cache.cache qc)
                                       (Cache.tableMap qc)));
      Cache.stats :=
        {| Cache.hits := Cache.hits (Cache.stats qc);
           Cache.misses := Cache.misses (Cache.stats qc);
           Cache.sets := Cache.sets (Cache.stats qc);
           Cache.invalidations :=
             Cache.invalidations (Cache.stats qc)
             + fst (fst (Cache.invalidateLoop tableList (Cache.cache qc)
                                              (Cache.tableMap qc))) |};
      Cache.tableMap :=
        snd (Cache.invalidateLoop tableList (Cache.cache qc) (Cache.tableMap qc)) |}).
Proof.
  unfold Cache.invalidateByTables.
  destruct (Cache.invalidateLoop tableList (Cache.cache qc) (Cache.tableMap qc))
    as [[n c] tm]. reflexivity.
Qed.

Lemma set_truthy sql bindings value dialect (tables : gset string) qc :
  truthy value = true ->
  Cache.set sql bindings value dialect tables qc =
  (true,
   {| Cache.optMax := Cache.optMax qc;
      Cache.cache :=
        Lru.set (Cache.optMax qc) (Cache.generateCacheKey sql bindings dialect)
                value (Cache.cache qc);
      Cache.stats :=
        {| Cache.hits := Cache.hits (Cache.stats qc);
           Cache.misses := Cache.misses (Cache.stats qc);
           Cache.sets := S (Cache.sets (Cache.stats qc));
           Cache.invalidations := Cache.invalidations (Cache.stats qc) |};
      Cache.tableMap :=
        set_fold (Cache.register (Cache.generateCacheKey sql bindings dialect))
                 (Cache.tableMap qc) tables |}).
Proof. intros H. unfold Cache.set. now rewrite H. Qed.

Lemma set_falsy sql bindings value dialect (tables : gset string) qc :
  truthy value = false ->
  Cache.set sql bindings value dialect tables qc = (false, qc).
Proof. intros H. unfold Cache.set. now rewrite H. Qed.

(** After [set], the fingerprint is listed under every table it was put
    with, and the lists of the other fingerprints only grow. *)
Lemma set_registers sql bindings value dialect (tables : gset string) qc table :
  truthy value = true -> table ∈ tables ->
  Cache.key_in_index table (Cache.generateCacheKey sql bindings dialect)
    (snd (Cache.set sql bindings value dialect tables qc)).
Proof.
  intros Hv Hin. rewrite set_truthy by exact Hv. unfold Cache.key_in_index.
  cbn [snd Cache.tableMap]. eexists. split.
  - apply register_fold. exact Hin.
  - set_solver.
Qed.

Lemma set_keeps_index sql bindings value dialect (tables : gset string) qc
    table key :
  Cache.key_in_index table key qc ->
  Cache.key_in_index table key
    (snd (Cache.set sql bindings value dialect tables qc)).
Proof.
  intros (ks & Hks & Hk). destruct (truthy value) eqn:Hv;
    [|rewrite set_falsy by exact Hv; now exists ks].
  rewrite set_truthy by exact Hv. unfold Cache.key_in_index.
  cbn [snd Cache.tableMap].
  destruct (decide (table ∈ tables)) as [Hin|Hnin].
  - eexists. split; [apply register_fold; exact Hin|].
    rewrite Hks. apply elem_of_union. left. exact Hk.
  - exists ks. split; [|exact Hk].
    rewrite (proj2 (register_fold _ _ _ _) Hnin). exact Hks.
Qed.

Lemma step_distinct o qc :
  Lru.distinctKeys (Cache.cache qc) ->
  Lru.distinctKeys (Cache.cache (Cache.step qc o)).
Proof.
  intros H. destruct o as [sql b d|sql b v d tables|arg|k|]; cbn [Cache.step].
  - unfold Cache.get.
    pose proof (get_distinct (Cache.generateCacheKey sql b d) _ H) as H'.
    destruct (Lru.get (Cache.generateCacheKey sql b d) (Cache.cache qc))
      as [value c].
    destruct value; exact H'.
  - destruct (truthy v) eqn:Hv;
      [rewrite set_truthy by exact Hv | rewrite set_falsy by exact Hv];
      [now apply set_distinct | exact H].
  - destruct arg as [|table|tableList]; [exact H| |].
    + pose proof (invalidateByTables_Array [table] qc) as E.
      unfold Cache.invalidateByTables in *.
      destruct (String.eqb table ""); [exact H|].
      rewrite E. now apply invalidateLoop_count.
    + rewrite invalidateByTables_Array. now apply invalidateLoop_count.
  - now apply remove_distinct.
  - constructor.
Qed.

(** The keys of the store stay pairwise distinct, whatever is done to a new
    cache. *)
Lemma run_distinct max ops :
  Lru.distinctKeys (Cache.cache (Cache.run ops (Cache.create max))).
Proof.
  unfold Cache.run.
  assert (Lru.distinctKeys (Cache.cache (Cache.create max))) as H
    by constructor.
  revert H. generalize (Cache.create max).
  induction ops as [|o ops IH]; intros qc H; [exact H|].
  cbn [fold_left]. apply IH. now apply step_distinct.
Qed.

End CacheOperations.

(** C3, as the claim states it, fails: a fingerprint registered under two
    tables stays in the table index, under the other table, after the first
    table is invalidated. *)
Lemma C3_fingerprint_stays_under_other_table :
  Cache.key_in_index "a"
    (Cache.generateCacheKey "SELECT * FROM a JOIN b ON a.id = b.id" [] "pg")
    (snd (Cache.set "SELECT * FROM a JOIN b ON a.id = b.id" [] (VArr [])
                    "pg" {["a"; "b"]} (Cache.create 500))) /\
  Cache.key_in_index "b"
    (Cache.generateCacheKey "SELECT * FROM a JOIN b ON a.id = b.id" [] "pg")
    (snd (Cache.invalidateByTables (Cache.Array ["a"])
       (snd (Cache.set "SELECT * FROM a JOIN b ON a.id = b.id" [] (VArr [])
                       "pg" {["a"; "b"]} (Cache.create 500))))) /\
  Lru.find
    (Cache.generateCacheKey "SELECT * FROM a JOIN b ON a.id = b.id" [] "pg")
    (Cache.cache
       (snd (Cache.invalidateByTables (Cache.Array ["a"])
          (snd (Cache.set "SELECT * FROM a JOIN b ON a.id = b.id" [] (VArr [])
                          "pg" {["a"; "b"]} (Cache.create 500)))))) = None.
Proof.
  assert (Ha : Cache.key_in_index "a"
    (Cache.generateCacheKey "SELECT * FROM a JOIN b ON a.id = b.id" [] "pg")
    (snd (Cache.set "SELECT * FROM a JOIN b ON a.id = b.id" [] (VArr [])
                    "pg" {["a"; "b"]} (Cache.create 500))))
    by (apply set_registers; [reflexivity | set_solver]).
  assert (Hb : Cache.key_in_index "b"
    (Cache.generateCacheKey "SELECT * FROM a JOIN b ON a.id = b.id" [] "pg")
    (snd (Cache.set "SELECT * FROM a JOIN b ON a.id = b.id" [] (VArr [])
                    "pg" {["a"; "b"]} (Cache.create 500))))
    by (apply set_registers; [reflexivity | set_solver]).
  revert Ha Hb.
  generalize (snd (Cache.set "SELECT * FROM a JOIN b ON a.id = b.id" []
                     (VArr []) "pg" {["a"; "b"]} (Cache.create 500))).
  generalize (Cache.generateCacheKey "SELECT * FROM a JOIN b ON a.id = b.id"
                [] "pg").
  intros key qc Ha Hb. split; [exact Ha|].
  rewrite invalidateByTables_Array. cbn [snd Cache.tableMap Cache.cache].
  split.
  - destruct Hb as (ks & Hks & Hk). exists ks. split; [|exact Hk].
    cbn [Cache.tableMap]. rewrite invalidateLoop_index.
    rewrite decide_False
      by (intros Hin; apply elem_of_cons in Hin as [?|Hin];
          [discriminate | now apply elem_of_nil in Hin]).
    exact Hks.
  - apply invalidateLoop_gone. right.
    destruct Ha as (ks & Hks & Hk). exists "a", ks.
    split; [apply elem_of_cons; now left | tauto].
Qed.

Lemma get_miss sql bindings dialect qc :
  Lru.find (Cache.generateCacheKey sql bindings dialect) (Cache.cache qc) = None ->
  fst (Cache.get sql bindings dialect qc) = VNull /\
  Cache.misses (Cache.stats (snd (Cache.get sql bindings dialect qc)))
  = S (Cache.misses (Cache.stats qc)).
Proof.
  intros H. unfold Cache.get, Lru.get. rewrite H. split; reflexivity.
Qed.

(** C3 (amended): [invalidateByTables] on an array of table names drops the
    index entry of every name passed and leaves the other entries alone;
    every fingerprint that was registered under a name passed leaves the
    store (it may stay listed under a table that was not passed), every
    other fingerprint stays; the count returned is the number of entries
    that left the store, and is added to the invalidation counter. In
    particular a result put under [users] is a miss after [users] is
    invalidated. *)
Theorem C3_invalidate_removes_registered_fingerprints
    (qc : Cache.QueryCache) (tableList : list string) :
  Lru.distinctKeys (Cache.cache qc) ->
  let count := fst (Cache.invalidateByTables (Cache.Array tableList) qc) in
  let qc' := snd (Cache.invalidateByTables (Cache.Array tableList) qc) in
  (forall table, table ∈ tableList -> Cache.tableMap qc' !! table = None) /\
  (forall table, table ∉ tableList ->
     Cache.tableMap qc' !! table = Cache.tableMap qc !! table) /\
  (forall key, Cache.registeredUnder (Cache.tableMap qc) tableList key ->
     Lru.find key (Cache.cache qc') = None) /\
  (forall key, ~ Cache.registeredUnder (Cache.tableMap qc) tableList key ->
     Lru.find key (Cache.cache qc') = Lru.find key (Cache.cache qc)) /\
  length (Cache.cache qc) = count + length (Cache.cache qc') /\
  Cache.invalidations (Cache.stats qc')
    = Cache.invalidations (Cache.stats qc) + count /\
  (forall sql bindings rows dialect qc0,
     truthy rows = true ->
     fst (Cache.get sql bindings dialect
            (snd (Cache.invalidateByTables (Cache.Array ["users"])
               (snd (Cache.set sql bindings rows dialect {["users"]} qc0)))))
     = VNull).
Proof.
  intros Hd count qc'. subst count qc'.
  rewrite invalidateByTables_Array.
  cbn [fst snd Cache.tableMap Cache.cache Cache.stats Cache.invalidations].
  repeat split.
  - intros table Hin. rewrite invalidateLoop_index. now rewrite decide_True.
  - intros table Hnin. rewrite invalidateLoop_index. now rewrite decide_False.
  - intros key Hk. apply invalidateLoop_gone. now right.
  - intros key Hk. now apply invalidateLoop_kept.
  - now apply invalidateLoop_count.
  - intros sql bindings rows dialect qc0 Hrows.
    apply get_miss. rewrite invalidateByTables_Array. cbn [snd Cache.cache].
    apply invalidateLoop_gone. right.
    destruct (set_registers sql bindings rows dialect {["users"]} qc0 "users"
                Hrows) as (ks & Hks & Hk); [set_solver|].
    exists "users", ks. split; [apply elem_of_cons; now left | tauto].
Qed.

(** C3, on an empty cache with capacity 500 and the table [users]. *)
Lemma C3_invalidate_witness :
  fst (Cache.invalidateByTables (Cache.Array ["users"]) (Cache.create 500)) = 0 /\
  fst (Cache.get "SELECT * FROM users" [] "pg"
         (snd (Cache.invalidateByTables (Cache.Array ["users"])
            (snd (Cache.set "SELECT * FROM users" [] (VArr [])
                            "pg" {["users"]} (Cache.create 500)))))) = VNull.
Proof.
  pose proof (C3_invalidate_removes_registered_fingerprints
                (Cache.create 500) ["users"] (List.NoDup_nil string))
    as (_ & _ & _ & _ & Hlen & _ & Hscenario).
  split.
  - cbn [Cache.cache Cache.create length] in Hlen.
    destruct (fst (Cache.invalidateByTables (Cache.Array ["users"])
                     (Cache.create 500))); [reflexivity | discriminate Hlen].
  - apply Hscenario. reflexivity.
Defined.

(** ** The index invariant *)

(** C2, as the claim states it, fails: with room for one entry, a second
    [set] evicts the first fingerprint from the store and leaves it in the
    table index. *)
Lemma C2_evicted_fingerprint_stays_indexed :
  Cache.key_in_index "users"
    (Cache.generateCacheKey "SELECT * FROM users" [] "pg")
    (Cache.run [Cache.OpSet "SELECT * FROM users" [] (VArr []) "pg" {["users"]};
                Cache.OpSet "SELECT * FROM orders" [] (VArr []) "pg" {["orders"]}]
               (Cache.create 1)) /\
  ~ Cache.key_in_store
    (Cache.generateCacheKey "SELECT * FROM users" [] "pg")
    (Cache.run [Cache.OpSet "SELECT * FROM users" [] (VArr []) "pg" {["users"]};
                Cache.OpSet "SELECT * FROM orders" [] (VArr []) "pg" {["orders"]}]
               (Cache.create 1)).
Proof.
  assert (Hne : Cache.generateCacheKey "SELECT * FROM orders" [] "pg"
                <> Cache.generateCacheKey "SELECT * FROM users" [] "pg")
    by (vm_compute; discriminate).
  unfold Cache.run. cbn [fold_left Cache.step]. split.
  - apply set_keeps_index, set_registers; [reflexivity | set_solver].
  - unfold Cache.key_in_store.
    rewrite !set_truthy by reflexivity. cbn [snd Cache.cache Cache.optMax Cache.create].
    revert Hne.
    generalize (Cache.generateCacheKey "SELECT * FROM users" [] "pg").
    generalize (Cache.generateCacheKey "SELECT * FROM orders" [] "pg").
    intros k2 k1 Hne H. apply H. clear H.
    apply String.eqb_neq in Hne.
    unfold Lru.set, Lru.has. cbn [Lru.find length Nat.ltb Nat.leb andb].
    assert (String.eqb k1 k2 = false) as E
      by (rewrite String.eqb_sym; exact Hne).
    rewrite E. cbn [Lru.find removelast]. now rewrite Hne.
Qed.

Section IndexInvariant.

Implicit Types (qc : Cache.QueryCache) (last : gmap string (gset string)).

Lemma get_fields sql bindings dialect qc :
  Cache.tableMap (snd (Cache.get sql bindings dialect qc)) = Cache.tableMap qc /\
  Cache.cache (snd (Cache.get sql bindings dialect qc))
  = snd (Lru.get (Cache.generateCacheKey sql bindings dialect) (Cache.cache qc)).
Proof.
  unfold Cache.get.
  destruct (Lru.get (Cache.generateCacheKey sql bindings dialect) (Cache.cache qc))
    as [value c].
  destruct value; split; reflexivity.
Qed.

Lemma putsIndexed_get sql bindings dialect qc last :
  Cache.putsIndexed qc last ->
  Cache.putsIndexed (snd (Cache.get sql bindings dialect qc)) last.
Proof.
  intros Inv key tables table Hstore Hlast Hin.
  destruct (get_fields sql bindings dialect qc) as [Htm Hc].
  unfold Cache.key_in_store, Cache.key_in_index in *.
  rewrite Htm. rewrite Hc, find_get in Hstore. eapply Inv; eassumption.
Qed.

Lemma putsIndexed_set sql bindings value dialect (tables : gset string) qc last :
  Cache.putsIndexed qc last ->
  Cache.putsIndexed (snd (Cache.set sql bindings value dialect tables qc))
              (Cache.recordPut last
                 (Cache.OpSet sql bindings value dialect tables)).
Proof.
  intros Inv key tables' table Hstore Hlast Hin.
  cbn [Cache.recordPut] in Hlast.
  destruct (truthy value) eqn:Hv;
    [|rewrite set_falsy in * by exact Hv; eapply Inv; eassumption].
  destruct (decide (Cache.generateCacheKey sql bindings dialect = key))
    as [<-|Hne].
  - rewrite lookup_insert_eq in Hlast. injection Hlast as <-.
    now apply set_registers.
  - rewrite lookup_insert_ne in Hlast by exact Hne.
    apply set_keeps_index. eapply Inv; [|eassumption..].
    unfold Cache.key_in_store in *. rewrite set_truthy in Hstore by exact Hv.
    cbn [snd Cache.cache] in Hstore.
    destruct (Lru.find key (Lru.set _ _ _ _)) as [v'|] eqn:F; [|congruence].
    now rewrite (find_set_ne _ _ _ _ _ _ Hne F).
Qed.

Lemma putsIndexed_invalidate_array tableList qc last :
  Cache.putsIndexed qc last ->
  Cache.putsIndexed (snd (Cache.invalidateByTables (Cache.Array tableList) qc)) last.
Proof.
  intros Inv key tables table Hstore Hlast Hin.
  unfold Cache.key_in_store, Cache.key_in_index in *.
  rewrite invalidateByTables_Array in *.
  cbn [snd Cache.cache Cache.tableMap] in *.
  assert (Lru.find key (Cache.cache qc) <> None) as Hbefore.
  { intros F. apply Hstore. apply invalidateLoop_gone. now left. }
  destruct (Inv key tables table Hbefore Hlast Hin) as (ks & Hks & Hk).
  exists ks. split; [|exact Hk].
  rewrite invalidateLoop_index.
  destruct (decide (table ∈ tableList)) as [Ht|Ht]; [|exact Hks].
  exfalso. apply Hstore. apply invalidateLoop_gone. right.
  now exists table, ks.
Qed.

Lemma putsIndexed_invalidate arg qc last :
  Cache.putsIndexed qc last ->
  Cache.putsIndexed (snd (Cache.invalidateByTables arg qc)) last.
Proof.
  intros Inv. destruct arg as [|table|tableList].
  - exact Inv.
  - pose proof (putsIndexed_invalidate_array [table] qc last Inv) as H.
    unfold Cache.invalidateByTables in *.
    destruct (String.eqb table ""); [exact Inv | exact H].
  - now apply putsIndexed_invalidate_array.
Qed.

Lemma putsIndexed_expire k qc last :
  Cache.putsIndexed qc last -> Cache.putsIndexed (Cache.expire k qc) last.
Proof.
  intros Inv key tables table Hstore Hlast Hin.
  unfold Cache.key_in_store, Cache.key_in_index, Cache.expire in *.
  cbn [Cache.cache Cache.tableMap] in *.
  eapply Inv; [|eassumption..].
  destruct (decide (k = key)) as [->|Hne].
  - now rewrite find_remove_eq in Hstore.
  - now rewrite find_remove_ne in Hstore by exact Hne.
Qed.

Lemma putsIndexed_step o qc last :
  Cache.putsIndexed qc last ->
  Cache.putsIndexed (Cache.step qc o) (Cache.recordPut last o).
Proof.
  intros Inv. destruct o as [sql b d|sql b v d tables|arg|k|]; cbn [Cache.step].
  - now apply putsIndexed_get.
  - now apply putsIndexed_set.
  - now apply putsIndexed_invalidate.
  - now apply putsIndexed_expire.
  - intros key tables table Hstore. now destruct Hstore.
Qed.

Lemma putsIndexed_run ops qc last :
  Cache.putsIndexed qc last ->
  Cache.putsIndexed (fold_left Cache.step ops qc) (fold_left Cache.recordPut ops last).
Proof.
  revert qc last. induction ops as [|o ops IH]; intros qc last Inv;
    [exact Inv|].
  cbn [fold_left]. apply IH. now apply putsIndexed_step.
Qed.

End IndexInvariant.

(** C2 (amended): after any sequence of get, set, invalidateByTables, expiry
    and clear operations on a new cache (a set may evict under capacity
    pressure), every fingerprint held by the store is listed in the table
    index under every table of the set it was last put with. The converse
    fails: the index may list a fingerprint the store no longer holds. *)
Theorem C2_stored_fingerprints_are_indexed
    (max : nat) (ops : list Cache.op) (key table : string)
    (tables : gset string) :
  Cache.key_in_store key (Cache.run ops (Cache.create max)) ->
  Cache.lastPut ops !! key = Some tables ->
  table ∈ tables ->
  Cache.key_in_index table key (Cache.run ops (Cache.create max)).
Proof.
  intros Hstore Hlast Hin.
  eapply (putsIndexed_run ops (Cache.create max) ∅); try eassumption.
  intros k ts t Hk. now destruct Hk.
Qed.

(** C2, on a cache of capacity 500 after one [set] and one [get]. *)
Lemma C2_stored_fingerprints_witness :
  Cache.key_in_index "users"
    (Cache.generateCacheKey "SELECT * FROM users" [] "pg")
    (Cache.run [Cache.OpSet "SELECT * FROM users" [] (VArr []) "pg" {["users"]};
                Cache.OpGet "SELECT * FROM users" [] "pg"]
               (Cache.create 500)).
Proof.
  apply (C2_stored_fingerprints_are_indexed 500
           [Cache.OpSet "SELECT * FROM users" [] (VArr []) "pg" {["users"]};
            Cache.OpGet "SELECT * FROM users" [] "pg"]
           _ "users" {["users"]}).
  - unfold Cache.key_in_store, Cache.run. cbn [fold_left Cache.step].
    rewrite (proj2 (get_fields _ _ _ _)), find_get.
    rewrite set_truthy by reflexivity. cbn [snd Cache.cache].
    rewrite find_set_eq. discriminate.
  - unfold Cache.lastPut. cbn [fold_left Cache.recordPut truthy].
    apply lookup_insert_eq.
  - apply elem_of_singleton. reflexivity.
Defined.

(** ** The table extractor *)

Section Extractor.

Implicit Types (s : string) (p : ascii -> bool).

Lemma span_fst_all p s : allChars p (fst (Cache.span p s)).
Proof.
  induction s as [|x s IH]; [exact I|].
  rewrite span_cons. destruct (p x) eqn:E; cbn [fst allChars]; auto.
Qed.

Lemma matchAt_all kw s name len :
  Cache.matchAt kw s = Some (name, len) -> allChars Cache.isIdent name.
Proof.
  unfold Cache.matchAt. destruct (Cache.afterKeyword kw s) as [r|]; [|discriminate].
  set (r' := Cache.dropBytes (Cache.spaceRun 0 r) r).
  pose proof (span_fst_all Cache.isIdent r') as H.
  destruct (Cache.span Cache.isIdent r') as [name' rest]. cbn [fst] in H.
  destruct ((Cache.spaceRun 0 r =? 0) || String.eqb name' ""); [discriminate|].
  intros [= <- _]. exact H.
Qed.

Lemma execAll_all kw skip s :
  Forall (allChars Cache.isIdent) (Cache.execAll kw skip s).
Proof.
  revert skip. induction s as [|x s IH]; intros skip; [constructor|].
  cbn [Cache.execAll]. destruct skip as [|k]; [|apply IH].
  destruct (Cache.matchAt kw (String x s)) as [[name len]|] eqn:E; [|apply IH].
  constructor; [eapply matchAt_all; exact E | apply IH].
Qed.

Lemma stripQuoting_all p s : allChars p s -> allChars p (Cache.stripQuoting s).
Proof.
  induction s as [|x s IH]; [trivial|]. intros [Hx Hs].
  cbn [Cache.stripQuoting]. destruct (Cache.isQuoting x); cbn [allChars]; auto.
Qed.

Lemma beforeAs_all p s : allChars p s -> allChars p (Cache.beforeAs s).
Proof.
  induction s as [|x s IH]; [trivial|]. intros [Hx Hs].
  cbn [Cache.beforeAs]. destruct (Cache.asAt (String x s)); cbn [allChars]; auto.
Qed.

Lemma dropBytes_all p n s : allChars p s -> allChars p (Cache.dropBytes n s).
Proof.
  revert s. induction n as [|n IH]; intros s Hs; [now destruct s|].
  destruct s as [|x s]; [exact I|]. cbn [Cache.dropBytes]. apply IH, Hs.
Qed.

Lemma trimStart_all p s : allChars p s -> allChars p (Cache.trimStart s).
Proof. apply dropBytes_all. Qed.

Lemma trimEnd_all p s : allChars p s -> allChars p (Cache.trimEnd s).
Proof.
  induction s as [|x s IH]; [trivial|]. intros [Hx Hs].
  cbn [Cache.trimEnd].
  destruct (Cache.spaceRun 0 (String x s) =? String.length (String x s));
    cbn [allChars]; auto.
Qed.

Lemma rev_app_all p s1 s2 :
  allChars p s1 -> allChars p s2 -> allChars p (String.rev_app s1 s2).
Proof.
  revert s2. induction s1 as [|x s1 IH]; intros s2 H1 H2; [exact H2|].
  destruct H1 as [Hx H1]. cbn [String.rev_app]. apply IH; cbn [allChars]; auto.
Qed.

Lemma isIdent_no_dot x :
  Cache.isIdent x = true -> (nat_of_ascii x =? 46) = false ->
  Cache.isWord x = true.
Proof.
  unfold Cache.isIdent. intros H E. rewrite E, orb_false_r in H. exact H.
Qed.

(** The segments between the dots of an identifier hold word characters
    only. *)
Lemma splitDot_all cur s :
  allChars Cache.isWord cur -> allChars Cache.isIdent s ->
  Forall (allChars Cache.isWord) (Cache.splitDot cur s).
Proof.
  revert cur. induction s as [|x s IH]; intros cur Hcur Hs.
  - constructor; [|constructor]. now apply rev_app_all.
  - destruct Hs as [Hx Hs]. cbn [Cache.splitDot].
    destruct (nat_of_ascii x =? 46) eqn:E.
    + constructor; [now apply rev_app_all | now apply IH].
    + apply IH; [|exact Hs]. cbn [allChars]. split; [|exact Hcur].
      now apply isIdent_no_dot.
Qed.

Lemma no_dot_all s :
  Cache.includesDot s = false -> allChars Cache.isIdent s ->
  allChars Cache.isWord s.
Proof.
  induction s as [|x s IH]; [trivial|]. cbn [Cache.includesDot allChars].
  intros H [Hx Hs]. apply orb_false_iff in H as [E H].
  split; [now apply isIdent_no_dot | now apply IH].
Qed.

Lemma lowerChar_word x :
  Cache.isWord x = true -> isLowerWord (lowerChar x) = true.
Proof.
  unfold isLowerWord, lowerChar. destruct (isUpper x) eqn:Hu.
  - intros _. unfold isUpper in Hu.
    apply andb_true_iff in Hu as [H1%Nat.leb_le H2%Nat.leb_le].
    unfold Cache.isWord, isUpper, isLower.
    rewrite nat_ascii_embedding by lia.
    assert ((97 <=? nat_of_ascii x + 32) = true) as -> by (apply Nat.leb_le; lia).
    assert ((nat_of_ascii x + 32 <=? 122) = true) as -> by (apply Nat.leb_le; lia).
    assert ((nat_of_ascii x + 32 <=? 90) = false) as -> by (apply Nat.leb_gt; lia).
    now rewrite andb_false_r.
  - intros H. now rewrite H, Hu.
Qed.

Lemma toLowerCase_all s :
  allChars Cache.isWord s -> allChars isLowerWord (toLowerCase s).
Proof.
  induction s as [|x s IH]; [trivial|]. intros [Hx Hs].
  cbn [toLowerCase mapChars allChars]. split; [now apply lowerChar_word|].
  now apply IH.
Qed.

Lemma toLowerCase_nonempty s : s <> "" -> toLowerCase s <> "".
Proof. destruct s; [congruence | discriminate]. Qed.

(** What one match adds to the set is a non-empty lower-case word. *)
Lemma tableOfMatch_good captured (tables : gset string) t :
  allChars Cache.isIdent captured ->
  t ∈ Cache.tableOfMatch captured tables ->
  t ∈ tables \/ (t <> "" /\ allChars isLowerWord t).
Proof.
  intros Hc. unfold Cache.tableOfMatch, Cache.trim.
  set (name := Cache.trimEnd (Cache.trimStart
                 (Cache.beforeAs (Cache.stripQuoting captured)))).
  assert (allChars Cache.isIdent name) as Hname
    by (apply trimEnd_all, trimStart_all, beforeAs_all, stripQuoting_all, Hc).
  set (final := if Cache.includesDot name
                then nth 1 (Cache.splitDot "" name) ""
                else name).
  assert (allChars Cache.isWord final) as Hfinal.
  { subst final. destruct (Cache.includesDot name) eqn:E.
    - pose proof (splitDot_all "" name I Hname) as Hall.
      destruct (Cache.splitDot "" name) as [|a [|b l]]; try exact I.
      apply Forall_cons in Hall as [_ Hall].
      apply Forall_cons in Hall as [Hb _]. exact Hb.
    - now apply no_dot_all. }
  destruct (String.eqb final "") eqn:E; [now left|].
  apply String.eqb_neq in E. intros Hin.
  apply elem_of_union in Hin as [Hin|Hin]; [now left|].
  apply elem_of_singleton in Hin. subst t. right.
  split; [now apply toLowerCase_nonempty | now apply toLowerCase_all].
Qed.

(** X20: every table name the extractor returns is a non-empty string of
    lower-case letters, digits and underscores: no upper-case letter, no
    quoting punctuation, no white space (hence no alias), no dot. *)
Lemma extracted_tables_are_lowercase_words sql t :
  t ∈ Cache.extractTablesFromQuery sql -> t <> "" /\ allChars isLowerWord t.
Proof.
  unfold Cache.extractTablesFromQuery.
  assert (forall (tables : gset string),
             (forall t, t ∈ tables -> t <> "" /\ allChars isLowerWord t) ->
             forall kws t,
               t ∈ fold_left
                     (fun tables kw =>
                        fold_left (fun tables m => Cache.tableOfMatch m tables)
                                  (Cache.execAll kw 0 sql) tables)
                     kws tables ->
               t <> "" /\ allChars isLowerWord t) as Hfold.
  { intros tables Hgood kws. revert tables Hgood.
    induction kws as [|kw kws IH]; intros tables Hgood; [exact Hgood|].
    cbn [fold_left]. apply IH.
    pose proof (execAll_all kw 0 sql) as Hall. revert tables Hgood.
    induction Hall as [|m ms Hm _ IHms]; intros tables Hgood; [exact Hgood|].
    cbn [fold_left]. apply IHms. intros t' Hin.
    destruct (tableOfMatch_good m tables t' Hm Hin) as [H|H]; auto. }
  apply Hfold. intros t' Hin. now apply not_elem_of_empty in Hin.
Qed.

End Extractor.

(** C8: on a three-part name the extractor returns the second segment, the
    schema, where the claim (and the invalidation that relies on it) wants
    the last one, the table. Two-part names do give the table. *)
Theorem C8_extractor_takes_the_second_segment :
  Cache.extractTablesFromQuery "SELECT * FROM mydb.dbo.users" = {["dbo"]} /\
  Cache.extractTablesFromQuery "UPDATE users SET name = ?" = {["users"]} /\
  Cache.extractTablesFromQuery "SELECT * FROM dbo.Users u JOIN orders AS o ON u.id = o.uid"
  = {["users"; "orders"]}.
Proof. repeat split; vm_compute; reflexivity. Qed.

(** * The write statements *)

(** ** INSERT, UPDATE and DELETE *)

Section WriteStatements.

Lemma total_const {A} c (x : string) (l : list A) :
  total c (List.map (fun _ => x) l) = length l * countChar c x.
Proof.
  induction l as [|a l IH]; [reflexivity|].
  cbn [List.map length]. rewrite total_cons, IH. lia.
Qed.

Lemma rows_values_length (columns : list string) (rows : list jsobj) :
  length (List.concat
            (List.map (fun row => List.map (getProp row) columns) rows))
  = length rows * length columns.
Proof.
  induction rows as [|row rows IH]; [reflexivity|].
  cbn [List.map List.concat length]. rewrite length_app, length_map, IH. lia.
Qed.

(** The value bound at position [i * columns + j] is the one that row [i]
    holds for column [j]. *)
Lemma rows_values_lookup (columns : list string) (rows : list jsobj)
    (i j : nat) (row : jsobj) (column : string) :
  rows !! i = Some row -> columns !! j = Some column ->
  List.concat (List.map (fun row => List.map (getProp row) columns) rows)
    !! (i * length columns + j)
  = Some (getProp row column).
Proof.
  intros Hi Hj. revert i Hi. induction rows as [|r rows IH]; intros i Hi;
    [discriminate|].
  cbn [List.map List.concat]. destruct i as [|i].
  - injection Hi as ->. cbn [Nat.mul Nat.add].
    rewrite lookup_app_l
      by (rewrite length_map; now apply lookup_lt_Some in Hj).
    rewrite list_lookup_fmap, Hj. reflexivity.
  - cbn [lookup list_lookup] in Hi. rewrite lookup_app_r
      by (rewrite length_map; cbn [Nat.mul]; lia).
    rewrite length_map.
    replace (S i * length columns + j - length columns)
      with (i * length columns + j) by (cbn [Nat.mul]; lia).
    now apply IH.
Qed.

Lemma referencesAll_refs (l : list nat) :
  referencesAll (List.map Pg.ref l) = l.
Proof.
  induction l as [|n l IH]; [reflexivity|].
  cbn [List.map]. rewrite referencesAll_cons, references_ref, IH. reflexivity.
Qed.

Lemma pg_rowReferences_refs paramIndex ncols (rows : list (option jsobj)) :
  referencesAll (Pg.rowReferences paramIndex ncols rows)
  = seq paramIndex (length rows * ncols).
Proof.
  revert paramIndex. induction rows as [|row rows IH]; intros paramIndex;
    [reflexivity|].
  cbn [Pg.rowReferences length Nat.mul]. rewrite referencesAll_cons, IH.
  rewrite references_skip by reflexivity.
  rewrite references_append by reflexivity.
  rewrite (references_join "," " ") by reflexivity.
  rewrite referencesAll_refs, seq_app. cbn [references app].
  now rewrite app_nil_r.
Qed.

(** Row [i] of a PostgreSQL INSERT is the group of the references that
    follow those of the rows before it. *)
Lemma pg_rowReferences_groups {A} paramIndex ncols (rows : list A) :
  Pg.rowReferences paramIndex ncols (List.map (fun _ => None) rows)
  = imap (fun i _ =>
            "(" +:+ join ", " (List.map Pg.ref (seq (paramIndex + i * ncols) ncols))
            +:+ ")") rows.
Proof.
  revert paramIndex. induction rows as [|row rows IH]; intros paramIndex;
    [reflexivity|].
  cbn [List.map Pg.rowReferences]. rewrite imap_cons, IH.
  cbn [Nat.mul]. rewrite Nat.add_0_r. f_equal.
  apply imap_ext. intros i x _. cbn [compose Nat.mul].
  now rewrite Nat.add_assoc.
Qed.

(** The groups depend on the number of rows only. *)
Lemma pg_rowReferences_rows paramIndex ncols (rows : list (option jsobj)) :
  Pg.rowReferences paramIndex ncols rows
  = Pg.rowReferences paramIndex ncols (List.map (fun _ => None) rows).
Proof.
  revert paramIndex. induction rows as [|row rows IH]; intros paramIndex;
    [reflexivity|].
  cbn [List.map Pg.rowReferences]. now rewrite IH.
Qed.

Lemma ownProp_keys (data : jsobj) :
  List.NoDup (keys data) ->
  List.map (ownProp data) (keys data) = List.map (fun kv => Some (snd kv)) data.
Proof.
  unfold keys. induction data as [|[k v] data IH]; [reflexivity|].
  cbn [List.map fst snd ownProp]. intros H.
  apply List.NoDup_cons_iff in H as [Hk Hd]. rewrite String.eqb_refl. f_equal.
  rewrite <- (IH Hd). apply List.map_ext_in. intros k' Hk'.
  destruct (String.eqb k k') eqn:E; [|reflexivity].
  apply String.eqb_eq in E. subst k'. contradiction.
Qed.

Lemma getProp_keys (data : jsobj) :
  List.NoDup (keys data) -> List.map (getProp data) (keys data) = List.map snd data.
Proof.
  intros H. pose proof (ownProp_keys data H) as E.
  assert (forall (f : string -> option jsval) (g : string -> jsval) l vs,
             (forall k v, f k = Some v -> g k = v) ->
             List.map f l = List.map Some vs -> List.map g l = vs) as Hmap.
  { intros f g l. induction l as [|k l IH]; intros [|v vs] Hfg Hl;
      try discriminate; [reflexivity|].
    cbn [List.map] in *. injection Hl as Hk Hl.
    f_equal; [now apply Hfg | now apply IH]. }
  apply (Hmap (ownProp data)).
  - intros k v Hk. unfold getProp. now rewrite Hk.
  - rewrite E. now rewrite List.map_map.
Qed.

End WriteStatements.

(** X1: an INSERT of rows that are all objects never fails and binds, row
    after row, what each row yields for the keys of the first row: its own
    value, the inherited member when the row lacks the key and
    [Object.prototype] has it, [undefined] otherwise; that is rows times
    columns parameters, the same for both compilers. The text lists the keys
    of the first row, then one group per row: of one [?] per column for
    SQLite, and for PostgreSQL of the references that follow those of the
    rows before, so that the reference numbered [i * columns + j + 1] stands
    in group [i] at place [j] and is bound to what row [i] yields for
    column [j]. When the table and column names hold no placeholder
    character the SQLite text has one [?] per parameter and the PostgreSQL
    text the references [$1 .. $n] in order. *)
Theorem insert_binds_every_row_in_column_order
    (tableName : string) (data : InsertData) (row0 : jsobj) (rest : list jsobj) :
  rowsOf data = List.map Some (row0 :: rest) ->
  exists lite pg,
    Sqlite.compileInsert tableName data = Ok lite /\
    Pg.compileInsert tableName data = Ok pg /\
    bindings lite =
      List.concat (List.map (fun row => List.map (getProp row) (keys row0))
                            (row0 :: rest)) /\
    bindings pg = bindings lite /\
    length (bindings lite) = length (row0 :: rest) * length (keys row0) /\
    (forall i j row column,
       (row0 :: rest) !! i = Some row -> keys row0 !! j = Some column ->
       bindings pg !! (i * length (keys row0) + j) = Some (getProp row column)) /\
    sql lite =
      "INSERT INTO " +:+ tableName +:+ " (" +:+ join ", " (keys row0) +:+
      ") VALUES " +:+
      join ", "
        (List.map (fun _ => "(" +:+
                            join ", " (List.map (fun _ => "?") (keys row0)) +:+
                            ")")
                  (row0 :: rest)) /\
    sql pg =
      "INSERT INTO " +:+ tableName +:+ " (" +:+ join ", " (keys row0) +:+
      ") VALUES " +:+
      join ", "
        (imap (fun i _ =>
                 "(" +:+
                 join ", "
                   (List.map Pg.ref
                      (seq (1 + i * length (keys row0)) (length (keys row0)))) +:+
                 ")")
              (row0 :: rest)) +:+
      " RETURNING id" /\
    (Forall (freeOf "?") (tableName :: keys row0) ->
       questionMarks (sql lite) = length (bindings lite)) /\
    (Forall (freeOf "$") (tableName :: keys row0) ->
       references (sql pg) = seq 1 (length (bindings pg))).
Proof.
  intros Hrows.
  unfold Sqlite.compileInsert, Pg.compileInsert. rewrite Hrows.
  cbn [List.map].
  change (Some row0 :: List.map Some rest) with (List.map Some (row0 :: rest)).
  rewrite allValues_objects.
  eexists _, _. split; [reflexivity|]. split; [reflexivity|].
  cbn [sql bindings]. split; [reflexivity|]. split; [reflexivity|].
  rewrite rows_values_length. split; [reflexivity|].
  split; [intros i j row column Hi Hj; now apply rows_values_lookup|].
  split; [now rewrite List.map_map|]. split; [|split].
  - rewrite pg_rowReferences_rows, List.map_map, pg_rowReferences_groups.
    reflexivity.
  - intros Hq. apply Forall_cons in Hq as [Hqt Hqc].
    match goal with
    | |- context [?h :: List.map ?f (List.map Some rest)] =>
        change (h :: List.map f (List.map Some rest))
          with (List.map f (List.map Some (row0 :: rest)))
    end.
    unfold questionMarks, freeOf in *.
    rewrite !countChar_append, !countChar_join_total by reflexivity.
    rewrite Hqt, (total_free _ _ Hqc), total_const.
    rewrite !countChar_append, countChar_join_total by reflexivity.
    rewrite total_const, length_map.
    cbn [countChar Ascii.eqb Bool.eqb]. cbn. lia.
  - intros Hd. apply Forall_cons in Hd as [Hdt Hdc].
    rewrite !references_skip
      by (assumption || reflexivity ||
          (unfold freeOf; rewrite countChar_join_total by reflexivity;
           now apply total_free)).
    rewrite references_append by reflexivity.
    rewrite (references_join "," " ") by reflexivity.
    rewrite pg_rowReferences_refs, length_map.
    rewrite (references_free " RETURNING id") by reflexivity.
    now rewrite app_nil_r.
Qed.

(** X1, on two rows of which the second lacks the two columns of the
    first: one that no object has, one that every object inherits. *)
Lemma insert_binds_every_row_witness :
  exists lite pg,
    Sqlite.compileInsert "users"
      (ManyRows [Some [("name", VStr "Ann"); ("age", VNum 30);
                       ("valueOf", VNum 1)];
                 Some [("name", VStr "Bob")]])
    = Ok lite /\
    Pg.compileInsert "users"
      (ManyRows [Some [("name", VStr "Ann"); ("age", VNum 30);
                       ("valueOf", VNum 1)];
                 Some [("name", VStr "Bob")]])
    = Ok pg /\
    bindings lite = [VStr "Ann"; VNum 30; VNum 1;
                     VStr "Bob"; VUndefined; VMember "valueOf"] /\
    bindings pg = bindings lite /\
    sql lite = "INSERT INTO users (name, age, valueOf) VALUES (?, ?, ?), (?, ?, ?)" /\
    sql pg = "INSERT INTO users (name, age, valueOf) VALUES ($1, $2, $3), ($4, $5, $6) RETURNING id" /\
    questionMarks (sql lite) = 6 /\
    references (sql pg) = [1; 2; 3; 4; 5; 6].
Proof.
  destruct (insert_binds_every_row_in_column_order "users"
              (ManyRows [Some [("name", VStr "Ann"); ("age", VNum 30);
                               ("valueOf", VNum 1)];
                         Some [("name", VStr "Bob")]])
              [("name", VStr "Ann"); ("age", VNum 30); ("valueOf", VNum 1)]
              [[("name", VStr "Bob")]]
              eq_refl)
    as (lite & pg & E1 & E2 & B1 & B2 & _ & _ & T1 & T2 & Q & R).
  exists lite, pg.
  rewrite Q, R, B2, B1 by repeat constructor.
  repeat split; assumption.
Defined.

Section UpdateAndDelete.

Lemma sqlite_setClauses_marks (columns : list string) :
  Forall (freeOf "?") columns ->
  total "?" (List.map (fun column => column +:+ " = ?") columns) = length columns.
Proof.
  induction 1 as [|x l Hx _ IH]; [reflexivity|].
  cbn [List.map length]. rewrite total_cons, IH, countChar_append.
  unfold freeOf in Hx. rewrite Hx. reflexivity.
Qed.

Lemma pg_setClauses_references (columns : list string) (n : nat) :
  Forall (freeOf "$") columns ->
  referencesAll
    (List.map (fun '(column, k) => column +:+ " = " +:+ Pg.ref k)
              (combine columns (seq n (length columns))))
  = seq n (length columns).
Proof.
  intros H. revert n. induction H as [|x l Hx _ IH]; intros n; [reflexivity|].
  cbn [length seq combine List.map]. rewrite referencesAll_cons, IH.
  rewrite !references_skip, references_ref by (assumption || reflexivity).
  reflexivity.
Qed.

Lemma pg_setClauses_imap (columns : list string) (n : nat) :
  List.map (fun '(column, k) => column +:+ " = " +:+ Pg.ref k)
           (combine columns (seq n (length columns)))
  = imap (fun i column => column +:+ " = " +:+ Pg.ref (n + i)) columns.
Proof.
  revert n. induction columns as [|x l IH]; intros n; [reflexivity|].
  cbn [length seq combine List.map]. rewrite imap_cons, IH, Nat.add_0_r.
  f_equal. apply imap_ext. intros i y _. cbn [compose].
  now rewrite Nat.add_succ_r.
Qed.

Lemma sqlite_where_marks (ws : list Predicate) :
  Forall (predicateFree "?") ws ->
  countChar "?" (" WHERE " +:+ join " " (Sqlite.predicateClauses 0 ws))
  = length ws.
Proof.
  intros H. rewrite countChar_append, countChar_join_total by reflexivity.
  now rewrite sqlite_clauses_marks.
Qed.

Lemma pg_where_references (n : nat) (ws : list Predicate) :
  Forall (predicateFree "$") ws ->
  references (" WHERE " +:+ join " " (Pg.predicateClauses 0 n ws))
  = seq n (length ws).
Proof.
  intros H. rewrite references_skip by reflexivity.
  rewrite (references_join " " "") by reflexivity.
  now apply pg_clauses_references.
Qed.

End UpdateAndDelete.

(** X2: an UPDATE of a data object with at least one key never fails and
    binds the values of the object in the order of [Object.keys], then the
    WHERE values in list order, the same for both compilers. The text is
    the SET clause, of one assignment per key in that order, followed when
    there is a condition by the WHERE clause: for SQLite every assignment
    and every condition ends in [?]; for PostgreSQL the assignment of key
    [i] ends in the reference numbered [i + 1] and the conditions are
    numbered from the number of keys plus one on. When no identifier holds a
    placeholder character the SET clause of the SQLite text has one [?] per
    key and its WHERE clause one per condition, and the SET clause of the
    PostgreSQL text holds the references [$1 .. $c] and its WHERE clause
    the references [$c+1 .. $c+k], in order. *)
Theorem update_binds_set_values_then_where_values
    (tableName : string) (data : jsobj) (ws : list Predicate) :
  data <> [] -> List.NoDup (keys data) ->
  exists lite pg,
    Sqlite.compileUpdate tableName (Some data) ws = Ok lite /\
    Pg.compileUpdate tableName (Some data) ws = Ok pg /\
    bindings lite = List.map snd data ++ List.map p_value ws /\
    bindings pg = bindings lite /\
    let setLite :=
      " SET " +:+ join ", " (List.map (fun column => column +:+ " = ?") (keys data)) in
    let whereLite :=
      match ws with
      | [] => ""
      | _ => " WHERE " +:+ join " " (Sqlite.predicateClauses 0 ws)
      end in
    let setPg :=
      " SET " +:+
      join ", " (imap (fun i column => column +:+ " = " +:+ Pg.ref (1 + i))
                      (keys data)) in
    let wherePg :=
      match ws with
      | [] => ""
      | _ => " WHERE " +:+
             join " " (Pg.predicateClauses 0 (1 + length data) ws)
      end in
    sql lite = "UPDATE " +:+ tableName +:+ setLite +:+ whereLite /\
    sql pg = "UPDATE " +:+ tableName +:+ setPg +:+ wherePg /\
    (Forall (freeOf "?") (tableName :: keys data) ->
     Forall (predicateFree "?") ws ->
       questionMarks setLite = length data /\
       questionMarks whereLite = length ws /\
       questionMarks (sql lite) = length data + length ws) /\
    (Forall (freeOf "$") (tableName :: keys data) ->
     Forall (predicateFree "$") ws ->
       references setPg = seq 1 (length data) /\
       references wherePg = seq (1 + length data) (length ws) /\
       references (sql pg)
       = seq 1 (length data) ++ seq (1 + length data) (length ws)).
Proof.
  intros Hne Hnd.
  destruct data as [|kv kvs]; [contradiction|].
  unfold Sqlite.compileUpdate, Pg.compileUpdate.
  rewrite (getProp_keys _ Hnd).
  assert (Hlen : length (keys (kv :: kvs)) = length (kv :: kvs))
    by apply length_map.
  rewrite pg_setClauses_imap.
  set (setLite := " SET " +:+
         join ", " (List.map (fun column => column +:+ " = ?") (keys (kv :: kvs)))).
  set (setPg := " SET " +:+
         join ", " (imap (fun i column => column +:+ " = " +:+ Pg.ref (1 + i))
                         (keys (kv :: kvs)))).
  assert (HmarksSet : Forall (freeOf "?") (keys (kv :: kvs)) ->
                      questionMarks setLite = length (kv :: kvs)).
  { intros Hqc. subst setLite. unfold questionMarks.
    rewrite countChar_append, countChar_join_total by reflexivity.
    rewrite (sqlite_setClauses_marks _ Hqc), Hlen. reflexivity. }
  assert (HrefsSet : Forall (freeOf "$") (keys (kv :: kvs)) ->
                     references setPg = seq 1 (length (kv :: kvs))).
  { intros Hdc. subst setPg.
    rewrite references_skip by reflexivity.
    rewrite (references_join "," " ") by reflexivity.
    rewrite <- (pg_setClauses_imap (keys (kv :: kvs)) 1).
    rewrite (pg_setClauses_references _ 1 Hdc), Hlen. reflexivity. }
  assert (HmarksWhere : Forall (predicateFree "?") ws ->
            questionMarks
              match ws with
              | [] => ""
              | _ => " WHERE " +:+ join " " (Sqlite.predicateClauses 0 ws)
              end = length ws).
  { intros Hwq. destruct ws as [|w ws']; [reflexivity|].
    now apply sqlite_where_marks. }
  assert (HrefsWhere : Forall (predicateFree "$") ws ->
            references
              match ws with
              | [] => ""
              | _ => " WHERE " +:+
                     join " " (Pg.predicateClauses 0 (1 + length (kv :: kvs)) ws)
              end = seq (1 + length (kv :: kvs)) (length ws)).
  { intros Hwd. destruct ws as [|w ws']; [reflexivity|].
    now apply pg_where_references. }
  exists {| sql := "UPDATE " +:+ tableName +:+ setLite +:+
                   match ws with
                   | [] => ""
                   | _ => " WHERE " +:+ join " " (Sqlite.predicateClauses 0 ws)
                   end;
            bindings := List.map snd (kv :: kvs) ++ List.map p_value ws |},
         {| sql := "UPDATE " +:+ tableName +:+ setPg +:+
                   match ws with
                   | [] => ""
                   | _ => " WHERE " +:+
                          join " " (Pg.predicateClauses 0 (1 + length (kv :: kvs)) ws)
                   end;
            bindings := List.map snd (kv :: kvs) ++ List.map p_value ws |}.
  split; [|split].
  - subst setLite. destruct ws as [|w ws'].
    + cbn [List.map]. now rewrite app_nil_r, append_nil_r, <- !append_assoc.
    + now rewrite <- !append_assoc.
  - subst setPg. rewrite Hlen. destruct ws as [|w ws'].
    + cbn [List.map]. now rewrite app_nil_r, append_nil_r, <- !append_assoc.
    + now rewrite <- !append_assoc.
  - cbn [sql bindings]. cbv zeta.
    split; [reflexivity|]. split; [reflexivity|].
    split; [reflexivity|]. split; [reflexivity|]. split.
    + intros Hq Hwq. apply Forall_cons in Hq as [Hqt Hqc].
      specialize (HmarksSet Hqc). specialize (HmarksWhere Hwq).
      split; [exact HmarksSet|]. split; [exact HmarksWhere|].
      unfold questionMarks, freeOf in *.
      rewrite !countChar_append, HmarksSet, HmarksWhere, Hqt. reflexivity.
    + intros Hd Hwd. apply Forall_cons in Hd as [Hdt Hdc].
      specialize (HrefsSet Hdc). specialize (HrefsWhere Hwd).
      split; [exact HrefsSet|]. split; [exact HrefsWhere|].
      match goal with
      | |- references ("UPDATE " +:+ tableName +:+ setPg +:+ ?w) = _ =>
          replace ("UPDATE " +:+ tableName +:+ setPg +:+ w)
            with (("UPDATE " +:+ tableName +:+ setPg) +:+ w)
            by (now rewrite !append_assoc)
      end.
      rewrite references_append by (destruct ws; reflexivity).
      rewrite HrefsWhere. f_equal.
      rewrite references_skip by reflexivity.
      rewrite references_skip by assumption. exact HrefsSet.
Qed.

(** X2, on an update of two columns under two conditions. *)
Lemma update_binds_set_values_witness :
  exists lite pg,
    Sqlite.compileUpdate "users"
      (Some [("name", VStr "Ann"); ("age", VNum 31)])
      [mkPredicate "id" "=" (VNum 7) "AND"; mkPredicate "age" "<" (VNum 40) "OR"]
    = Ok lite /\
    Pg.compileUpdate "users"
      (Some [("name", VStr "Ann"); ("age", VNum 31)])
      [mkPredicate "id" "=" (VNum 7) "AND"; mkPredicate "age" "<" (VNum 40) "OR"]
    = Ok pg /\
    bindings lite = [VStr "Ann"; VNum 31; VNum 7; VNum 40] /\
    bindings pg = bindings lite /\
    sql lite = "UPDATE users SET name = ?, age = ? WHERE id = ? OR age < ?" /\
    sql pg = "UPDATE users SET name = $1, age = $2 WHERE id = $3 OR age < $4" /\
    questionMarks (sql lite) = 4 /\
    references (sql pg) = [1; 2; 3; 4].
Proof.
  destruct (update_binds_set_values_then_where_values "users"
              [("name", VStr "Ann"); ("age", VNum 31)]
              [mkPredicate "id" "=" (VNum 7) "AND";
               mkPredicate "age" "<" (VNum 40) "OR"])
    as (lite & pg & E1 & E2 & B1 & B2 & T1 & T2 & Q & R).
  - discriminate.
  - repeat constructor; cbn; intuition discriminate.
  - exists lite, pg.
    destruct Q as (_ & _ & Q); [repeat constructor.. |].
    destruct R as (_ & _ & R); [repeat constructor.. |].
    rewrite Q, R.
    repeat split; assumption.
Defined.



(** * The query cache in use *)

Section CacheRoundTrip.

Implicit Types (qc : Cache.QueryCache) (c : Lru.t).

Lemma truthy_defined value : truthy value = true -> value <> VUndefined.
Proof. intros H ->. discriminate. Qed.

Lemma get_hit sql bindings dialect qc value :
  Lru.find (Cache.generateCacheKey sql bindings dialect) (Cache.cache qc)
  = Some value ->
  value <> VUndefined ->
  fst (Cache.get sql bindings dialect qc) = value /\
  Cache.hits (Cache.stats (snd (Cache.get sql bindings dialect qc)))
  = S (Cache.hits (Cache.stats qc)) /\
  Cache.misses (Cache.stats (snd (Cache.get sql bindings dialect qc)))
  = Cache.misses (Cache.stats qc).
Proof.
  intros Hfind Hdef. unfold Cache.get, Lru.get. rewrite Hfind.
  destruct value; try contradiction; cbn; auto.
Qed.

Lemma step_counters o qc :
  Cache.hits (Cache.stats (Cache.step qc o))
  + Cache.misses (Cache.stats (Cache.step qc o))
  = match o with
    | Cache.OpGet _ _ _ =>
        S (Cache.hits (Cache.stats qc) + Cache.misses (Cache.stats qc))
    | Cache.OpClear => 0
    | _ => Cache.hits (Cache.stats qc) + Cache.misses (Cache.stats qc)
    end /\
  Cache.sets (Cache.stats (Cache.step qc o))
  = match o with
    | Cache.OpSet _ _ value _ _ =>
        if truthy value then S (Cache.sets (Cache.stats qc))
        else Cache.sets (Cache.stats qc)
    | Cache.OpClear => 0
    | _ => Cache.sets (Cache.stats qc)
    end.
Proof.
  destruct o as [sql bindings dialect|sql bindings value dialect tables|arg|key|];
    cbn [Cache.step].
  - unfold Cache.get. destruct (Lru.get _ _) as [v c].
    destruct v; cbn; split; lia.
  - destruct (truthy value) eqn:E.
    + rewrite set_truthy by exact E. cbn. split; reflexivity.
    + rewrite set_falsy by exact E. cbn. split; reflexivity.
  - unfold Cache.invalidateByTables.
    destruct arg as [|table|tableList]; [split; reflexivity| |].
    + destruct (String.eqb table ""); [split; reflexivity|].
      destruct (Cache.invalidateLoop _ _ _) as [[n c] tm]. split; reflexivity.
    + destruct (Cache.invalidateLoop _ _ _) as [[n c] tm]. split; reflexivity.
  - split; reflexivity.
  - split; reflexivity.
Qed.

Lemma run_counters ops qc n s :
  Cache.hits (Cache.stats qc) + Cache.misses (Cache.stats qc) = n ->
  Cache.sets (Cache.stats qc) = s ->
  Cache.hits (Cache.stats (Cache.run ops qc))
  + Cache.misses (Cache.stats (Cache.run ops qc))
  = fold_left (fun n o => match o with
                          | Cache.OpGet _ _ _ => S n
                          | Cache.OpClear => 0
                          | _ => n
                          end) ops n /\
  Cache.sets (Cache.stats (Cache.run ops qc))
  = fold_left (fun n o => match o with
                          | Cache.OpSet _ _ value _ _ =>
                              if truthy value then S n else n
                          | Cache.OpClear => 0
                          | _ => n
                          end) ops s.
Proof.
  unfold Cache.run. revert qc n s.
  induction ops as [|o ops IH]; intros qc n s Hn Hs; [split; assumption|].
  cbn [fold_left]. destruct (step_counters o qc) as [H1 H2].
  apply IH.
  - rewrite H1. destruct o; lia.
  - rewrite H2. destruct o; try lia. destruct (truthy value); lia.
Qed.

Lemma remove_shorter key c :
  Lru.has key c = true -> S (length (Lru.remove key c)) <= length c.
Proof.
  unfold Lru.has. induction c as [|[k v] c IH]; [discriminate|].
  cbn [Lru.find Lru.remove]. destruct (String.eqb k key).
  - intros _. cbn [length].
    assert (length (Lru.remove key c) <= length c); [|lia].
    clear. induction c as [|[k' v'] c IH]; [reflexivity|].
    cbn [Lru.remove]. destruct (String.eqb k' key); cbn [length]; lia.
  - intros H. cbn [length]. specialize (IH H). lia.
Qed.

Lemma remove_no_longer key c : length (Lru.remove key c) <= length c.
Proof.
  induction c as [|[k v] c IH]; [reflexivity|].
  cbn [Lru.remove]. destruct (String.eqb k key); cbn [length]; lia.
Qed.

Lemma lru_set_bounded max key value c :
  0 < max -> length c <= max -> length (Lru.set max key value c) <= max.
Proof.
  intros Hmax Hc. unfold Lru.set. destruct (Lru.has key c) eqn:Hhas.
  - cbn [length]. pose proof (remove_shorter key c Hhas). lia.
  - destruct (0 <? max) eqn:E1; [|apply Nat.ltb_ge in E1; lia].
    destruct (max <=? length c) eqn:E2; cbn [andb length].
    + apply Nat.leb_le in E2.
      rewrite removelast_firstn_len, length_take. lia.
    + apply Nat.leb_gt in E2. lia.
Qed.

Lemma lru_get_bounded key c : length (snd (Lru.get key c)) <= length c.
Proof.
  unfold Lru.get. destruct (Lru.find key c) eqn:E; [|reflexivity].
  cbn [snd length]. apply remove_shorter. unfold Lru.has. now rewrite E.
Qed.

Lemma step_bounded o qc :
  0 < Cache.optMax qc ->
  Lru.distinctKeys (Cache.cache qc) ->
  length (Cache.cache qc) <= Cache.optMax qc ->
  Cache.optMax (Cache.step qc o) = Cache.optMax qc /\
  length (Cache.cache (Cache.step qc o)) <= Cache.optMax qc.
Proof.
  intros Hmax Hd Hlen.
  destruct o as [sql bindings dialect|sql bindings value dialect tables|arg|key|];
    cbn [Cache.step].
  - destruct (get_fields sql bindings dialect qc) as [_ Hc]. rewrite Hc.
    split.
    + unfold Cache.get. destruct (Lru.get _ _) as [v c]. destruct v; reflexivity.
    + pose proof (lru_get_bounded
                    (Cache.generateCacheKey sql bindings dialect) (Cache.cache qc)).
      lia.
  - destruct (truthy value) eqn:E.
    + rewrite set_truthy by exact E. cbn [snd Cache.optMax Cache.cache].
      split; [reflexivity|]. now apply lru_set_bounded.
    + rewrite set_falsy by exact E. split; [reflexivity | exact Hlen].
  - assert (Harr : forall tableList,
               Cache.optMax (snd (Cache.invalidateByTables
                                    (Cache.Array tableList) qc))
               = Cache.optMax qc /\
               length (Cache.cache (snd (Cache.invalidateByTables
                                           (Cache.Array tableList) qc)))
               <= Cache.optMax qc).
    { intros tableList. rewrite invalidateByTables_Array.
      cbn [snd Cache.optMax Cache.cache]. split; [reflexivity|].
      destruct (invalidateLoop_count tableList (Cache.cache qc)
                  (Cache.tableMap qc) Hd) as [_ Hcount]. lia. }
    destruct arg as [|table|tableList]; [split; [reflexivity | exact Hlen]| |].
    + change (Cache.invalidateByTables (Cache.Single table) qc)
        with (if String.eqb table "" then (0, qc)
              else Cache.invalidateByTables (Cache.Array [table]) qc).
      destruct (String.eqb table ""); [split; [reflexivity | exact Hlen]|].
      apply Harr.
    + apply Harr.
  - cbn [Cache.expire Cache.optMax Cache.cache]. split; [reflexivity|].
    pose proof (remove_no_longer key (Cache.cache qc)). lia.
  - cbn. split; [reflexivity | lia].
Qed.

Lemma run_bounded ops qc :
  0 < Cache.optMax qc ->
  Lru.distinctKeys (Cache.cache qc) ->
  length (Cache.cache qc) <= Cache.optMax qc ->
  Cache.optMax (Cache.run ops qc) = Cache.optMax qc /\
  length (Cache.cache (Cache.run ops qc)) <= Cache.optMax qc.
Proof.
  unfold Cache.run. revert qc.
  induction ops as [|o ops IH]; intros qc Hmax Hd Hlen; [split; [reflexivity | exact Hlen]|].
  cbn [fold_left]. destruct (step_bounded o qc Hmax Hd Hlen) as [Hm Hl].
  rewrite <- Hm. apply IH; rewrite ?Hm; try assumption.
  now apply step_distinct.
Qed.

Lemma invalidateLoop_unindexed tableList c (tm : gmap string (gset string)) :
  (forall table, table ∈ tableList -> tm !! table = None) ->
  Cache.invalidateLoop tableList c tm = (0, c, tm).
Proof.
  induction tableList as [|table rest IH]; intros H; [reflexivity|].
  cbn [Cache.invalidateLoop]. rewrite (H table) by (apply elem_of_cons; auto).
  apply IH. intros t Ht. apply H, elem_of_cons. auto.
Qed.

End CacheRoundTrip.

(** X4: a [get] with the arguments of a preceding [set] of a truthy value
    returns that value and counts as a hit, whatever the cache held before
    and whatever its capacity; a [set] of a falsy value returns [false] and
    leaves the cache as it was. *)
Theorem get_returns_what_set_stored
    (sql : string) (bindings : list jsval) (value : jsval) (dialect : string)
    (tables : gset string) (qc : Cache.QueryCache) :
  if truthy value
  then
    fst (Cache.set sql bindings value dialect tables qc) = true /\
    fst (Cache.get sql bindings dialect
           (snd (Cache.set sql bindings value dialect tables qc))) = value /\
    Cache.hits (Cache.stats (snd (Cache.get sql bindings dialect
           (snd (Cache.set sql bindings value dialect tables qc)))))
    = S (Cache.hits (Cache.stats qc)) /\
    Cache.misses (Cache.stats (snd (Cache.get sql bindings dialect
           (snd (Cache.set sql bindings value dialect tables qc)))))
    = Cache.misses (Cache.stats qc)
  else Cache.set sql bindings value dialect tables qc = (false, qc).
Proof.
  destruct (truthy value) eqn:E; [|now apply set_falsy].
  pose proof (get_hit sql bindings dialect
                (snd (Cache.set sql bindings value dialect tables qc)) value)
    as H.
  rewrite set_truthy in * by exact E.
  cbn [fst snd Cache.cache Cache.stats Cache.hits Cache.misses] in *.
  split; [reflexivity|].
  apply H; [apply find_set_eq | now apply truthy_defined].
Qed.

(** X5: after any sequence of operations on a new cache, the [total] that
    [getStats] reports is the number of [get] calls since the last [clear]
    (each one counted once, as a hit or as a miss), and [sets] is the
    number of [set] calls with a truthy value since then. *)
Theorem stats_count_the_gets_and_sets (max : nat) (ops : list Cache.op) :
  Cache.r_total (Cache.getStats (Cache.run ops (Cache.create max)))
  = getsSinceClear ops /\
  Cache.r_hits (Cache.getStats (Cache.run ops (Cache.create max)))
  + Cache.r_misses (Cache.getStats (Cache.run ops (Cache.create max)))
  = getsSinceClear ops /\
  Cache.r_sets (Cache.getStats (Cache.run ops (Cache.create max)))
  = setsSinceClear ops.
Proof.
  destruct (run_counters ops (Cache.create max) 0 0 eq_refl eq_refl) as [H1 H2].
  unfold Cache.getStats, getsSinceClear, setsSinceClear.
  cbn [Cache.r_total Cache.r_hits Cache.r_misses Cache.r_sets].
  auto.
Qed.

(** X6: a cache created with a positive [max] never holds more than [max]
    entries: after any sequence of operations, the [size] that [getStats]
    reports is at most the [maxSize] it reports. *)
Theorem size_stays_within_max (max : nat) (ops : list Cache.op) :
  0 < max ->
  Cache.r_maxSize (Cache.getStats (Cache.run ops (Cache.create max))) = max /\
  Cache.r_size (Cache.getStats (Cache.run ops (Cache.create max))) <= max.
Proof.
  intros Hmax.
  destruct (run_bounded ops (Cache.create max)) as [Hm Hl].
  - exact Hmax.
  - constructor.
  - cbn. lia.
  - unfold Cache.getStats, Lru.size. cbn [Cache.r_maxSize Cache.r_size].
    split; [exact Hm | exact Hl].
Qed.

(** X6, on a cache of capacity 1 that is given two results. *)
Lemma size_stays_within_max_witness :
  Cache.r_maxSize (Cache.getStats (Cache.run
    [Cache.OpSet "SELECT * FROM users" [] (VArr []) "pg" {["users"]};
     Cache.OpSet "SELECT * FROM orders" [] (VArr []) "pg" {["orders"]}]
    (Cache.create 1))) = 1 /\
  Cache.r_size (Cache.getStats (Cache.run
    [Cache.OpSet "SELECT * FROM users" [] (VArr []) "pg" {["users"]};
     Cache.OpSet "SELECT * FROM orders" [] (VArr []) "pg" {["orders"]}]
    (Cache.create 1))) <= 1.
Proof.
  apply (size_stays_within_max 1
    [Cache.OpSet "SELECT * FROM users" [] (VArr []) "pg" {["users"]};
     Cache.OpSet "SELECT * FROM orders" [] (VArr []) "pg" {["orders"]}]).
  lia.
Defined.

(** X7: invalidating is idempotent: a second [invalidateByTables] with the
    same tables removes nothing, returns 0 and leaves the cache, its index
    and its counters as the first call left them. *)
Theorem invalidating_twice_changes_nothing
    (tableList : list string) (qc : Cache.QueryCache) :
  Cache.invalidateByTables (Cache.Array tableList)
    (snd (Cache.invalidateByTables (Cache.Array tableList) qc))
  = (0, snd (Cache.invalidateByTables (Cache.Array tableList) qc)).
Proof.
  rewrite (invalidateByTables_Array tableList qc). cbn [snd].
  rewrite invalidateByTables_Array. cbn [Cache.cache Cache.tableMap Cache.optMax
                                         Cache.stats Cache.hits Cache.misses
                                         Cache.sets Cache.invalidations].
  rewrite invalidateLoop_unindexed.
  - cbn [fst snd]. now rewrite Nat.add_0_r.
  - intros table Ht. rewrite invalidateLoop_index. now rewrite decide_True.
Qed.

(** ** What the table extractor finds in a compiled statement *)

Section ExtractorFinds.

Lemma isWord_isIdent x : Cache.isWord x = true -> Cache.isIdent x = true.
Proof. unfold Cache.isIdent. now intros ->. Qed.

Lemma isWord_classes x :
  Cache.isWord x = true ->
  Cache.isSpace x = false /\ Cache.isQuoting x = false /\
  (nat_of_ascii x =? 46) = false.
Proof.
  unfold Cache.isWord, Cache.isSpace, Cache.isQuoting, isUpper, isLower.
  generalize (nat_of_ascii x) as n. intros n H.
  rewrite !orb_true_iff, !andb_true_iff, !Nat.leb_le, Nat.eqb_eq in H.
  repeat split; apply not_true_iff_false;
    rewrite ?orb_true_iff, ?andb_true_iff, ?Nat.leb_le, ?Nat.eqb_eq; lia.
Qed.

(** No white-space character starts with a byte that is no white space
    itself and stands below the lead bytes: an ASCII character that is
    not blank, or a continuation byte. *)
Lemma spaceWidth_ink x s :
  Cache.isSpace x = false -> nat_of_ascii x < 194 ->
  Cache.spaceWidth (String x s) = 0.
Proof.
  intros Hx Hlt. cbn [Cache.spaceWidth]. rewrite Hx.
  destruct s as [|c2 [|c3 s]]; try reflexivity;
    unfold Cache.isSpace2, Cache.isSpace3;
    repeat match goal with
           | |- context [nat_of_ascii x =? ?n] =>
               replace (nat_of_ascii x =? n) with false
                 by (symmetry; apply Nat.eqb_neq; lia)
           end;
    reflexivity.
Qed.

Lemma spaceRun_ink x s :
  Cache.isSpace x = false -> nat_of_ascii x < 194 ->
  Cache.spaceRun 0 (String x s) = 0.
Proof.
  intros Hx Hlt. cbn [Cache.spaceRun]. now rewrite spaceWidth_ink.
Qed.

Lemma isWord_ink x :
  Cache.isWord x = true -> Cache.isSpace x = false /\ nat_of_ascii x < 194.
Proof.
  unfold Cache.isWord, Cache.isSpace, isUpper, isLower.
  generalize (nat_of_ascii x) as n. intros n H.
  rewrite !orb_true_iff, !andb_true_iff, !Nat.leb_le, Nat.eqb_eq in H.
  split; [|lia]. apply not_true_iff_false.
  rewrite ?orb_true_iff, ?andb_true_iff, ?Nat.leb_le, ?Nat.eqb_eq. lia.
Qed.

Lemma spaceRun_word x s :
  Cache.isWord x = true -> Cache.spaceRun 0 (String x s) = 0.
Proof. intros [H1 H2]%isWord_ink. now apply spaceRun_ink. Qed.

(** One blank before a word is all the white space there is. *)
Lemma spaceRun_blank s : Cache.spaceRun 0 (String " " s) = S (Cache.spaceRun 0 s).
Proof. reflexivity. Qed.

Lemma allChars_weaken (p q : ascii -> bool) s :
  (forall x, p x = true -> q x = true) -> allChars p s -> allChars q s.
Proof.
  intros Hpq. induction s as [|x s IH]; [auto|].
  intros [Hx Hs]. split; auto.
Qed.

(** A greedy run stops where the text stops satisfying the class. *)
Lemma span_all_append (p : ascii -> bool) t rest :
  allChars p t ->
  match rest with EmptyString => True | String c _ => p c = false end ->
  Cache.span p (t +:+ rest) = (t, rest).
Proof.
  intros Ht Hrest. induction t as [|x t IH].
  - rewrite append_nil_l. destruct rest as [|c r]; [reflexivity|].
    rewrite span_cons, Hrest. reflexivity.
  - destruct Ht as [Hx Ht]. rewrite append_cons, span_cons, Hx, (IH Ht).
    reflexivity.
Qed.

Lemma stripQuoting_word t : allChars Cache.isWord t -> Cache.stripQuoting t = t.
Proof.
  induction t as [|x t IH]; [reflexivity|]. intros [Hx Ht].
  cbn [Cache.stripQuoting].
  destruct (isWord_classes x Hx) as (_ & -> & _). now rewrite (IH Ht).
Qed.

Lemma beforeAs_word t : allChars Cache.isWord t -> Cache.beforeAs t = t.
Proof.
  induction t as [|x t IH]; [reflexivity|]. intros [Hx Ht].
  cbn [Cache.beforeAs]. unfold Cache.asAt.
  rewrite (spaceRun_word x t Hx). cbn [Nat.eqb negb andb].
  now rewrite (IH Ht).
Qed.

Lemma trim_word t : allChars Cache.isWord t -> Cache.trim t = t.
Proof.
  unfold Cache.trim. intros Ht.
  assert (Cache.trimStart t = t) as ->.
  { destruct t as [|x t]; [reflexivity|]. destruct Ht as [Hx _].
    unfold Cache.trimStart. now rewrite (spaceRun_word x t Hx). }
  induction t as [|x t IH]; [reflexivity|]. destruct Ht as [Hx Ht].
  cbn [Cache.trimEnd]. rewrite (IH Ht), (spaceRun_word x t Hx). reflexivity.
Qed.

Lemma includesDot_word t : allChars Cache.isWord t -> Cache.includesDot t = false.
Proof.
  induction t as [|x t IH]; [reflexivity|]. intros [Hx Ht].
  cbn [Cache.includesDot].
  destruct (isWord_classes x Hx) as (_ & _ & ->). now rewrite (IH Ht).
Qed.

(** A captured word goes into the set as it is, in lower case. *)
Lemma tableOfMatch_word t (tables : gset string) :
  t <> "" -> allChars Cache.isWord t ->
  Cache.tableOfMatch t tables = tables ∪ {[toLowerCase t]}.
Proof.
  intros Hne Ht. unfold Cache.tableOfMatch.
  rewrite (stripQuoting_word _ Ht), (beforeAs_word _ Ht), (trim_word _ Ht),
    (includesDot_word _ Ht).
  destruct (String.eqb t "") eqn:E; [|reflexivity].
  apply String.eqb_eq in E. contradiction.
Qed.

Lemma tableOfMatch_incl m (tables : gset string) :
  tables ⊆ Cache.tableOfMatch m tables.
Proof.
  unfold Cache.tableOfMatch. destruct (String.eqb _ ""); set_solver.
Qed.

Lemma matches_incl ms (tables : gset string) :
  tables ⊆ fold_left (fun tables m => Cache.tableOfMatch m tables) ms tables.
Proof.
  revert tables. induction ms as [|m ms IH]; intros tables; [set_solver|].
  cbn [fold_left]. etransitivity; [apply (tableOfMatch_incl m)|apply IH].
Qed.

Lemma matches_find ms (tables : gset string) t :
  In t ms -> t <> "" -> allChars Cache.isWord t ->
  toLowerCase t ∈
    fold_left (fun tables m => Cache.tableOfMatch m tables) ms tables.
Proof.
  intros Hin Hne Ht. revert tables.
  induction ms as [|m ms IH]; intros tables; [contradiction|].
  cbn [fold_left]. destruct Hin as [-> | Hin]; [|now apply IH].
  apply (matches_incl ms). rewrite tableOfMatch_word by assumption.
  set_solver.
Qed.

Lemma extract_finds kw sql t :
  In kw Cache.tableKeywords -> In t (Cache.execAll kw 0 sql) ->
  t <> "" -> allChars Cache.isWord t ->
  toLowerCase t ∈ Cache.extractTablesFromQuery sql.
Proof.
  intros Hkw Hin Hne Ht. unfold Cache.extractTablesFromQuery.
  generalize (∅ : gset string) as tables. revert Hkw.
  generalize Cache.tableKeywords as kws.
  induction kws as [|k kws IH]; intros Hkw tables; [contradiction|].
  cbn [fold_left]. destruct Hkw as [-> | Hkw]; [|now apply IH].
  assert (Hmono : forall kws tables,
             tables ⊆ fold_left
               (fun tables kw =>
                  fold_left (fun tables m => Cache.tableOfMatch m tables)
                            (Cache.execAll kw 0 sql) tables) kws tables).
  { clear. induction kws as [|k kws IH]; intros tables; [set_solver|].
    cbn [fold_left]. etransitivity; [apply (matches_incl (Cache.execAll k 0 sql))|].
    apply IH. }
  apply Hmono. now apply matches_find.
Qed.

(** The scan moves on from a position where the keyword does not start. *)
Lemma execAll_skip kw c a s :
  Cache.afterKeyword kw (String c (a +:+ s)) = None ->
  Cache.execAll kw 0 (String c a +:+ s) = Cache.execAll kw 0 (a +:+ s).
Proof.
  intros H. rewrite append_cons. cbn [Cache.execAll]. unfold Cache.matchAt.
  now rewrite H.
Qed.

(** The keyword, one blank and a word: the word is captured. *)
Lemma execAll_finds kw c pre t rest :
  (forall y, Cache.afterKeyword kw (String c pre +:+ y) = Some (String " " y)) ->
  t <> "" -> allChars Cache.isWord t ->
  match rest with EmptyString => True | String x _ => Cache.isIdent x = false end ->
  In t (Cache.execAll kw 0 (String c pre +:+ t +:+ rest)).
Proof.
  intros Hkw Hne Ht Hrest.
  pose proof (Hkw (t +:+ rest)) as Hafter. rewrite append_cons in Hafter |- *.
  cbn [Cache.execAll]. unfold Cache.matchAt. rewrite Hafter.
  destruct t as [|x t]; [contradiction|]. destruct Ht as [Hx Ht].
  rewrite spaceRun_blank, (append_cons x t rest), (spaceRun_word x _ Hx).
  cbn [Cache.dropBytes Nat.eqb orb].
  rewrite <- (append_cons x t rest).
  rewrite (span_all_append Cache.isIdent (String x t) rest); [|split|exact Hrest].
  - cbn [String.eqb orb]. left. reflexivity.
  - now apply isWord_isIdent.
  - eapply allChars_weaken; [apply isWord_isIdent | exact Ht].
Qed.

Lemma join_head sep x l :
  exists rest, join sep (x :: l) = x +:+ rest /\
               (rest = "" \/ exists r, rest = sep +:+ r).
Proof.
  destruct l as [|y l].
  - exists "". split; [|now left]. cbn. now rewrite append_nil_r.
  - exists (sep +:+ join sep (y :: l)). split; [apply join_cons|].
    right. now eexists.
Qed.

End ExtractorFinds.

Section CompiledTexts.

Variable t : string.
Hypothesis t_nonempty : t <> "".
Hypothesis t_word : allChars Cache.isWord t.

(** The four openings of the compiled statements. *)
Lemma opening_finds sql rest :
  match rest with EmptyString => True | String x _ => Cache.isIdent x = false end ->
  sql = "SELECT * FROM " +:+ t +:+ rest \/ sql = "DELETE FROM " +:+ t +:+ rest \/
  sql = "INSERT INTO " +:+ t +:+ rest \/ sql = "UPDATE " +:+ t +:+ rest ->
  toLowerCase t ∈ Cache.extractTablesFromQuery sql.
Proof.
  intros Hrest [-> | [-> | [-> | ->]]].
  - apply (extract_finds "FROM"); [cbn; tauto | | assumption..].
    repeat rewrite execAll_skip by reflexivity.
    apply execAll_finds; auto.
  - apply (extract_finds "FROM"); [cbn; tauto | | assumption..].
    repeat rewrite execAll_skip by reflexivity.
    apply execAll_finds; auto.
  - apply (extract_finds "INTO"); [cbn; tauto | | assumption..].
    repeat rewrite execAll_skip by reflexivity.
    apply execAll_finds; auto.
  - apply (extract_finds "UPDATE"); [cbn; tauto | | assumption..].
    apply execAll_finds; auto.
Qed.

Lemma select_text_finds more :
  toLowerCase t ∈
    Cache.extractTablesFromQuery
      (join " " ("SELECT" :: ["*"] ++ ["FROM " +:+ t] ++ more)).
Proof.
  destruct (join_head " " ("FROM " +:+ t) more) as (rest & Hjoin & Hrest).
  apply (opening_finds _ rest).
  - destruct Hrest as [-> | [r ->]]; [exact I | reflexivity].
  - left. cbn [app]. rewrite !join_cons, Hjoin. reflexivity.
Qed.

End CompiledTexts.

(** X8: the table extractor finds the table of every statement the query
    compilers produce for a table whose name is a non-empty word (letters,
    digits, underscores): the lower-cased name is in the set extracted from
    a compiled INSERT, UPDATE or DELETE, and from a compiled SELECT with the
    default projection. *)
Theorem extractor_finds_the_table_of_compiled_statements (t : string) :
  t <> "" -> allChars Cache.isWord t ->
  (forall st c warnings,
     st_select st = None \/ st_select st = Some [] ->
     Sqlite.compileSelect t st = (Ok c, warnings) ->
     toLowerCase t ∈ Cache.extractTablesFromQuery (sql c)) /\
  (forall st c,
     st_select st = None \/ st_select st = Some [] ->
     Pg.compileSelect t st = Ok c ->
     toLowerCase t ∈ Cache.extractTablesFromQuery (sql c)) /\
  (forall data c,
     Sqlite.compileInsert t data = Ok c \/ Pg.compileInsert t data = Ok c ->
     toLowerCase t ∈ Cache.extractTablesFromQuery (sql c)) /\
  (forall data ws c,
     Sqlite.compileUpdate t data ws = Ok c \/ Pg.compileUpdate t data ws = Ok c ->
     toLowerCase t ∈ Cache.extractTablesFromQuery (sql c)) /\
  (forall ws c,
     Sqlite.compileDelete t ws = Ok c \/ Pg.compileDelete t ws = Ok c ->
     toLowerCase t ∈ Cache.extractTablesFromQuery (sql c)).
Proof.
  intros Hne Ht. repeat split.
  - intros st c warnings Hsel Hc. unfold Sqlite.compileSelect in Hc.
    rewrite sqlite_selectParts_shape in Hc. injection Hc as <- _.
    cbn [sql].
    assert (selectSeg st = ["*"]) as ->
      by (unfold selectSeg; destruct Hsel as [-> | ->]; reflexivity).
    now apply select_text_finds.
  - intros st c Hsel Hc. unfold Pg.compileSelect in Hc.
    rewrite pg_selectParts_shape in Hc. injection Hc as <-.
    cbn [sql].
    assert (selectSeg st = ["*"]) as ->
      by (unfold selectSeg; destruct Hsel as [-> | ->]; reflexivity).
    now apply select_text_finds.
  - intros data c [Hc | Hc];
      unfold Sqlite.compileInsert, Pg.compileInsert in Hc;
      destruct (rowsOf data) as [|[row0|] rest]; try discriminate;
      destruct (allValues (keys row0) (Some row0 :: rest)); try discriminate;
      injection Hc as <-; cbn [sql];
      (eapply opening_finds; [assumption.. | | right; right; left; reflexivity]);
      reflexivity.
  - intros data ws c [Hc | Hc];
      unfold Sqlite.compileUpdate, Pg.compileUpdate in Hc;
      destruct data as [[|kv kvs]|]; try discriminate;
      destruct ws as [|w ws]; injection Hc as <-; cbn [sql];
      rewrite ?append_assoc;
      (eapply opening_finds; [assumption.. | | right; right; right; reflexivity]);
      reflexivity.
  - intros ws c [Hc | Hc];
      unfold Sqlite.compileDelete, Pg.compileDelete in Hc;
      destruct ws as [|w ws]; injection Hc as <-; cbn [sql];
      rewrite ?append_assoc.
    + apply (opening_finds t Hne Ht _ ""); [exact I|].
      right; left. now rewrite append_nil_r.
    + eapply opening_finds; [assumption.. | | right; left; reflexivity].
      reflexivity.
    + apply (opening_finds t Hne Ht _ ""); [exact I|].
      right; left. now rewrite append_nil_r.
    + eapply opening_finds; [assumption.. | | right; left; reflexivity].
      reflexivity.
Qed.

(** X8, on the table [Users]. *)
Lemma extractor_finds_the_table_witness :
  "users" ∈ Cache.extractTablesFromQuery
              "DELETE FROM Users WHERE id = ?" /\
  "users" ∈ Cache.extractTablesFromQuery
              "INSERT INTO Users (name) VALUES ($1) RETURNING id".
Proof.
  assert (Hne : "Users" <> "") by discriminate.
  assert (Ht : allChars Cache.isWord "Users") by (cbn; tauto).
  destruct (extractor_finds_the_table_of_compiled_statements "Users" Hne Ht)
    as (_ & _ & Hins & _ & Hdel).
  split.
  - apply (Hdel [mkPredicate "id" "=" (VNum 1) "AND"]
                {| sql := "DELETE FROM Users WHERE id = ?";
                   bindings := [VNum 1] |}).
    left. reflexivity.
  - apply (Hins (OneRow (Some [("name", VStr "Ann")]))
                {| sql := "INSERT INTO Users (name) VALUES ($1) RETURNING id";
                   bindings := [VStr "Ann"] |}).
    right. reflexivity.
Defined.

(** ** The cache middleware *)

Section MiddlewareFacts.

Lemma isWrite_not_select method :
  Middleware.isWrite method = true -> String.eqb method "select" = false.
Proof.
  unfold Middleware.isWrite. cbn [existsb]. rewrite !orb_true_iff.
  intros [H | [H | [H | H]]]; try discriminate;
    apply String.eqb_eq in H; subst; reflexivity.
Qed.

End MiddlewareFacts.

(** X9: through the middleware, the response of a select is cached under
    the tables extracted from its text: the same select is then answered
    from the cache, by the [query] handler and again by the
    [query:response] handler, whatever response arrives; after the response
    of an insert, update or delete whose text shares an extracted table with
    the select, the same select is a miss again. *)
Theorem middleware_serves_and_invalidates_selects
    (client : string) (sel wr : Middleware.Query) (response other : jsval)
    (table : string) (qc : Cache.QueryCache) :
  Middleware.q_method sel = "select" ->
  Middleware.q_cachedResult sel = VUndefined ->
  truthy response = true ->
  Middleware.isWrite (Middleware.q_method wr) = true ->
  Middleware.q_cachedResult wr = VUndefined ->
  table ∈ Cache.extractTablesFromQuery (Middleware.q_sql sel) ->
  table ∈ Cache.extractTablesFromQuery (Middleware.q_sql wr) ->
  let qc1 := snd (Middleware.onResponse client response sel qc) in
  let qc2 := snd (Middleware.onResponse client other wr qc1) in
  fst (Middleware.onResponse client response sel qc) = response /\
  fst (fst (Middleware.onQuery client sel qc1)) = response /\
  fst (Middleware.onResponse client other
         (snd (fst (Middleware.onQuery client sel qc1)))
         (snd (Middleware.onQuery client sel qc1))) = response /\
  fst (Middleware.onResponse client other wr qc1) = other /\
  fst (fst (Middleware.onQuery client sel qc2)) = VUndefined /\
  snd (fst (Middleware.onQuery client sel qc2)) = sel.
Proof.
  intros Hsel Hfresh Hresp Hwr Hwfresh Hts Htw qc1 qc2.
  pose proof (isWrite_not_select _ Hwr) as Hns.
  assert (Hqc1 : qc1 = snd (Cache.set (Middleware.q_sql sel)
                              (Middleware.q_bindings sel) response client
                              (Cache.extractTablesFromQuery (Middleware.q_sql sel))
                              qc)).
  { unfold qc1, Middleware.onResponse. rewrite Hfresh, Hsel. reflexivity. }
  assert (Hqc2 : qc2 = snd (Cache.invalidateByTables
                              (Cache.Array
                                 (elements (Cache.extractTablesFromQuery
                                              (Middleware.q_sql wr))))
                              qc1)).
  { unfold qc2, Middleware.onResponse. rewrite Hwfresh, Hns, Hwr. reflexivity. }
  assert (Hget : fst (Cache.get (Middleware.q_sql sel)
                        (Middleware.q_bindings sel) client qc1) = response).
  { rewrite Hqc1, set_truthy by exact Hresp. cbn [snd].
    apply get_hit; [apply find_set_eq | now apply truthy_defined]. }
  pose proof (set_registers (Middleware.q_sql sel) (Middleware.q_bindings sel)
                response client _ qc table Hresp Hts) as Hreg.
  rewrite <- Hqc1 in Hreg.
  assert (Hmiss : fst (Cache.get (Middleware.q_sql sel)
                         (Middleware.q_bindings sel) client qc2) = VNull).
  { apply get_miss. rewrite Hqc2, invalidateByTables_Array. cbn [snd Cache.cache].
    apply invalidateLoop_gone. right.
    destruct Hreg as (cacheKeys & Hlook & Hin).
    exists table, cacheKeys. split; [|split; assumption].
    now apply elem_of_elements. }
  clearbody qc1 qc2.
  split; [|split; [|split; [|split; [|split]]]].
  - unfold Middleware.onResponse. rewrite Hfresh, Hsel. reflexivity.
  - unfold Middleware.onQuery. rewrite Hsel. cbn [String.eqb Ascii.eqb Bool.eqb].
    destruct (Cache.get _ _ _ qc1) as [v qc'] eqn:E. cbn [fst] in Hget.
    subst v. rewrite Hresp. reflexivity.
  - unfold Middleware.onQuery. rewrite Hsel. cbn [String.eqb Ascii.eqb Bool.eqb].
    destruct (Cache.get _ _ _ qc1) as [v qc'] eqn:E. cbn [fst] in Hget.
    subst v. rewrite Hresp. cbn [fst snd]. unfold Middleware.onResponse.
    cbn [Middleware.q_cachedResult]. rewrite Hresp. reflexivity.
  - unfold Middleware.onResponse. rewrite Hwfresh, Hns, Hwr. reflexivity.
  - unfold Middleware.onQuery. rewrite Hsel. cbn [String.eqb Ascii.eqb Bool.eqb].
    destruct (Cache.get _ _ _ qc2) as [v qc'] eqn:E. cbn [fst] in Hmiss.
    subst v. reflexivity.
  - unfold Middleware.onQuery. rewrite Hsel. cbn [String.eqb Ascii.eqb Bool.eqb].
    destruct (Cache.get _ _ _ qc2) as [v qc'] eqn:E. cbn [fst] in Hmiss.
    subst v. reflexivity.
Qed.

(** X9, on a select of the table [users] and a delete on it. *)
Lemma middleware_serves_and_invalidates_witness :
  fst (fst (Middleware.onQuery "sqlite"
              (Middleware.mkQuery "select" "SELECT * FROM users" [] VUndefined)
              (snd (Middleware.onResponse "sqlite" (VArr [])
                      (Middleware.mkQuery "select" "SELECT * FROM users" []
                                          VUndefined)
                      (Cache.create 500)))))
  = VArr [] /\
  fst (fst (Middleware.onQuery "sqlite"
              (Middleware.mkQuery "select" "SELECT * FROM users" [] VUndefined)
              (snd (Middleware.onResponse "sqlite" (VNum 1)
                      (Middleware.mkQuery "delete"
                         "DELETE FROM users WHERE id = ?" [VNum 7] VUndefined)
                      (snd (Middleware.onResponse "sqlite" (VArr [])
                              (Middleware.mkQuery "select" "SELECT * FROM users"
                                                  [] VUndefined)
                              (Cache.create 500)))))))
  = VUndefined.
Proof.
  assert (M1 : "users" ∈ Cache.extractTablesFromQuery "SELECT * FROM users").
  { replace (Cache.extractTablesFromQuery "SELECT * FROM users")
      with ({["users"]} : gset string) by (vm_compute; reflexivity).
    now apply elem_of_singleton. }
  assert (M2 : "users" ∈ Cache.extractTablesFromQuery
                           "DELETE FROM users WHERE id = ?").
  { replace (Cache.extractTablesFromQuery "DELETE FROM users WHERE id = ?")
      with ({["users"]} : gset string) by (vm_compute; reflexivity).
    now apply elem_of_singleton. }
  destruct (middleware_serves_and_invalidates_selects "sqlite"
              (Middleware.mkQuery "select" "SELECT * FROM users" [] VUndefined)
              (Middleware.mkQuery "delete" "DELETE FROM users WHERE id = ?"
                                  [VNum 7] VUndefined)
              (VArr []) (VNum 1) "users" (Cache.create 500)
              eq_refl eq_refl eq_refl eq_refl eq_refl M1 M2)
    as (_ & H1 & _ & _ & H2 & _).
  split; assumption.
Defined.

(** * The drivers *)

Section Dispatch.

(** What [spaceWidth] finds is a white-space byte, or a byte outside
    ASCII followed by as many bytes outside ASCII as the width says. *)
Lemma spaceWidth_bytes x s k :
  Cache.spaceWidth (String x s) = S k ->
  (Cache.isSpace x = true \/ 128 <= nat_of_ascii x) /\
  forall a c b, s = a +:+ String c b -> String.length a < k ->
                128 <= nat_of_ascii c.
Proof.
  cbn [Cache.spaceWidth]. destruct (Cache.isSpace x) eqn:Hx.
  - intros [= <-]. split; [now left|]. intros a c b _ H. lia.
  - destruct s as [|c2 s2]; [discriminate|].
    destruct (Cache.isSpace2 x c2) eqn:H2.
    + intros [= <-]. unfold Cache.isSpace2 in H2.
      apply andb_true_iff in H2 as [H1%Nat.eqb_eq H2%Nat.eqb_eq].
      split; [right; lia|]. intros a c b E Hlen.
      destruct a as [|y a]; [|cbn [String.length] in Hlen; lia].
      rewrite append_nil_l in E. injection E as <- _. lia.
    + destruct s2 as [|c3 s3]; [discriminate|].
      destruct (Cache.isSpace3 x c2 c3) eqn:H3; [|discriminate].
      intros [= <-]. unfold Cache.isSpace3 in H3. cbv zeta in H3.
      repeat (rewrite ?orb_true_iff, ?andb_true_iff, ?Nat.leb_le,
                ?Nat.eqb_eq in H3).
      split; [right; lia|]. intros a c b E Hlen.
      destruct a as [|y [|z a]]; [| |cbn [String.length] in Hlen; lia].
      * rewrite append_nil_l in E. injection E as <- _. lia.
      * rewrite append_cons, append_nil_l in E. injection E as _ <- _. lia.
Qed.

(** A run of white space stops before an ASCII character that is not
    blank. *)
Lemma spaceRun_stops s :
  forall k a c b,
    s = a +:+ String c b ->
    Cache.isSpace c = false -> nat_of_ascii c < 128 ->
    (forall a' c' b', s = a' +:+ String c' b' -> String.length a' < k ->
                      128 <= nat_of_ascii c') ->
    Cache.spaceRun k s <= String.length a.
Proof.
  induction s as [|x s IH]; intros k a c b E Hc Hlt Hskip.
  - destruct a; discriminate.
  - assert (Hstep : forall k',
               (Cache.isSpace x = true \/ 128 <= nat_of_ascii x) ->
               (forall a' c' b', s = a' +:+ String c' b' ->
                                 String.length a' < k' -> 128 <= nat_of_ascii c') ->
               S (Cache.spaceRun k' s) <= String.length a).
    { intros k' Hx Hskip'. destruct a as [|y a].
      - rewrite append_nil_l in E. injection E as -> ->.
        destruct Hx as [Hx | Hx]; [congruence | lia].
      - rewrite append_cons in E. injection E as -> ->.
        cbn [String.length]. apply le_n_S.
        now apply (IH k' a c b eq_refl Hc Hlt). }
    cbn [Cache.spaceRun]. destruct k as [|k].
    + destruct (Cache.spaceWidth (String x s)) as [|k'] eqn:Hw; [lia|].
      destruct (spaceWidth_bytes x s k' Hw) as [Hx Hskip'].
      now apply Hstep.
    + apply Hstep.
      * right. apply (Hskip "" x s); [reflexivity | cbn; lia].
      * intros a' c' b' E' Hlen.
        apply (Hskip (String x a') c' b'); [now rewrite E' | cbn; lia].
Qed.

Lemma length_append_string a b :
  String.length (a +:+ b) = String.length a + String.length b.
Proof.
  induction a as [|x a IH]; [reflexivity|].
  rewrite append_cons. cbn [String.length]. now rewrite IH.
Qed.

(** [trimEnd] leaves alone what stands before an ASCII character that is
    not blank. *)
Lemma trimEnd_prefix a u c v :
  Cache.isSpace c = false -> nat_of_ascii c < 128 ->
  Cache.trimEnd (a +:+ u +:+ String c v)
  = a +:+ Cache.trimEnd (u +:+ String c v).
Proof.
  intros Hc Hlt. induction a as [|x a IH]; [reflexivity|].
  rewrite !append_cons. cbn [Cache.trimEnd]. rewrite IH.
  assert (Cache.spaceRun 0 (String x (a +:+ u +:+ String c v))
          <= String.length (String x (a +:+ u))) as Hrun.
  { apply (spaceRun_stops _ 0 (String x (a +:+ u)) c v); auto.
    - now rewrite append_cons, append_assoc.
    - intros a' c' b' _ H. lia. }
  replace (Cache.spaceRun 0 (String x (a +:+ u +:+ String c v))
           =? String.length (String x (a +:+ u +:+ String c v)))
    with false; [reflexivity|].
  symmetry. apply Nat.eqb_neq. cbn [String.length] in *.
  rewrite !length_append_string in *. cbn [String.length]. lia.
Qed.

(** The first word of a text that opens with one of the four statement
    words and a blank, and holds an ASCII character that is not blank
    after it. *)
Lemma firstWord_opening w u c v :
  In w ["SELECT"; "INSERT"; "UPDATE"; "DELETE"] ->
  Cache.isSpace c = false -> nat_of_ascii c < 128 ->
  firstWord (w +:+ " " +:+ u +:+ String c v) = w.
Proof.
  intros Hw Hc Hlt. unfold firstWord, Cache.trim.
  destruct Hw as [<- | [<- | [<- | [<- | []]]]];
    match goal with
    | |- context [Cache.trimStart (?w +:+ " " +:+ ?b)] =>
        change (Cache.trimStart (w +:+ " " +:+ b)) with ((w +:+ " ") +:+ b)
    end;
    rewrite trimEnd_prefix by assumption; reflexivity.
Qed.

Lemma select_text_opening tableName (seg more : list string) x :
  seg = [x] ->
  exists u v, join " " ("SELECT" :: seg ++ ["FROM " +:+ tableName] ++ more)
              = "SELECT" +:+ " " +:+ u +:+ String "F" v.
Proof.
  intros ->. cbn [app].
  destruct (join_head " " ("FROM " +:+ tableName) more) as (rest & Hjoin & _).
  exists (x +:+ " "), ("ROM " +:+ tableName +:+ rest).
  rewrite !join_cons, Hjoin, !append_assoc. reflexivity.
Qed.

Lemma Ok_inj {A} (a b : A) : Ok a = Ok b -> a = b.
Proof. congruence. Qed.

Lemma selectSeg_single st : exists x, selectSeg st = [x].
Proof.
  unfold selectSeg. destruct (st_select st) as [[|c cs]|]; eauto.
Qed.

End Dispatch.

(** X10: the SQLite driver runs every statement of its query compiler the
    way the statement needs, whatever the table name and the statement
    hold: a compiled SELECT goes to [db.all] and resolves with the rows, a
    compiled INSERT goes to [db.run] and resolves with the last id, a
    compiled UPDATE or DELETE goes to [db.run] and resolves with the row
    count; text and bindings are passed on unchanged. *)
Theorem sqlite_driver_runs_compiled_statements (tableName : string) :
  (forall st c warnings,
     Sqlite.compileSelect tableName st = (Ok c, warnings) ->
     SqliteDriver.executeQuery (sql c) (bindings c)
     = (SqliteDriver.DbAll (sql c) (bindings c), SqliteDriver.Rows)) /\
  (forall data c,
     Sqlite.compileInsert tableName data = Ok c ->
     SqliteDriver.executeQuery (sql c) (bindings c)
     = (SqliteDriver.DbRun (sql c) (bindings c), SqliteDriver.LastIdArray)) /\
  (forall data ws c,
     Sqlite.compileUpdate tableName data ws = Ok c ->
     SqliteDriver.executeQuery (sql c) (bindings c)
     = (SqliteDriver.DbRun (sql c) (bindings c), SqliteDriver.RowCountObject)) /\
  (forall ws c,
     Sqlite.compileDelete tableName ws = Ok c ->
     SqliteDriver.executeQuery (sql c) (bindings c)
     = (SqliteDriver.DbRun (sql c) (bindings c), SqliteDriver.RowCountObject)).
Proof.
  assert (Hrun : forall w u c v text,
             In w ["SELECT"; "INSERT"; "UPDATE"; "DELETE"] ->
             text = w +:+ " " +:+ u +:+ String c v ->
             Cache.isSpace c = false -> nat_of_ascii c < 128 ->
             firstWord text = w).
  { intros w u c v text Hw -> Hc Hlt. now apply firstWord_opening. }
  repeat split.
  - intros st c warnings Hc. unfold Sqlite.compileSelect in Hc.
    rewrite sqlite_selectParts_shape in Hc.
    apply (f_equal fst) in Hc. cbn [fst] in Hc. apply Ok_inj in Hc. subst c.
    cbn [sql bindings]. unfold SqliteDriver.executeQuery.
    destruct (selectSeg_single st) as [x Hx].
    destruct (select_text_opening tableName (selectSeg st)
                (fst (Sqlite.compileJoins (st_join st))
                 ++ predicateSeg "WHERE " (Sqlite.predicateClauses 0 (st_where st))
                 ++ groupSeg st
                 ++ predicateSeg "HAVING "
                      (Sqlite.predicateClauses 0 (st_having st))
                 ++ orderSeg st ++ sqliteLimitSeg st) x Hx) as (u & v & Hb).
    rewrite (Hrun "SELECT" u "F"%char v _ ltac:(cbn; tauto) Hb eq_refl
               ltac:(apply Nat.ltb_lt; reflexivity)).
    reflexivity.
  - intros data c Hc. unfold Sqlite.compileInsert in Hc.
    destruct (rowsOf data) as [|[row0|] rest]; try discriminate.
    destruct (allValues (keys row0) (Some row0 :: rest)); [|discriminate].
    apply Ok_inj in Hc. subst c. cbn [sql bindings].
    unfold SqliteDriver.executeQuery.
    erewrite (Hrun "INSERT" "" "I"%char);
      [reflexivity | cbn; tauto | reflexivity | reflexivity | apply Nat.ltb_lt; reflexivity].
  - intros data ws c Hc. unfold Sqlite.compileUpdate in Hc.
    destruct data as [[|kv kvs]|]; try discriminate.
    destruct ws as [|w ws]; apply Ok_inj in Hc; subst c; cbn [sql bindings];
      unfold SqliteDriver.executeQuery; rewrite ?append_assoc;
      (erewrite (Hrun "UPDATE" (tableName +:+ " ") "S"%char);
       [reflexivity | cbn; tauto | | reflexivity | apply Nat.ltb_lt; reflexivity]);
      rewrite (append_assoc tableName); reflexivity.
  - intros ws c Hc. unfold Sqlite.compileDelete in Hc.
    destruct ws as [|w ws]; apply Ok_inj in Hc; subst c; cbn [sql bindings];
      unfold SqliteDriver.executeQuery; rewrite ?append_assoc;
      (erewrite (Hrun "DELETE" "" "F"%char);
       [reflexivity | cbn; tauto | reflexivity | reflexivity | apply Nat.ltb_lt; reflexivity]).
Qed.

(** X10, on three statements of a table. *)
Lemma sqlite_driver_runs_compiled_witness :
  SqliteDriver.executeQuery "SELECT * FROM users WHERE id = ?" [VNum 7]
  = (SqliteDriver.DbAll "SELECT * FROM users WHERE id = ?" [VNum 7],
     SqliteDriver.Rows) /\
  SqliteDriver.executeQuery "INSERT INTO users (name) VALUES (?)" [VStr "Ann"]
  = (SqliteDriver.DbRun "INSERT INTO users (name) VALUES (?)" [VStr "Ann"],
     SqliteDriver.LastIdArray) /\
  SqliteDriver.executeQuery "DELETE FROM users" []
  = (SqliteDriver.DbRun "DELETE FROM users" [], SqliteDriver.RowCountObject).
Proof.
  destruct (sqlite_driver_runs_compiled_statements "users")
    as (Hsel & Hins & _ & Hdel).
  split; [|split].
  - apply (Hsel (mkStatements None [mkPredicate "id" "=" (VNum 7) "AND"] [] []
                              None None [] [])
                {| sql := "SELECT * FROM users WHERE id = ?";
                   bindings := [VNum 7] |} []).
    reflexivity.
  - apply (Hins (OneRow (Some [("name", VStr "Ann")]))
                {| sql := "INSERT INTO users (name) VALUES (?)";
                   bindings := [VStr "Ann"] |}).
    reflexivity.
  - apply (Hdel [] {| sql := "DELETE FROM users"; bindings := [] |}).
    reflexivity.
Defined.

Section MssqlParameters.

Lemma allDigits_free_of c s :
  isDigit c = false -> allDigits s -> countChar c s = 0.
Proof.
  intros Hc. induction s as [|x s IH]; [reflexivity|]. intros [Hx Hs].
  cbn [countChar]. rewrite (IH Hs).
  destruct (Ascii.eqb x c) eqn:E; [|reflexivity].
  apply Ascii.eqb_eq in E. subst x. congruence.
Qed.

Lemma natToString_free c n : isDigit c = false -> countChar c (natToString n) = 0.
Proof.
  intros Hc. apply allDigits_free_of; [exact Hc|].
  apply string_of_uint_digits.
Qed.

Lemma formatFrom_free n a b :
  freeOf "?" a ->
  MssqlDriver.formatFrom n (a +:+ b) = a +:+ MssqlDriver.formatFrom n b.
Proof.
  unfold freeOf. induction a as [|x a IH]; [reflexivity|].
  rewrite !append_cons. cbn [countChar MssqlDriver.formatFrom].
  destruct (Ascii.eqb x "?"); [discriminate|]. intros H. now rewrite IH.
Qed.

Lemma formatFrom_pieces n p0 pieces :
  Forall (freeOf "?") (p0 :: pieces) ->
  MssqlDriver.formatFrom n (join "?" (p0 :: pieces))
  = p0 +:+ join "" (imap (fun i p => "@p" +:+ natToString (n + i) +:+ p) pieces).
Proof.
  revert n p0. induction pieces as [|p1 pieces IH]; intros n p0 H.
  - apply Forall_cons in H as [H0 _]. cbn [join String.concat imap].
    pose proof (formatFrom_free n p0 "" H0) as E.
    rewrite append_nil_r in E. rewrite E. reflexivity.
  - apply Forall_cons in H as [H0 H]. rewrite join_cons.
    rewrite formatFrom_free by exact H0. rewrite append_cons, append_nil_l.
    cbn [MssqlDriver.formatFrom]. rewrite (Ascii.eqb_refl "?"), (IH _ _ H).
    f_equal. rewrite imap_cons, Nat.add_0_r.
    rewrite (imap_ext ((fun i p => "@p" +:+ natToString (n + i) +:+ p) ∘ S)
                      (fun i p => "@p" +:+ natToString (S n + i) +:+ p));
      [|intros i x _; cbn [compose]; now rewrite Nat.add_succ_r].
    set (l := imap _ pieces). unfold join.
    destruct l as [|y l]; cbn [String.concat].
    + now rewrite !append_nil_r.
    + now rewrite append_nil_l, !append_assoc.
Qed.

Lemma formatFrom_no_mark n s : freeOf "?" (MssqlDriver.formatFrom n s).
Proof.
  unfold freeOf. revert n. induction s as [|x s IH]; intros n; [reflexivity|].
  cbn [MssqlDriver.formatFrom]. destruct (Ascii.eqb x "?") eqn:E.
  - rewrite !countChar_append, natToString_free, IH by reflexivity. reflexivity.
  - cbn [countChar]. now rewrite E, IH.
Qed.

Lemma inputs_from k (bindings : list jsval) :
  List.map fst (imap (fun i v => ("p" +:+ natToString (k + i), v)) bindings)
  = List.map (fun i => "p" +:+ natToString i) (seq k (length bindings)) /\
  List.map snd (imap (fun i v => ("p" +:+ natToString (k + i), v)) bindings)
  = bindings.
Proof.
  revert k. induction bindings as [|v l IH]; intros k; [split; reflexivity|].
  rewrite imap_cons, Nat.add_0_r.
  rewrite (imap_ext ((fun i v => ("p" +:+ natToString (k + i), v)) ∘ S)
                    (fun i v => ("p" +:+ natToString (S k + i), v)));
    [|intros i x _; cbn [compose]; now rewrite Nat.add_succ_r].
  destruct (IH (S k)) as [H1 H2].
  cbn [List.map length seq fst snd]. rewrite H1, H2. split; reflexivity.
Qed.

End MssqlParameters.

(** X11: the SQL Server driver turns every [?] of the text, from left to
    right, into [@p0], [@p1], ... and leaves the rest of the text as it is,
    so that no [?] remains; it registers the bindings, in order, as the
    inputs [p0], [p1], ...: the i-th placeholder names the i-th binding. *)
Theorem mssql_driver_names_the_placeholders
    (p0 : string) (pieces : list string) (bindings : list jsval) :
  Forall (freeOf "?") (p0 :: pieces) ->
  snd (fst (MssqlDriver.executeQuery (join "?" (p0 :: pieces)) bindings))
  = p0 +:+ join "" (imap (fun i p => "@p" +:+ natToString i +:+ p) pieces) /\
  freeOf "?"
    (snd (fst (MssqlDriver.executeQuery (join "?" (p0 :: pieces)) bindings))) /\
  List.map fst
    (fst (fst (MssqlDriver.executeQuery (join "?" (p0 :: pieces)) bindings)))
  = List.map (fun i => "p" +:+ natToString i) (seq 0 (length bindings)) /\
  List.map snd
    (fst (fst (MssqlDriver.executeQuery (join "?" (p0 :: pieces)) bindings)))
  = bindings.
Proof.
  intros H. unfold MssqlDriver.executeQuery, MssqlDriver.formattedSql,
    MssqlDriver.inputs. cbn [fst snd].
  split; [|split; [apply formatFrom_no_mark | apply (inputs_from 0)]].
  now rewrite formatFrom_pieces.
Qed.

(** X11, on a statement with two placeholders. *)
Lemma mssql_driver_names_the_placeholders_witness :
  snd (fst (MssqlDriver.executeQuery
              "SELECT * FROM users WHERE id = ? AND age < ?"
              [VNum 7; VNum 40]))
  = "SELECT * FROM users WHERE id = @p0 AND age < @p1" /\
  List.map fst (fst (fst (MssqlDriver.executeQuery
              "SELECT * FROM users WHERE id = ? AND age < ?"
              [VNum 7; VNum 40])))
  = ["p0"; "p1"].
Proof.
  destruct (mssql_driver_names_the_placeholders
              "SELECT * FROM users WHERE id = " [" AND age < "; ""]
              [VNum 7; VNum 40]) as (H1 & _ & H2 & _).
  - repeat constructor.
  - split; [exact H1 | exact H2].
Defined.

(** * The query builder *)

Section BuilderInvariants.

Import QueryBuilder.

Implicit Types (qb : QueryBuilder.t) (c : call).

(** What every chainable call keeps: the joins are inner or left joins,
    there is no GROUP BY and no HAVING, and [bindings.where] holds the
    defined where values. *)
Lemma apply_keeps qb c :
  Forall (fun j => j_type j = "inner" \/ j_type j = "left")
         (st_join (qb_statements qb)) /\
  st_groupBy (qb_statements qb) = [] /\
  st_having (qb_statements qb) = [] /\
  qb_whereBindings qb
  = List.filter isDefined (values (st_where (qb_statements qb))) ->
  Forall (fun j => j_type j = "inner" \/ j_type j = "left")
         (st_join (qb_statements (apply qb c))) /\
  st_groupBy (qb_statements (apply qb c)) = [] /\
  st_having (qb_statements (apply qb c)) = [] /\
  qb_whereBindings (apply qb c)
  = List.filter isDefined (values (st_where (qb_statements (apply qb c)))) /\
  qb_tableName (apply qb c) = qb_tableName qb.
Proof.
  assert (Hpush : forall boolean column operator value qb,
    Forall (fun j => j_type j = "inner" \/ j_type j = "left")
           (st_join (qb_statements qb)) /\
    st_groupBy (qb_statements qb) = [] /\
    st_having (qb_statements qb) = [] /\
    qb_whereBindings qb
    = List.filter isDefined (values (st_where (qb_statements qb))) ->
    Forall (fun j => j_type j = "inner" \/ j_type j = "left")
           (st_join (qb_statements (pushWhere boolean column operator value qb))) /\
    st_groupBy (qb_statements (pushWhere boolean column operator value qb)) = [] /\
    st_having (qb_statements (pushWhere boolean column operator value qb)) = [] /\
    qb_whereBindings (pushWhere boolean column operator value qb)
    = List.filter isDefined
        (values (st_where (qb_statements
                             (pushWhere boolean column operator value qb)))) /\
    qb_tableName (pushWhere boolean column operator value qb) = qb_tableName qb).
  { intros boolean column operator value qb0 (Hj & Hg & Hh & Hb).
    unfold pushWhere, values. cbn [qb_statements qb_whereBindings qb_tableName
                                   st_join st_groupBy st_having st_where].
    repeat split; try assumption.
    rewrite List.map_app, List.filter_app, Hb. cbn [List.map List.filter p_value].
    unfold values. destruct (isDefined value); [reflexivity|].
    now rewrite app_nil_r. }
  intros H. destruct c; cbn [apply]; try (apply Hpush; exact H).
  - destruct H as (Hj & Hg & Hh & Hb). repeat split; assumption.
  - revert qb H. induction conditions as [|[key val] conditions IH]; intros qb H.
    + cbn [fold_left]. destruct H as (Hj & Hg & Hh & Hb). repeat split; assumption.
    + cbn [fold_left].
      destruct (Hpush "AND" key "=" val qb H) as (Hj & Hg & Hh & Hb & Ht).
      rewrite <- Ht. apply IH. repeat split; assumption.
  - destruct H as (Hj & Hg & Hh & Hb). repeat split; assumption.
  - destruct H as (Hj & Hg & Hh & Hb). repeat split; assumption.
  - destruct H as (Hj & Hg & Hh & Hb). repeat split; assumption.
  - destruct H as (Hj & Hg & Hh & Hb).
    unfold pushJoin. cbn [qb_statements qb_whereBindings qb_tableName
                          st_join st_groupBy st_having st_where].
    repeat split; try assumption.
    apply Forall_app. split; [exact Hj|]. constructor; [now left | constructor].
  - destruct H as (Hj & Hg & Hh & Hb).
    unfold pushJoin. cbn [qb_statements qb_whereBindings qb_tableName
                          st_join st_groupBy st_having st_where].
    repeat split; try assumption.
    apply Forall_app. split; [exact Hj|]. constructor; [now right | constructor].
Qed.

Lemma chain_keeps calls tableName :
  Forall (fun j => j_type j = "inner" \/ j_type j = "left")
         (st_join (qb_statements (chain calls (create tableName)))) /\
  st_groupBy (qb_statements (chain calls (create tableName))) = [] /\
  st_having (qb_statements (chain calls (create tableName))) = [] /\
  qb_whereBindings (chain calls (create tableName))
  = List.filter isDefined
      (values (st_where (qb_statements (chain calls (create tableName))))) /\
  qb_tableName (chain calls (create tableName)) = tableName.
Proof.
  unfold chain.
  assert (H0 : Forall (fun j => j_type j = "inner" \/ j_type j = "left")
                 (st_join (qb_statements (create tableName))) /\
               st_groupBy (qb_statements (create tableName)) = [] /\
               st_having (qb_statements (create tableName)) = [] /\
               qb_whereBindings (create tableName)
               = List.filter isDefined
                   (values (st_where (qb_statements (create tableName)))))
    by (cbn; repeat split; constructor).
  assert (Ht : qb_tableName (create tableName) = tableName) by reflexivity.
  revert H0 Ht. generalize (create tableName) as qb.
  induction calls as [|c calls IH]; intros qb H0 Ht.
  - cbn [fold_left]. destruct H0 as (Hj & Hg & Hh & Hb). repeat split; assumption.
  - cbn [fold_left]. destruct (apply_keeps qb c H0) as (Hj & Hg & Hh & Hb & Ht').
    apply IH; [repeat split; assumption | congruence].
Qed.

Lemma sqlite_joins_quiet js :
  Forall (fun j => j_type j = "inner" \/ j_type j = "left") js ->
  snd (Sqlite.compileJoins js) = [].
Proof.
  induction 1 as [|j js Hj _ IH]; [reflexivity|].
  cbn [Sqlite.compileJoins]. destruct (Sqlite.compileJoins js) as [ps ws].
  cbn [snd] in *. subst ws. destruct Hj as [-> | ->]; reflexivity.
Qed.

End BuilderInvariants.

(** X12: whatever chain of calls builds it, a query of the builder holds
    inner and left joins only, no GROUP BY and no HAVING; compiling it for
    SQLite therefore never prints a join warning, and with both dialects
    its parameters are the where values followed by what LIMIT and OFFSET
    bind. *)
Theorem builder_queries_compile_without_warnings
    (tableName : string) (calls : list QueryBuilder.call) :
  Forall (fun j => j_type j = "inner" \/ j_type j = "left")
    (st_join (QueryBuilder.qb_statements
                (QueryBuilder.chain calls (QueryBuilder.create tableName)))) /\
  st_groupBy (QueryBuilder.qb_statements
                (QueryBuilder.chain calls (QueryBuilder.create tableName))) = [] /\
  st_having (QueryBuilder.qb_statements
               (QueryBuilder.chain calls (QueryBuilder.create tableName))) = [] /\
  exists lite pg,
    QueryBuilder.toSQL_sqlite
      (QueryBuilder.chain calls (QueryBuilder.create tableName)) = (Ok lite, []) /\
    QueryBuilder.toSQL_pg
      (QueryBuilder.chain calls (QueryBuilder.create tableName)) = Ok pg /\
    bindings lite
    = values (st_where (QueryBuilder.qb_statements
                (QueryBuilder.chain calls (QueryBuilder.create tableName))))
      ++ sqliteLimitValues (QueryBuilder.qb_statements
                (QueryBuilder.chain calls (QueryBuilder.create tableName))) /\
    bindings pg
    = values (st_where (QueryBuilder.qb_statements
                (QueryBuilder.chain calls (QueryBuilder.create tableName))))
      ++ pgLimitValues (QueryBuilder.qb_statements
                (QueryBuilder.chain calls (QueryBuilder.create tableName))).
Proof.
  destruct (chain_keeps calls tableName) as (Hj & Hg & Hh & _ & _).
  repeat split; try assumption.
  unfold QueryBuilder.toSQL_sqlite, QueryBuilder.toSQL_pg,
    Sqlite.compileSelect, Pg.compileSelect.
  rewrite sqlite_selectParts_shape, pg_selectParts_shape,
    (sqlite_joins_quiet _ Hj), Hh.
  eexists _, _. repeat split; reflexivity.
Qed.


(** * The schema compilers and the configuration *)

Section SchemaFacts.

Lemma pg_serial_parts (column : Column) :
  c_autoIncrement column = true ->
  PgSchema.compileColumn column
  = join " " ([c_name column; "SERIAL"]
              ++ (if c_nullable column then [] else ["NOT NULL"])
              ++ match c_defaultValue column with
                 | VUndefined => []
                 | VStr s => ["DEFAULT '" +:+ s +:+ "'"]
                 | VNull => ["DEFAULT NULL"]
                 | v => ["DEFAULT " +:+ toString v]
                 end).
Proof.
  intros Hauto. unfold PgSchema.compileColumn. rewrite Hauto.
  assert (Hparts : PgSchema.setSecond "SERIAL"
            match PgSchema.DATA_TYPES (c_type column) with
            | Some (Mysql.StringFn | Mysql.DecimalFn | Mysql.InheritedFn) =>
                if String.eqb (c_type column) "string"
                then [c_name column] ++ [Mysql.stringType (c_length column)]
                else if String.eqb (c_type column) "decimal"
                then [c_name column]
                     ++ [Mysql.decimalType (c_precision column) (c_scale column)]
                else [c_name column]
            | Some (Mysql.TypeName s) => [c_name column] ++ [s]
            | Some Mysql.InheritedObj => [c_name column] ++ ["[object Object]"]
            | None => [c_name column] ++ ["TEXT"]
            end = [c_name column; "SERIAL"]).
  { destruct (PgSchema.DATA_TYPES (c_type column)) as [[]|];
      try reflexivity;
      destruct (String.eqb (c_type column) "string"); try reflexivity;
      destruct (String.eqb (c_type column) "decimal"); reflexivity. }
  rewrite Hparts.
  destruct (c_nullable column), (c_defaultValue column); reflexivity.
Qed.

Lemma join_nonempty sep (l : list string) :
  l <> [] -> Forall (fun s => s <> "") l -> join sep l <> "".
Proof.
  intros Hl H. destruct H as [|x l Hx H]; [congruence|].
  destruct x as [|c x]; [congruence|].
  destruct l as [|y l]; [discriminate|]. rewrite join_cons, append_cons.
  discriminate.
Qed.

Lemma alterStatements_nonempty tableName columns constraints index :
  Forall (fun s => s <> "")
    (MysqlAlter.alterStatements tableName columns constraints index).
Proof.
  unfold MysqlAlter.alterStatements. repeat apply Forall_app_2.
  - induction columns as [|c cs IH]; constructor; [discriminate | exact IH].
  - destruct (primaryKey constraints) as [[|c cs]|]; repeat constructor.
    discriminate.
  - generalize 0. induction (unique constraints) as [|g gs IH]; intros n;
      constructor; [discriminate | apply IH].
  - generalize 0. induction (foreignKeys constraints) as [|g gs IH]; intros n;
      constructor; [discriminate | apply IH].
  - generalize 0. induction index as [|g gs IH]; intros n;
      constructor; [discriminate | apply IH].
Qed.

End SchemaFacts.

(** X14: the PostgreSQL schema compiler renders every auto-increment column
    as its name followed by SERIAL, whatever type, length, precision or
    scale the column declares: two auto-increment columns that differ in
    these only compile to the same definition. *)
Theorem pg_auto_increment_columns_are_serial
    (name ty ty' : string) (nullable : bool) (defaultValue : jsval)
    (len len' precision precision' scale scale' : jsval) :
  PgSchema.compileColumn
    (mkColumn name ty nullable defaultValue true len precision scale)
  = PgSchema.compileColumn
      (mkColumn name ty' nullable defaultValue true len' precision' scale') /\
  exists rest,
    PgSchema.compileColumn
      (mkColumn name ty nullable defaultValue true len precision scale)
    = name +:+ " SERIAL" +:+ rest.
Proof.
  rewrite !pg_serial_parts by reflexivity. cbn [c_name c_nullable c_defaultValue].
  split; [reflexivity|].
  match goal with
  | |- context [[name; "SERIAL"] ++ ?tail] => generalize tail
  end.
  intros tail. cbn [app].
  destruct (join_head " " "SERIAL" tail) as (rest & Hjoin & _).
  exists rest. rewrite join_cons, Hjoin. reflexivity.
Qed.

(** X15: the MySQL [compileAlterTable] never fails and binds nothing; its
    text is the empty string exactly when there is nothing to alter: no
    column, no primary key, no unique group, no foreign key and no index. *)
Theorem mysql_alter_table_is_empty_iff_nothing_to_alter
    (tableName : string) (columns : list Column) (constraints : Constraints)
    (index : list Index) :
  exists c,
    MysqlAlter.compileAlterTable tableName columns constraints index = Ok c /\
    bindings c = [] /\
    (sql c = "" <->
     columns = [] /\
     (primaryKey constraints = None \/ primaryKey constraints = Some []) /\
     unique constraints = [] /\ foreignKeys constraints = [] /\ index = []).
Proof.
  eexists. split; [reflexivity|]. split; [reflexivity|]. cbn [sql]. split.
  - intros Hsql.
    destruct (MysqlAlter.alterStatements tableName columns constraints index)
      as [|s l] eqn:E.
    + unfold MysqlAlter.alterStatements in E.
      apply app_eq_nil in E as [Hc E]. apply app_eq_nil in E as [Hp E].
      apply app_eq_nil in E as [Hu E]. apply app_eq_nil in E as [Hf Hi].
      repeat split.
      * now destruct columns.
      * destruct (primaryKey constraints) as [[|c cs]|]; auto. discriminate.
      * now destruct (unique constraints).
      * now destruct (foreignKeys constraints).
      * now destruct index.
    + exfalso. revert Hsql. apply join_nonempty; [discriminate|].
      rewrite <- E. apply alterStatements_nonempty.
  - intros (-> & Hp & Hu & Hf & ->). unfold MysqlAlter.alterStatements.
    rewrite Hu, Hf. destruct Hp as [-> | ->]; reflexivity.
Qed.

Section ConfigFacts.

Lemma validateConnectionConfig_ok connection fields :
  Config.validateConnectionConfig connection fields = Ok tt <->
  Forall (fun field => Config.missing (getProp connection field) = false) fields.
Proof.
  induction fields as [|f fs IH]; cbn [Config.validateConnectionConfig].
  - split; [constructor | reflexivity].
  - destruct (Config.missing (getProp connection f)) eqn:E.
    + split; [discriminate|]. intros H. apply Forall_cons in H as [H _].
      congruence.
    + rewrite IH. split; [now constructor|].
      intros H. now apply Forall_cons in H as [_ H].
Qed.

Lemma checked_ok (r : result unit) :
  match r with Ok _ => Ok true | Throw msg => Throw msg end = Ok true <->
  r = Ok tt.
Proof. destruct r as [[]|msg]; split; congruence. Qed.

(** The validator on a supported network dialect and on SQLite. *)
Lemma configValidator_network s connection :
  In s ["pg"; "mysql"; "mssql"] ->
  Config.configValidator (Some (Config.mkConfig (VStr s) (Some connection)))
  = match Config.validateConnectionConfig connection
            ["host"; "user"; "password"; "database"] with
    | Ok _ => Ok true
    | Throw msg => Throw msg
    end.
Proof. intros [<- | [<- | [<- | []]]]; reflexivity. Qed.

Lemma configValidator_sqlite connection :
  Config.configValidator (Some (Config.mkConfig (VStr "sqlite") (Some connection)))
  = match Config.validateSqliteConfig connection with
    | Ok _ => Ok true
    | Throw msg => Throw msg
    end.
Proof. reflexivity. Qed.

End ConfigFacts.

(** X16: [configValidator] returns [true] exactly for a configuration whose
    client is one of pg, mysql, mssql and sqlite and whose connection
    object holds, for sqlite, a truthy [filename] and, for the others, a
    [host], a [user], a [password] and a [database] that are each truthy
    or the number 0 (an empty password is refused); every other
    configuration makes it throw, the client [oracle] included, although
    the [switch] names it. *)
Theorem config_is_accepted_iff (config : option Config.t) :
  (Config.configValidator config = Ok true <->
   exists s connection,
     config = Some (Config.mkConfig (VStr s) (Some connection)) /\
     ((s = "sqlite" /\ truthy (getProp connection "filename") = true) \/
      (In s ["pg"; "mysql"; "mssql"] /\
       Forall (fun field => Config.missing (getProp connection field) = false)
              ["host"; "user"; "password"; "database"]))) /\
  Config.configValidator config <> Ok false /\
  (forall connection,
     Config.configValidator (Some (Config.mkConfig (VStr "oracle") connection))
     = Throw ("Le dialecte 'oracle' n'est pas supporté. " +:+
              "Dialectes supportés: pg, mysql, sqlite, mssql")) /\
  (forall s connection,
     In s ["pg"; "mysql"; "mssql"] ->
     getProp connection "password" = VStr "" ->
     Config.configValidator (Some (Config.mkConfig (VStr s) (Some connection)))
     <> Ok true).
Proof.
  split; [|split; [|split]].
  - split.
    + intros H. destruct config as [[cl conn]|]; [|discriminate].
      unfold Config.configValidator in H. cbn [Config.client Config.connection] in H.
      destruct (truthy cl) eqn:Ht; cbn [negb] in H; [|discriminate].
      destruct (Config.includes Config.SUPPORTED_DIALECTS cl) eqn:Hi;
        cbn [negb] in H; [|discriminate].
      destruct cl as [| |b|z|s|l|m]; try discriminate Hi.
      destruct conn as [conn|]; [|discriminate].
      exists s, conn. split; [reflexivity|].
      unfold Config.includes, Config.SUPPORTED_DIALECTS in Hi.
      cbn [existsb] in Hi. rewrite !orb_true_iff in Hi.
      destruct Hi as [Hi | [Hi | [Hi | [Hi | Hi]]]]; try discriminate;
        apply String.eqb_eq in Hi; subst s.
      * right. split; [cbn; tauto|].
        apply validateConnectionConfig_ok, checked_ok. exact H.
      * right. split; [cbn; tauto|].
        apply validateConnectionConfig_ok, checked_ok. exact H.
      * left. split; [reflexivity|].
        apply checked_ok in H. unfold Config.validateSqliteConfig in H.
        now destruct (truthy (getProp conn "filename")).
      * right. split; [cbn; tauto|].
        apply validateConnectionConfig_ok, checked_ok. exact H.
    + intros (s & conn & -> & [[-> Hf] | [Hs Hall]]).
      * rewrite configValidator_sqlite. unfold Config.validateSqliteConfig.
        now rewrite Hf.
      * rewrite (configValidator_network _ _ Hs).
        apply validateConnectionConfig_ok in Hall. now rewrite Hall.
  - destruct config as [[cl conn]|]; [|discriminate].
    unfold Config.configValidator.
    destruct (negb (truthy (Config.client _))); [discriminate|].
    destruct (negb (Config.includes _ _)); [discriminate|].
    destruct (Config.connection _); [|discriminate].
    match goal with |- match ?r with _ => _ end <> _ => destruct r end;
      discriminate.
  - intros connection. reflexivity.
  - intros s connection Hs Hpw. rewrite (configValidator_network _ _ Hs).
    intros H. apply checked_ok, validateConnectionConfig_ok in H.
    apply Forall_cons in H as [_ H]. apply Forall_cons in H as [_ H].
    apply Forall_cons in H as [H _]. rewrite Hpw in H. discriminate.
Qed.

(** X16, on a SQLite configuration. *)
Lemma config_is_accepted_witness :
  Config.configValidator
    (Some (Config.mkConfig (VStr "sqlite") (Some [("filename", VStr "db.sqlite")])))
  = Ok true /\
  Config.configValidator
    (Some (Config.mkConfig (VStr "pg")
             (Some [("host", VStr "localhost"); ("user", VStr "app");
                    ("password", VStr ""); ("database", VStr "shop")])))
  <> Ok true.
Proof.
  split.
  - apply (proj1 (config_is_accepted_iff _)).
    exists "sqlite", [("filename", VStr "db.sqlite")].
    split; [reflexivity|]. left. split; reflexivity.
  - apply (proj2 (proj2 (proj2 (config_is_accepted_iff None)))).
    + cbn. tauto.
    + reflexivity.
Defined.

(** * The two builders and the two SELECT compilers *)

Section TableBuilderFacts.

Import TableBuilder.

Lemma offered_entries type :
  In type offeredTypes ->
  ownEntry (Mysql.DATA_TYPES type) /\ ownEntry (PgSchema.DATA_TYPES type).
Proof.
  intros H. repeat (destruct H as [<- | H]; [split; exact I|]). destruct H.
Qed.

Lemma onColumn_types position f tb :
  (forall column, c_type (f column) = c_type column) ->
  Forall (fun column => In (c_type column) offeredTypes) (columns tb) ->
  Forall (fun column => In (c_type column) offeredTypes)
         (columns (onColumn position f tb)).
Proof.
  intros Hf H. unfold onColumn. cbn [columns].
  destruct (columns tb !! position) as [column|] eqn:E; [|exact H].
  apply Forall_insert; [exact H|]. rewrite Hf.
  exact (Forall_lookup_1 _ _ _ _ H E).
Qed.

Lemma apply_types tb c :
  Forall (fun column => In (c_type column) offeredTypes) (columns tb) ->
  Forall (fun column => In (c_type column) offeredTypes) (columns (apply tb c)).
Proof.
  intros H.
  destruct c; cbn [apply];
    try (apply onColumn_types; [reflexivity | exact H]);
    try (cbn [addColumn primary columns]; apply Forall_app; split; [exact H|];
         repeat constructor; cbn; tauto);
    try exact H.
Qed.

End TableBuilderFacts.

(** X17: whatever a callback does with the table builder and with the column
    builders it gets back, every column of the table has one of the eight
    types the builder offers, and each of these is an own entry of the
    MySQL and of the PostgreSQL type table: for a table made with the
    builder the column compilers never fall back to their default type. *)
Theorem table_builder_columns_have_known_types (calls : list TableBuilder.call) :
  Forall (fun column =>
            In (c_type column) TableBuilder.offeredTypes /\
            TableBuilder.ownEntry (Mysql.DATA_TYPES (c_type column)) /\
            TableBuilder.ownEntry (PgSchema.DATA_TYPES (c_type column)))
         (TableBuilder.columns (TableBuilder.callback calls)).
Proof.
  assert (H : Forall (fun column => In (c_type column) TableBuilder.offeredTypes)
                (TableBuilder.columns (TableBuilder.callback calls))).
  { unfold TableBuilder.callback.
    assert (H0 : Forall (fun column => In (c_type column) TableBuilder.offeredTypes)
                   (TableBuilder.columns TableBuilder.create)) by constructor.
    revert H0. generalize TableBuilder.create as tb.
    induction calls as [|c calls IH]; intros tb H0; [exact H0|].
    cbn [fold_left]. apply IH. now apply apply_types. }
  eapply Forall_impl; [exact H|]. intros column Hc. split; [exact Hc|].
  now apply offered_entries.
Qed.

(** X18: [where] with an object of conditions is the chain of the
    two-argument [where] calls on its entries, in key order: the same
    predicates, all joined by AND with the operator [=], and the same
    [bindings.where]. *)
Theorem where_object_is_a_chain_of_wheres
    (conditions : jsobj) (qb : QueryBuilder.t) :
  QueryBuilder.apply qb (QueryBuilder.WhereObject conditions)
  = QueryBuilder.chain
      (List.map (fun '(key, val) => QueryBuilder.Where2 key val) conditions) qb /\
  List.map (fun p => (p_column p, p_operator p, p_value p, p_boolean p))
      (st_where (QueryBuilder.qb_statements
                   (QueryBuilder.apply qb (QueryBuilder.WhereObject conditions))))
  = List.map (fun p => (p_column p, p_operator p, p_value p, p_boolean p))
      (st_where (QueryBuilder.qb_statements qb))
    ++ List.map (fun '(key, val) => (key, "=", val, "AND")) conditions.
Proof.
  unfold QueryBuilder.chain. cbn [QueryBuilder.apply].
  revert qb. induction conditions as [|[key val] conditions IH]; intros qb.
  - split; [reflexivity|]. cbn [fold_left List.map]. now rewrite app_nil_r.
  - cbn [fold_left List.map QueryBuilder.apply].
    destruct (IH (QueryBuilder.pushWhere "AND" key "=" val qb)) as [H1 H2].
    split; [exact H1|]. rewrite H2.
    unfold QueryBuilder.pushWhere at 1.
    cbn [QueryBuilder.qb_statements st_where].
    rewrite List.map_app, <- app_assoc. reflexivity.
Qed.

(** X19: for the same statements the two SELECT compilers bind the same
    parameters in the same order (the WHERE values, the HAVING values, the
    limit, the offset), except that with an offset and no limit the
    PostgreSQL compiler binds the offset, which the SQLite compiler leaves
    out. *)
Theorem select_compilers_bind_the_same_parameters
    (tableName : string) (st : Statements) :
  exists lite warnings pg,
    Sqlite.compileSelect tableName st = (Ok lite, warnings) /\
    Pg.compileSelect tableName st = Ok pg /\
    bindings pg
    = bindings lite
      ++ match st_limit st, st_offset st with
         | None, Some offset => [offset]
         | _, _ => []
         end.
Proof.
  unfold Sqlite.compileSelect, Pg.compileSelect.
  rewrite sqlite_selectParts_shape, pg_selectParts_shape.
  eexists _, _, _. split; [reflexivity|]. split; [reflexivity|].
  cbn [bindings]. unfold sqliteLimitValues, pgLimitValues.
  rewrite <- !app_assoc. do 2 f_equal.
  destruct (st_limit st), (st_offset st); reflexivity.
Qed.

(** X20, on a statement with a qualified and aliased table. *)
Lemma extracted_tables_witness :
  "users" <> "" /\ allChars isLowerWord "users".
Proof.
  apply (extracted_tables_are_lowercase_words
           "SELECT * FROM dbo.Users AS u WHERE u.id = ?" "users").
  replace (Cache.extractTablesFromQuery
             "SELECT * FROM dbo.Users AS u WHERE u.id = ?")
    with ({["users"]} : gset string) by (vm_compute; reflexivity).
  now apply elem_of_singleton.
Defined.

(** * The client *)

Section ClientFacts.

Variable completes : list Client.event -> Client.event -> result jsval.


End ClientFacts.


